(** * The AI agent swarm of agents/core/ai-agent-swarm.js

    A shallow embedding of class [AIAgentSwarm]: the agent registry built by
    [initializeAgents], the task builder [createSwarmTasks], the executor
    [executeSwarmTasks] with its per-task body [executeAgentTask], the
    coordinator [coordinateResults] and the metrics bookkeeping, [resetSwarm],
    and the advanced analyses of [performAdvancedIntelligence] with
    [executeAdvancedTask] and [generateIntelligenceSummary].

    JavaScript numbers that the class only counts, adds and rounds are
    integers here ([Z]); times are milliseconds as [Date.now()] reports them.
    The inference backend ([this.wrapper.chat]) is an external collaborator: it
    is a parameter of the development that says, for each call, whether and
    when the returned promise settles and with what. *)

From stdpp Require Import gmap strings list pretty.
From Stdlib Require Import ZArith Ascii.

Local Open Scope Z_scope.

(** ** JavaScript values *)

(** A property that holds a string, [null], or nothing at all. *)
Inductive JsText :=
  | Str (s : string)
  | Null
  | Undefined.

(** [`${v}`]: what a template literal prints for such a value. *)
Definition interpolate (v : JsText) : string :=
  match v with
  | Str s => s
  | Null => "null"
  | Undefined => "undefined"
  end.

(** [Math.round(x / 2)] for an integer [x]: the quotient is an integer or
    ends in .5, and [Math.round] sends halves upwards. *)
Definition round_half (x : Z) : Z := (x + 1) / 2.

(** [Math.round(p / q)] for integers [p] and [q > 0] (and [NaN]-free). *)
Definition round_div (p q : Z) : Z := (2 * p + q) / (2 * q).

(** [String.prototype.toUpperCase] on ASCII text. *)
Definition upper_ascii (c : ascii) : ascii :=
  let n := N_of_ascii c in
  if ((97 <=? n) && (n <=? 122))%N then ascii_of_N (n - 32) else c.

Fixpoint toUpperCase (s : string) : string :=
  match s with
  | EmptyString => EmptyString
  | String c rest => String (upper_ascii c) (toUpperCase rest)
  end.

(** [Array.prototype.findIndex]: the first position that satisfies [p], or -1. *)
Fixpoint findIndex {A} (p : A → bool) (l : list A) : Z :=
  match l with
  | [] => -1
  | x :: rest =>
      if p x then 0
      else match findIndex p rest with
           | -1 => -1
           | i => i + 1
           end
  end.

(** [l.splice(index, 1)]: a negative [index] counts from the end of the array
    (and stops at its start); nothing is removed past the end. What is left
    of the array is returned. *)
Definition splice1 {A} (index : Z) (l : list A) : list A :=
  let len := Z.of_nat (length l) in
  let start := if index <? 0 then Z.max (len + index) 0 else Z.min index len in
  delete (Z.to_nat start) l.

(** ** Configuration (constructor, lines 8-16) *)

(** The [config] argument: each property is present with a number or absent. *)
Record UserConfig := {
  user_maxConcurrentAgents : option Z;
  user_taskTimeout : option Z;
  user_retryAttempts : option Z;
  user_coordinationModel : option string
}.

Record Config := {
  maxConcurrentAgents : Z;
  taskTimeout : Z;
  retryAttempts : Z;
  coordinationModel : string
}.

(** [v || d] on a number property. *)
Definition or_default (v : option Z) (d : Z) : Z :=
  match v with
  | Some 0 | None => d
  | Some x => x
  end.

(** [v || d] on a string property. *)
Definition or_default_string (v : option string) (d : string) : string :=
  match v with
  | Some EmptyString | None => d
  | Some x => x
  end.

(** The trailing [...config] of the object literal: a property the caller
    passed wins over the default computed before it. *)
Definition spread {A} (v : option A) (computed : A) : A :=
  match v with
  | Some x => x
  | None => computed
  end.

Definition mkConfig (config : UserConfig) : Config := {|
  maxConcurrentAgents :=
    spread (user_maxConcurrentAgents config)
      (or_default (user_maxConcurrentAgents config) 6);
  taskTimeout :=
    spread (user_taskTimeout config) (or_default (user_taskTimeout config) 120000);
  retryAttempts :=
    spread (user_retryAttempts config) (or_default (user_retryAttempts config) 2);
  coordinationModel :=
    spread (user_coordinationModel config)
      (or_default_string (user_coordinationModel config) "x-ai/grok-code-fast-1")
|}.

Definition defaultConfig : UserConfig := {|
  user_maxConcurrentAgents := None;
  user_taskTimeout := None;
  user_retryAttempts := None;
  user_coordinationModel := None
|}.

(** ** Agents and metrics (lines 18-98) *)

Inductive Status := idle | active.

Record Agent := {
  agent_id : string;
  name : string;
  model : string;
  specialization : string;
  capabilities : list string;
  prompt : string;
  status : Status;
  tasksCompleted : Z;
  averageResponseTime : Z;
  successRate : Z;
  lastActive : option Z
}.

Record AgentEfficiency := {
  tasksAssigned : Z;
  eff_tasksCompleted : Z;
  averageTime : Z;
  eff_successRate : Z
}.

Record SwarmMetrics := {
  totalTasks : Z;
  completedTasks : Z;
  failedTasks : Z;
  averageTaskTime : Z;
  agentEfficiency : gmap string AgentEfficiency
}.

(** The instance: [this.config], [this.agents], [this.swarmMetrics]. *)
Record Swarm := {
  config : Config;
  agents : gmap string Agent;
  swarmMetrics : SwarmMetrics
}.

Record AgentDefinition := {
  def_name : string;
  def_model : string;
  def_specialization : string;
  def_capabilities : list string;
  def_prompt : string
}.

Definition agentDefinitions : list (string * AgentDefinition) := [
  ("architect", {|
     def_name := "Architecture Analyst";
     def_model := "x-ai/grok-code-fast-1";
     def_specialization := "system-architecture";
     def_capabilities :=
       ["architecture-analysis"; "design-patterns"; "scalability-assessment"];
     def_prompt :=
       "You are an expert software architect specializing in system design analysis." |});
  ("security", {|
     def_name := "Security Auditor";
     def_model := "deepseek/deepseek-chat-v3.1:free";
     def_specialization := "security-analysis";
     def_capabilities :=
       ["vulnerability-detection"; "security-patterns"; "compliance-check"];
     def_prompt :=
       "You are a cybersecurity expert specializing in code security analysis." |});
  ("performance", {|
     def_name := "Performance Optimizer";
     def_model := "qwen/qwen3-30b-a3b-thinking-2507";
     def_specialization := "performance-analysis";
     def_capabilities :=
       ["performance-optimization"; "bottleneck-detection"; "scalability"];
     def_prompt :=
       "You are a performance optimization expert focusing on code efficiency." |});
  ("quality", {|
     def_name := "Code Quality Assessor";
     def_model := "openai/gpt-oss-120b:free";
     def_specialization := "code-quality";
     def_capabilities := ["code-review"; "best-practices"; "maintainability"];
     def_prompt :=
       "You are a code quality expert focusing on maintainability and best practices." |});
  ("testing", {|
     def_name := "Test Engineer";
     def_model := "x-ai/grok-code-fast-1";
     def_specialization := "test-generation";
     def_capabilities := ["test-design"; "coverage-analysis"; "test-strategy"];
     def_prompt :=
       "You are a test automation expert specializing in comprehensive test strategies." |});
  ("documentation", {|
     def_name := "Documentation Specialist";
     def_model := "google/gemini-2.5-flash-image-preview:free";
     def_specialization := "documentation";
     def_capabilities := ["technical-writing"; "api-documentation"; "user-guides"];
     def_prompt :=
       "You are a technical writing expert creating clear, comprehensive documentation." |})
].

(** The record [this.agents.set(id, {...})] stores for a definition. *)
Definition newAgent (id : string) (definition : AgentDefinition) : Agent := {|
  agent_id := id;
  name := def_name definition;
  model := def_model definition;
  specialization := def_specialization definition;
  capabilities := def_capabilities definition;
  prompt := def_prompt definition;
  status := idle;
  tasksCompleted := 0;
  averageResponseTime := 0;
  successRate := 100;
  lastActive := None
|}.

Definition newEfficiency : AgentEfficiency := {|
  tasksAssigned := 0;
  eff_tasksCompleted := 0;
  averageTime := 0;
  eff_successRate := 100
|}.

Definition set_agents (f : gmap string Agent → gmap string Agent) (sw : Swarm) : Swarm :=
  {| config := config sw; agents := f (agents sw); swarmMetrics := swarmMetrics sw |}.

Definition set_agentEfficiency
    (f : gmap string AgentEfficiency → gmap string AgentEfficiency) (sw : Swarm) : Swarm :=
  {| config := config sw;
     agents := agents sw;
     swarmMetrics := {|
       totalTasks := totalTasks (swarmMetrics sw);
       completedTasks := completedTasks (swarmMetrics sw);
       failedTasks := failedTasks (swarmMetrics sw);
       averageTaskTime := averageTaskTime (swarmMetrics sw);
       agentEfficiency := f (agentEfficiency (swarmMetrics sw)) |} |}.

(** One turn of the [forEach] of [initializeAgents]. *)
Definition registerAgent (sw : Swarm) (entry : string * AgentDefinition) : Swarm :=
  let '(id, definition) := entry in
  set_agentEfficiency (insert id newEfficiency)
    (set_agents (insert id (newAgent id definition)) sw).

Definition initializeAgents (sw : Swarm) : Swarm :=
  foldl registerAgent sw agentDefinitions.

(** [new AIAgentSwarm(wrapper, config)]. *)
Definition newSwarm (userConfig : UserConfig) : Swarm :=
  initializeAgents {|
    config := mkConfig userConfig;
    agents := ∅;
    swarmMetrics := {|
      totalTasks := 0;
      completedTasks := 0;
      failedTasks := 0;
      averageTaskTime := 0;
      agentEfficiency := ∅ |} |}.

(** ** Tasks (createSwarmTasks, lines 125-201) *)

Inductive Priority := high | medium | low.

(** An entry of [repository.files]; [path] is [None] when the object has no
    such property. *)
Record RepositoryFile := {
  path : option string
}.

(** [repository.stats]; [languages], an object keyed by language, is [None]
    when the property is missing. *)
Record RepositoryStats := {
  languages : option (list string)
}.

(** Of a repository the orchestration itself reads [owner] and [repo]. The
    prompt builders read more of it (lines 911-929); kept of that is what
    decides whether they return: [files], an array of objects when it is
    there, and [stats], an object when it is there. [info], the sizes and
    the contents of the files only feed the text of a prompt. *)
Record Repository := {
  owner : string;
  repo : string;
  files : option (list RepositoryFile);
  stats : option RepositoryStats
}.

(** [repository] is [None] for a task object without the property. *)
Record Task := {
  id : string;
  agentId : string;
  type : string;
  repository : option Repository;
  priority : Priority;
  description : string
}.

(** [analysisTypes.includes(kind)]. *)
Definition includes (kind : string) (analysisTypes : list string) : bool :=
  bool_decide (kind ∈ analysisTypes).

(** One [if (...) tasks.push({...})] block; [now] is the [Date.now()] of the
    id. *)
Definition pushTask (analysisTypes : list string) (kind idPrefix agent ty : string)
    (repository : Repository) (p : Priority) (descr : string) (now : Z)
    (tasks : list Task) : list Task :=
  if includes "comprehensive" analysisTypes || includes kind analysisTypes
  then tasks ++ [{| id := idPrefix +:+ pretty now;
                    agentId := agent;
                    type := ty;
                    repository := Some repository;
                    priority := p;
                    description := descr |}]
  else tasks.

(** The six clock readings of the one synchronous call are taken as one
    value [now]. *)
Definition createSwarmTasks (now : Z) (repository : Repository)
    (analysisTypes : list string) : list Task :=
  let push := pushTask analysisTypes in
  let tasks := [] in
  let tasks := push "architecture" "arch-" "architect" "architecture-analysis"
                 repository high "Analyze system architecture and design patterns"
                 now tasks in
  let tasks := push "security" "sec-" "security" "security-analysis"
                 repository high "Comprehensive security vulnerability assessment"
                 now tasks in
  let tasks := push "performance" "perf-" "performance" "performance-analysis"
                 repository medium
                 "Performance bottleneck identification and optimization"
                 now tasks in
  let tasks := push "quality" "qual-" "quality" "quality-analysis"
                 repository medium "Code quality assessment and best practices review"
                 now tasks in
  let tasks := push "testing" "test-" "testing" "testing-analysis"
                 repository low "Test coverage analysis and strategy recommendations"
                 now tasks in
  let tasks := push "documentation" "doc-" "documentation" "documentation-analysis"
                 repository low
                 "Documentation completeness and improvement suggestions"
                 now tasks in
  tasks.

(** ** The inference backend *)

(** The text of a prompt is kept symbolic: which builder made it and from
    what. [buildAgentPrompt] reads [agent.prompt] and the task. *)
Inductive Prompt :=
  | buildAgentPrompt (agentPrompt : string) (task : Task)
  | coordinationPrompt (repository : Repository) (combinedAnalysis : string).

(** The arguments of one [this.wrapper.chat(messages, options)] call. *)
Record ChatRequest := {
  content : Prompt;
  req_model : string;
  max_tokens : Z
}.

(** What the awaited value of [chat] looks like to the code that reads it. *)
Inductive Response :=
  (** [success] is truthy and [data.choices[0].message] can be read *)
  | RespOk (messageContent messageReasoning : JsText)
  (** [success] is falsy; [error] is what the response carries *)
  | RespFailed (responseError : JsText)
  (** reading [success] or [data.choices[0].message] throws a [TypeError]
      with this message *)
  | RespMalformed (typeError : string).

(** What a [catch] block catches: an error object, of which the block reads
    [message], or [null] or [undefined], which a promise can be rejected
    with as with any other value. *)
Inductive Caught :=
  | Thrown (message : JsText)
  | ThrownNull
  | ThrownUndefined.

(** A message stands for an error object that carries it. *)
Coercion Thrown : JsText >-> Caught.

Inductive ChatOutcome :=
  | Resolves (response : Response)
  | Rejects (error : Caught).

(** The promise [chat] returns settles [delay] ms after the call, or never. *)
Inductive ChatBehaviour :=
  | Settles (delay : Z) (outcome : ChatOutcome)
  | NeverSettles.

(** What [Promise.race([chat(...), timer])] hands to [executeAgentTask]. *)
Inductive RaceOutcome :=
  | ChatResolved (response : Response)
  | ChatRejected (error : Caught)
  | TimerFired.

(** After how many milliseconds the callback of [setTimeout(callback, delay)]
    is due: Node.js replaces a delay below 1 or above 2^31 - 1 by 1. *)
Definition timerDelay (delay : Z) : Z :=
  if (1 <=? delay) && (delay <=? 2147483647) then delay else 1.

(** The race of lines 263-273: after how many milliseconds it settles, and
    with what. The call wins when it has settled by the time the timer is
    due; after that the timer wins. *)
Definition race (timeout : Z) (b : ChatBehaviour) : Z * RaceOutcome :=
  match b with
  | Settles delay outcome =>
      if delay <=? timerDelay timeout
      then (delay, match outcome with
                   | Resolves r => ChatResolved r
                   | Rejects e => ChatRejected e
                   end)
      else (timerDelay timeout, TimerFired)
  | NeverSettles => (timerDelay timeout, TimerFired)
  end.

(** ** executeAgentTask (lines 250-312) *)

Record TaskResult := {
  taskId : string;
  res_agentId : string;
  res_type : string;
  success : bool;
  result : JsText;
  reasoning : JsText;
  error : JsText;
  executionTime : Z;
  timestamp : Z
}.

(** How the promise of an [async] function ends. *)
Inductive Settled :=
  | FulfilledWith (value : TaskResult)
  | RejectedWith (reason : JsText).

Definition agentNotFound (task : Task) : JsText :=
  Str ("Agent " +:+ agentId task +:+ " not found").

(** The message of the [TypeError] for a property read on [undefined]. *)
Definition readOfUndefined (property : string) : JsText :=
  Str ("Cannot read properties of undefined (reading '" +:+ property +:+ "')").

(** The same for a read on [null]. *)
Definition readOfNull (property : string) : JsText :=
  Str ("Cannot read properties of null (reading '" +:+ property +:+ "')").

Definition activate (now : Z) (a : Agent) : Agent := {|
  agent_id := agent_id a; name := name a; model := model a;
  specialization := specialization a; capabilities := capabilities a;
  prompt := prompt a;
  status := active;
  tasksCompleted := tasksCompleted a;
  averageResponseTime := averageResponseTime a;
  successRate := successRate a;
  lastActive := Some now
|}.

Definition setIdle (a : Agent) : Agent := {|
  agent_id := agent_id a; name := name a; model := model a;
  specialization := specialization a; capabilities := capabilities a;
  prompt := prompt a;
  status := idle;
  tasksCompleted := tasksCompleted a;
  averageResponseTime := averageResponseTime a;
  successRate := successRate a;
  lastActive := lastActive a
|}.

(** Lines 278-280. *)
Definition recordCompletion (executionTime : Z) (a : Agent) : Agent := {|
  agent_id := agent_id a; name := name a; model := model a;
  specialization := specialization a; capabilities := capabilities a;
  prompt := prompt a;
  status := idle;
  tasksCompleted := tasksCompleted a + 1;
  averageResponseTime := round_half (averageResponseTime a + executionTime);
  successRate := successRate a;
  lastActive := lastActive a
|}.

(** Lines 282-284. *)
Definition recordEfficiency (executionTime : Z) (e : AgentEfficiency) : AgentEfficiency := {|
  tasksAssigned := tasksAssigned e;
  eff_tasksCompleted := eff_tasksCompleted e + 1;
  averageTime := round_half (averageTime e + executionTime);
  eff_successRate := eff_successRate e
|}.

(** Line 300. *)
Definition recordAssigned (e : AgentEfficiency) : AgentEfficiency := {|
  tasksAssigned := tasksAssigned e + 1;
  eff_tasksCompleted := eff_tasksCompleted e;
  averageTime := averageTime e;
  eff_successRate := eff_successRate e
|}.

(** Whether every file of the array has a [path]. *)
Definition allHavePath (files : list RepositoryFile) : bool :=
  forallb (λ file, bool_decide (is_Some (path file))) files.

(** [buildRepositoryContext] (lines 911-929) returns a text or throws a
    [TypeError]: [inl] gives the message of the error, [inr] the repository
    the text describes. The template reads [repository.owner] first, which
    throws for a missing repository; [Object.keys] (line 918) throws for
    [stats] without [languages]; the filter of lines 921-926 throws at the
    first file without [path]. *)
Definition buildRepositoryContext (repository : option Repository) : JsText + Repository :=
  match repository with
  | None => inl (readOfUndefined "owner")
  | Some repository =>
      match stats repository with
      | Some {| languages := None |} => inl (Str "Cannot convert undefined or null to object")
      | _ =>
          match files repository with
          | Some files =>
              if allHavePath files then inr repository
              else inl (readOfUndefined "includes")
          | None => inr repository
          end
      end
  end.

(** [this.buildAgentPrompt(agent, task)] (lines 317-419): what it throws
    comes from [buildRepositoryContext] at line 319. *)
Definition callBuildAgentPrompt (agent : Agent) (task : Task) : JsText + Prompt :=
  match buildRepositoryContext (repository task) with
  | inl typeError => inl typeError
  | inr _ => inr (buildAgentPrompt (prompt agent) task)
  end.

(** The part of [executeAgentTask] that runs at the call, up to the race:
    the agent lookup (a miss throws, which rejects the promise), the status
    change, and the prompt of line 261; with the prompt goes the request to
    the backend, and without it the [TypeError] goes to the [catch] block. *)
Definition executeAgentTask_start (now : Z) (task : Task) (sw : Swarm)
    : JsText + Swarm * (JsText + ChatRequest) :=
  match agents sw !! agentId task with
  | None => inl (agentNotFound task)
  | Some agent =>
      inr (set_agents (alter (activate now) (agentId task)) sw,
           match callBuildAgentPrompt agent task with
           | inl typeError => inl typeError
           | inr text => inr {| content := text;
                                req_model := model agent;
                                max_tokens := 2000 |}
           end)
  end.

(** [error.message]: the read throws a [TypeError] on [null] and on
    [undefined] ([inl] gives its message). *)
Definition messageOf (error : Caught) : JsText + JsText :=
  match error with
  | Thrown message => inr message
  | ThrownNull => inl (readOfNull "message")
  | ThrownUndefined => inl (readOfUndefined "message")
  end.

(** The [catch] block (lines 298-311). The increment of line 300 throws in
    its turn when the agent has no efficiency entry, and so does the read of
    [error.message] at line 307 when there is no error object; either
    rejects the promise. *)
Definition executeAgentTask_catch (now startTime : Z) (task : Task)
    (error : Caught) (sw : Swarm) : Swarm * Settled :=
  let sw := set_agents (alter setIdle (agentId task)) sw in
  match agentEfficiency (swarmMetrics sw) !! agentId task with
  | None => (sw, RejectedWith (readOfUndefined "tasksAssigned"))
  | Some _ =>
      let sw := set_agentEfficiency (alter recordAssigned (agentId task)) sw in
      match messageOf error with
      | inl typeError => (sw, RejectedWith typeError)
      | inr message =>
          (sw, FulfilledWith {|
                 taskId := id task;
                 res_agentId := agentId task;
                 res_type := type task;
                 success := false;
                 result := Undefined;
                 reasoning := Undefined;
                 error := message;
                 executionTime := now - startTime;
                 timestamp := now |})
      end
  end.

(** The part of [executeAgentTask] that runs when the race has settled, at
    time [now]: the rest of the [try] block, or the [catch] block. *)
Definition executeAgentTask_settle (now startTime : Z) (task : Task)
    (raced : RaceOutcome) (sw : Swarm) : Swarm * Settled :=
  match raced with
  | ChatResolved response =>
      let executionTime := now - startTime in
      let sw := set_agents (alter (recordCompletion executionTime) (agentId task)) sw in
      match agentEfficiency (swarmMetrics sw) !! agentId task with
      | None => executeAgentTask_catch now startTime task (readOfUndefined "tasksCompleted") sw
      | Some _ =>
          let sw :=
            set_agentEfficiency (alter (recordEfficiency executionTime) (agentId task)) sw in
          match response with
          | RespOk messageContent messageReasoning =>
              (sw, FulfilledWith {|
                     taskId := id task;
                     res_agentId := agentId task;
                     res_type := type task;
                     success := true;
                     result := messageContent;
                     reasoning := messageReasoning;
                     error := Null;
                     executionTime := executionTime;
                     timestamp := now |})
          | RespFailed responseError =>
              (sw, FulfilledWith {|
                     taskId := id task;
                     res_agentId := agentId task;
                     res_type := type task;
                     success := false;
                     result := Null;
                     reasoning := Null;
                     error := responseError;
                     executionTime := executionTime;
                     timestamp := now |})
          | RespMalformed typeError =>
              executeAgentTask_catch now startTime task (Str typeError) sw
          end
      end
  | ChatRejected error => executeAgentTask_catch now startTime task error sw
  | TimerFired => executeAgentTask_catch now startTime task (Str "Task timeout") sw
  end.

(** ** Promises and the event loop

    The class is single-threaded: code runs until it awaits, and a task's
    continuation runs when its race has settled. The state below is what one
    run can observe: the clock, the instance, every promise
    [executeAgentTask] has returned so far (a promise is named by its
    position in [promises]), and the requests sent to the backend.

    Time is counted in whole milliseconds. A continuation runs at the
    instant its race settles, and the timer of a race fires [timerDelay] ms
    after it was set; what the event loop adds to either is left out.
    Continuations due at the same instant run in the order their tasks were
    started. *)

(** A started task whose race has not been handled yet: the race settles at
    [run_due] with [run_raced]. *)
Record Running := {
  run_task : Task;
  run_startTime : Z;
  run_due : Z;
  run_raced : RaceOutcome
}.

Inductive PromiseState :=
  | Pending (r : Running)
  | Done (outcome : Settled).

(** A promise of [executeAgentTask], with the [id] property line 229 hangs
    on it. *)
Record TaskPromise := {
  promise_state : PromiseState;
  promise_id : option string
}.

Record Sim := {
  clock : Z;
  swarm : Swarm;
  promises : list TaskPromise;
  calls : list ChatRequest
}.

(** How an awaited computation ends: with a value, with an exception, or
    never. *)
Inductive Outcome (A : Type) :=
  | Returns (s : Sim) (a : A)
  | Throws (s : Sim) (reason : JsText)
  | Hangs.
Arguments Returns {A} s a.
Arguments Throws {A} s reason.
Arguments Hangs {A}.

Definition due_by (t : Z) (p : TaskPromise) : option Running :=
  match promise_state p with
  | Pending r => if run_due r <=? t then Some r else None
  | Done _ => None
  end.

(** The pending promise whose race settles first among those due by [t]
    (the one started first, when several settle together); [i] is the
    position of the head of [ps]. *)
Fixpoint next_due (i : nat) (t : Z) (ps : list TaskPromise) : option (nat * Running) :=
  match ps with
  | [] => None
  | p :: rest =>
      let later := next_due (S i) t rest in
      match due_by t p with
      | None => later
      | Some r =>
          match later with
          | Some (j, r') => if run_due r' <? run_due r then Some (j, r') else Some (i, r)
          | None => Some (i, r)
          end
      end
  end.

(** The continuation of promise [i] runs: [Date.now()] reads [run_due r]. *)
Definition settle_promise (i : nat) (r : Running) (s : Sim) : Sim :=
  let '(sw, outcome) :=
    executeAgentTask_settle (run_due r) (run_startTime r) (run_task r) (run_raced r)
      (swarm s) in
  {| clock := clock s;
     swarm := sw;
     promises := alter (λ p, {| promise_state := Done outcome;
                                promise_id := promise_id p |}) i (promises s);
     calls := calls s |}.

(** Run, in the order they are due, the continuations due by [t]. *)
Fixpoint flush (fuel : nat) (t : Z) (s : Sim) : Sim :=
  match fuel with
  | O => s
  | S fuel =>
      match next_due 0 t (promises s) with
      | None => s
      | Some (i, r) => flush fuel t (settle_promise i r s)
      end
  end.

(** Time passes until [t] (it never runs backwards). *)
Definition advance (t : Z) (s : Sim) : Sim :=
  let s' := flush (length (promises s)) t s in
  {| clock := Z.max (clock s) t;
     swarm := swarm s';
     promises := promises s';
     calls := calls s' |}.

Definition settledOf (s : Sim) (ref : nat) : option Settled :=
  match promises s !! ref with
  | Some {| promise_state := Done outcome |} => Some outcome
  | _ => None
  end.

Definition dueOf (s : Sim) (ref : nat) : option Z :=
  match promises s !! ref with
  | Some {| promise_state := Pending r |} => Some (run_due r)
  | _ => None
  end.

(** The first promise of the array that has settled already. *)
Fixpoint first_settled (s : Sim) (refs : list nat) : option Settled :=
  match refs with
  | [] => None
  | ref :: rest =>
      match settledOf s ref with
      | Some outcome => Some outcome
      | None => first_settled s rest
      end
  end.

Definition earliest_due (s : Sim) (refs : list nat) : option Z :=
  foldr (λ ref acc, match dueOf s ref, acc with
                    | Some d, Some t => Some (Z.min d t)
                    | Some d, None => Some d
                    | None, _ => acc
                    end) None refs.

Definition latest_due (s : Sim) (refs : list nat) : option Z :=
  foldr (λ ref acc, match dueOf s ref, acc with
                    | Some d, Some t => Some (Z.max d t)
                    | Some d, None => Some d
                    | None, _ => acc
                    end) None refs.

Definition awaited (s : Sim) (outcome : Settled) : Outcome TaskResult :=
  match outcome with
  | FulfilledWith value => Returns s value
  | RejectedWith reason => Throws s reason
  end.

(** [await Promise.race(refs)]: a promise that has settled already wins at
    once, the first of the array if there are several; otherwise time passes
    until the first of them settles. Of an empty array nothing ever
    settles. *)
Definition Promise_race (refs : list nat) (s : Sim) : Outcome TaskResult :=
  match first_settled s refs with
  | Some outcome => awaited s outcome
  | None =>
      match earliest_due s refs with
      | None => Hangs
      | Some t =>
          let s := advance t s in
          match first_settled s refs with
          | Some outcome => awaited s outcome
          | None => Hangs
          end
      end
  end.

(** [await Promise.allSettled(refs)]: time passes until the last of them has
    settled; the outcomes come in the order of the array. *)
Definition Promise_allSettled (refs : list nat) (s : Sim) : Sim * list Settled :=
  let s := match latest_due s refs with
           | Some t => advance t s
           | None => s
           end in
  (s, omap (settledOf s) refs).

(** A JavaScript [Map] keyed by strings, entries in insertion order;
    [Map_set] is [Map.prototype.set]. *)
Fixpoint Map_set {V} (k : string) (v : V) (m : list (string * V)) : list (string * V) :=
  match m with
  | [] => [(k, v)]
  | (k', v') :: rest =>
      if bool_decide (k = k') then (k, v) :: rest else (k', v') :: Map_set k v rest
  end.

Definition Map_values {V} (m : list (string * V)) : list V := m.*2.

(** ** executeSwarmTasks (lines 206-245) *)

(** [{ high: 3, medium: 2, low: 1 }]. *)
Definition priorityRank (p : Priority) : Z :=
  match p with
  | high => 3
  | medium => 2
  | low => 1
  end.

(** The comparator of line 213. *)
Definition comparePriority (a b : Task) : Z :=
  priorityRank (priority b) - priorityRank (priority a).

(** [Array.prototype.sort] is stable; with a consistent comparator its
    result is the one a stable insertion sort computes. *)
Fixpoint insertSorted {A} (cmp : A → A → Z) (x : A) (l : list A) : list A :=
  match l with
  | [] => [x]
  | y :: rest => if cmp x y <=? 0 then x :: y :: rest else y :: insertSorted cmp x rest
  end.

Definition sort {A} (cmp : A → A → Z) (l : list A) : list A :=
  foldr (insertSorted cmp) [] l.

(** [completedTask.id]: the value the race resolves with is the object
    [executeAgentTask] returns, which has a [taskId] and no [id]. *)
Definition completedTask_id (completedTask : TaskResult) : option string := None.

Definition idOfPromise (s : Sim) (ref : nat) : option string :=
  p ← promises s !! ref; promise_id p.

Section Orchestration.

(** The backend: how the [n]-th call of [this.wrapper.chat] (counted from 0)
    behaves on the request it is given. *)
Variable chat : nat → ChatRequest → ChatBehaviour.

(** The call [this.executeAgentTask(task)] at [clock s]: it runs up to the
    race and returns its promise. When the prompt builder throws, the
    [catch] block runs within the call and the promise is settled when it
    is returned. *)
Definition executeAgentTask (task : Task) (s : Sim) : Sim * nat :=
  let taskPromise := length (promises s) in
  match executeAgentTask_start (clock s) task (swarm s) with
  | inl reason =>
      ({| clock := clock s;
          swarm := swarm s;
          promises := promises s ++ [{| promise_state := Done (RejectedWith reason);
                                        promise_id := None |}];
          calls := calls s |},
       taskPromise)
  | inr (sw, inl typeError) =>
      let '(sw, outcome) := executeAgentTask_catch (clock s) (clock s) task typeError sw in
      ({| clock := clock s;
          swarm := sw;
          promises := promises s ++ [{| promise_state := Done outcome;
                                        promise_id := None |}];
          calls := calls s |},
       taskPromise)
  | inr (sw, inr request) =>
      let '(elapsed, raced) :=
        race (taskTimeout (config sw)) (chat (length (calls s)) request) in
      ({| clock := clock s;
          swarm := sw;
          promises := promises s ++ [{| promise_state :=
                                          Pending {| run_task := task;
                                                     run_startTime := clock s;
                                                     run_due := clock s + elapsed;
                                                     run_raced := raced |};
                                        promise_id := None |}];
          calls := calls s ++ [request] |},
       taskPromise)
  end.

(** [taskPromise.id = task.id]. *)
Definition setPromiseId (ref : nat) (taskId : string) (s : Sim) : Sim :=
  {| clock := clock s;
     swarm := swarm s;
     promises := alter (λ p, {| promise_state := promise_state p;
                                promise_id := Some taskId |}) ref (promises s);
     calls := calls s |}.

(** One turn of the loop of lines 219-231 on the array [activeTasks]. *)
Definition loopTurn (task : Task) (s : Sim) (activeTasks : list nat) : Outcome (list nat) :=
  let waited :=
    if Z.of_nat (length activeTasks) >=? maxConcurrentAgents (config (swarm s))
    then match Promise_race activeTasks s with
         | Returns s completedTask =>
             let index :=
               findIndex (λ t, bool_decide (idOfPromise s t = completedTask_id completedTask))
                 activeTasks in
             Returns s (splice1 index activeTasks)
         | Throws s reason => Throws s reason
         | Hangs => Hangs
         end
    else Returns s activeTasks in
  match waited with
  | Returns s activeTasks =>
      let '(s, taskPromise) := executeAgentTask task s in
      let s := setPromiseId taskPromise (id task) s in
      Returns s (activeTasks ++ [taskPromise])
  | other => other
  end.

Fixpoint loopOver (tasks : list Task) (s : Sim) (activeTasks : list nat)
    : Outcome (list nat) :=
  match tasks with
  | [] => Returns s activeTasks
  | task :: rest =>
      match loopTurn task s activeTasks with
      | Returns s activeTasks => loopOver rest s activeTasks
      | other => other
      end
  end.

(** Lines 236-242: the fulfilled values go into the map under their
    [taskId]; a rejection is only logged. *)
Definition collect (results : list (string * TaskResult)) (outcome : Settled)
    : list (string * TaskResult) :=
  match outcome with
  | FulfilledWith value => Map_set (taskId value) value results
  | RejectedWith _ => results
  end.

Definition executeSwarmTasks (tasks : list Task) (s : Sim)
    : Outcome (list (string * TaskResult)) :=
  let tasks := sort comparePriority tasks in
  match loopOver tasks s [] with
  | Returns s activeTasks =>
      let '(s, finalResults) := Promise_allSettled activeTasks s in
      Returns s (foldl collect [] finalResults)
  | Throws s reason => Throws s reason
  | Hangs => Hangs
  end.

End Orchestration.

(** ** coordinateResults (lines 424-487) *)

Record CoordinatedResult := {
  summary : JsText;
  recommendations : option (list string);
  co_reasoning : option JsText;
  agentContributions : option Z;
  analysisTypes : option (list string);
  confidence : string;
  co_timestamp : option Z;
  note : option string
}.

Definition newline : string := String (ascii_of_N 10) EmptyString.

(** Line 425. *)
Definition successfulResults (results : list (string * TaskResult)) : list TaskResult :=
  List.filter success (Map_values results).

(** Line 436. *)
Definition combineAnalysis (successful : list TaskResult) : string :=
  String.concat (newline +:+ newline)
    (map (λ r, "**" +:+ toUpperCase (res_type r) +:+ "**:" +:+ newline
               +:+ interpolate (result r)) successful).

(** Lines 428-432. *)
Definition degradedResult : CoordinatedResult := {|
  summary := Str "Swarm analysis failed - no agents completed successfully";
  recommendations := Some [];
  co_reasoning := None;
  agentContributions := None;
  analysisTypes := None;
  confidence := "low";
  co_timestamp := None;
  note := None
|}.

(** Line 471. *)
Definition confidenceOf (successes : Z) : string :=
  if successes >=? 4 then "high" else if successes >=? 2 then "medium" else "low".

(** Lines 466-473. *)
Definition synthesizedResult (messageContent messageReasoning : JsText)
    (successful : list TaskResult) (now : Z) : CoordinatedResult := {|
  summary := messageContent;
  recommendations := None;
  co_reasoning := Some messageReasoning;
  agentContributions := Some (Z.of_nat (length successful));
  analysisTypes := Some (map res_type successful);
  confidence := confidenceOf (Z.of_nat (length successful));
  co_timestamp := Some now;
  note := None
|}.

(** Lines 480-486. *)
Definition fallbackResult (successful : list TaskResult) : CoordinatedResult := {|
  summary :=
    Str "Multiple specialized analyses completed. Individual agent results available.";
  recommendations := None;
  co_reasoning := None;
  agentContributions := Some (Z.of_nat (length successful));
  analysisTypes := Some (map res_type successful);
  confidence := "medium";
  co_timestamp := None;
  note := Some "Coordination synthesis failed, but individual analyses succeeded"
|}.

Definition logCall (request : ChatRequest) (s : Sim) : Sim :=
  {| clock := clock s;
     swarm := swarm s;
     promises := promises s;
     calls := calls s ++ [request] |}.

(** ** Swarm totals (lines 931-951) *)

(** [updateSwarmMetrics]. *)
Definition updateSwarmMetrics (results : list (string * TaskResult)) (sw : Swarm) : Swarm :=
  let values := Map_values results in
  let completed := List.filter success values in
  let failed := List.filter (λ r, negb (success r)) values in
  let m := swarmMetrics sw in
  {| config := config sw;
     agents := agents sw;
     swarmMetrics := {|
       totalTasks := totalTasks m + Z.of_nat (length results);
       completedTasks := completedTasks m + Z.of_nat (length completed);
       failedTasks := failedTasks m + Z.of_nat (length failed);
       averageTaskTime :=
         if Z.of_nat (length completed) >? 0
         then round_div (foldl (λ sum task, sum + executionTime task) 0 completed)
                        (Z.of_nat (length completed))
         else averageTaskTime m;
       agentEfficiency := agentEfficiency m |} |}.

(** The object [getSwarmMetrics] returns, without [swarmEfficiency] (a
    floating-point percentage no property below reads). *)
Record MetricsSnapshot := {
  snap_metrics : SwarmMetrics;
  snap_agents : gmap string Agent;
  activeAgents : Z;
  totalAgents : Z
}.

Definition isActive (a : Agent) : bool :=
  match status a with
  | active => true
  | idle => false
  end.

Definition getSwarmMetrics (sw : Swarm) : MetricsSnapshot := {|
  snap_metrics := swarmMetrics sw;
  snap_agents := agents sw;
  activeAgents := Z.of_nat (length (List.filter isActive (map_to_list (agents sw)).*2));
  totalAgents := Z.of_nat (size (agents sw))
|}.

(** ** analyzeRepositorySwarm (lines 103-120) *)

Record SwarmRun := {
  run_repository : string;
  swarmAnalysis : CoordinatedResult;
  individualResults : list (string * TaskResult);
  run_swarmMetrics : MetricsSnapshot;
  run_timestamp : Z
}.

(** The request of lines 455-463. *)
Definition coordinationRequest (repository : Repository) (successful : list TaskResult)
    (s : Sim) : ChatRequest :=
  {| content := coordinationPrompt repository (combineAnalysis successful);
     req_model := coordinationModel (config (swarm s));
     max_tokens := 1500 |}.

Section Coordination.

Variable chat : nat → ChatRequest → ChatBehaviour.

(** The synthesis call is awaited without a timer: while it is pending the
    coordinator waits, and continuations of tasks that are still running
    get their turn. *)
Definition coordinateResults (results : list (string * TaskResult))
    (repository : Repository) (s : Sim) : Outcome CoordinatedResult :=
  let successful := successfulResults results in
  if bool_decide (length successful = 0%nat) then Returns s degradedResult
  else
    let request := coordinationRequest repository successful s in
    match chat (length (calls s)) request with
    | NeverSettles => Hangs
    | Settles delay outcome =>
        let s := advance (clock s + delay) (logCall request s) in
        match outcome with
        | Resolves (RespOk messageContent messageReasoning) =>
            Returns s (synthesizedResult messageContent messageReasoning successful (clock s))
        | Resolves (RespFailed _) | Resolves (RespMalformed _) | Rejects _ =>
            Returns s (fallbackResult successful)
        end
    end.

Definition setSwarm (sw : Swarm) (s : Sim) : Sim :=
  {| clock := clock s; swarm := sw; promises := promises s; calls := calls s |}.

(** [analysisTypes] is [None] when the caller leaves the argument out. *)
Definition analyzeRepositorySwarm (repository : Repository)
    (analysisTypes : option (list string)) (s : Sim) : Outcome SwarmRun :=
  let analysisTypes := default ["comprehensive"] analysisTypes in
  let swarmTasks := createSwarmTasks (clock s) repository analysisTypes in
  match executeSwarmTasks chat swarmTasks s with
  | Returns s results =>
      match coordinateResults results repository s with
      | Returns s coordinatedResult =>
          let s := setSwarm (updateSwarmMetrics results (swarm s)) s in
          Returns s {| run_repository := owner repository +:+ "/" +:+ repo repository;
                       swarmAnalysis := coordinatedResult;
                       individualResults := results;
                       run_swarmMetrics := getSwarmMetrics (swarm s);
                       run_timestamp := clock s |}
      | Throws s reason => Throws s reason
      | Hangs => Hangs
      end
  | Throws s reason => Throws s reason
  | Hangs => Hangs
  end.

End Coordination.

(** A fresh instance at time [now], before any call. *)
Definition freshSim (userConfig : UserConfig) (now : Z) : Sim :=
  {| clock := now; swarm := newSwarm userConfig; promises := []; calls := [] |}.

(** ** Backends and inputs used in the examples *)

Definition demoRepository : Repository :=
  {| owner := "octocat"; repo := "hello-world"; files := None; stats := None |}.

(** [{ maxConcurrentAgents: 2 }]. *)
Definition twoAtATime : UserConfig := {|
  user_maxConcurrentAgents := Some 2;
  user_taskTimeout := None;
  user_retryAttempts := None;
  user_coordinationModel := None
|}.

Definition answer (text : string) : ChatOutcome := Resolves (RespOk (Str text) Undefined).

(** Every call is answered after 50 ms. *)
Definition answeringBackend : nat → ChatRequest → ChatBehaviour :=
  λ _ _, Settles 50 (answer "done").

(** No call is ever answered. *)
Definition hangingBackend : nat → ChatRequest → ChatBehaviour :=
  λ _ _, NeverSettles.

(** Every call fails after 5 ms, with an error whose message is
    "Task timeout". *)
Definition rejectingBackend : nat → ChatRequest → ChatBehaviour :=
  λ _ _, Settles 5 (Rejects (Str "Task timeout")).

(** The fourth call is answered with an unsuccessful response and the
    seventh fails; the others are answered. *)
Definition flakyBackend : nat → ChatRequest → ChatBehaviour :=
  λ n _, match n with
         | 3%nat => Settles 50 (Resolves (RespFailed (Str "rate limited")))
         | 6%nat => Settles 50 (Rejects (Str "service unavailable"))
         | _ => Settles 50 (answer "done")
         end.

(** As [flakyBackend], with the seventh call answered too. *)
Definition mostlyAnsweringBackend : nat → ChatRequest → ChatBehaviour :=
  λ n _, match n with
         | 3%nat => Settles 50 (Resolves (RespFailed (Str "rate limited")))
         | _ => Settles 50 (answer "done")
         end.

(** The first call is answered after 10 ms, the sixth after 5 ms, the
    others after 100 ms. *)
Definition unevenBackend : nat → ChatRequest → ChatBehaviour :=
  λ n _, match n with
         | 0%nat => Settles 10 (answer "done")
         | 5%nat => Settles 5 (answer "done")
         | _ => Settles 100 (answer "done")
         end.

Definition architectureTask : Task := {|
  id := "arch-0";
  agentId := "architect";
  type := "architecture-analysis";
  repository := Some demoRepository;
  priority := high;
  description := "Analyze system architecture and design patterns"
|}.

(** The six results of a comprehensive run against [flakyBackend]: five
    successes and one failure. *)
Definition fiveOfSix : list (string * TaskResult) :=
  match executeSwarmTasks flakyBackend
          (createSwarmTasks 0 demoRepository ["comprehensive"]) (freshSim defaultConfig 0) with
  | Returns _ results => results
  | _ => []
  end.

(** The six results of a comprehensive run against [rejectingBackend]: six
    failures. *)
Definition sixFailures : list (string * TaskResult) :=
  match executeSwarmTasks rejectingBackend
          (createSwarmTasks 0 demoRepository ["comprehensive"]) (freshSim defaultConfig 0) with
  | Returns _ results => results
  | _ => []
  end.

(** The state the run against [flakyBackend] leaves behind. *)
Definition afterFiveOfSix : Sim :=
  match executeSwarmTasks flakyBackend
          (createSwarmTasks 0 demoRepository ["comprehensive"]) (freshSim defaultConfig 0) with
  | Returns s _ => s
  | _ => freshSim defaultConfig 0
  end.

Definition synthesisSucceeded (reply : ChatBehaviour) : bool :=
  match reply with
  | Settles _ (Resolves (RespOk _ _)) => true
  | _ => false
  end.

(** ** What one task changes *)

(** The agent record after the continuation of a task has run. *)
Definition agentAfter (executionTime : Z) (raced : RaceOutcome) (a : Agent) : Agent :=
  match raced with
  | ChatResolved _ => recordCompletion executionTime a
  | ChatRejected _ | TimerFired => setIdle a
  end.

(** The agent's efficiency entry after it. *)
Definition efficiencyAfter (executionTime : Z) (raced : RaceOutcome) (e : AgentEfficiency)
    : AgentEfficiency :=
  match raced with
  | ChatResolved (RespMalformed _) => recordAssigned (recordEfficiency executionTime e)
  | ChatResolved _ => recordEfficiency executionTime e
  | ChatRejected _ | TimerFired => recordAssigned e
  end.

Definition isMalformed (response : Response) : bool :=
  match response with
  | RespMalformed _ => true
  | _ => false
  end.

(** The inference call has not settled [timeout] ms after it was made. *)
Definition slowerThan (timeout : Z) (b : ChatBehaviour) : Prop :=
  match b with
  | Settles delay _ => timeout < delay
  | NeverSettles => True
  end.

(** The request [executeAgentTask] sends for [task] on behalf of [agent]. *)
Definition agentRequest (agent : Agent) (task : Task) : ChatRequest :=
  {| content := buildAgentPrompt (prompt agent) task;
     req_model := model agent;
     max_tokens := 2000 |}.

(** The record the [catch] block returns. *)
Definition failedResult (now startTime : Z) (task : Task) (message : JsText) : TaskResult := {|
  taskId := id task;
  res_agentId := agentId task;
  res_type := type task;
  success := false;
  result := Undefined;
  reasoning := Undefined;
  error := message;
  executionTime := now - startTime;
  timestamp := now
|}.

(** The steps by which the instance changes: a task starts, the
    continuation of a task runs, the totals of a run are added. *)
Inductive step : Swarm → Swarm → Prop :=
  | step_start now task sw sw' request :
      executeAgentTask_start now task sw = inr (sw', request) → step sw sw'
  | step_settle now startTime task raced sw :
      step sw (executeAgentTask_settle now startTime task raced sw).1
  | step_totals results sw :
      step sw (updateSwarmMetrics results sw).

Inductive reachable (userConfig : UserConfig) : Swarm → Prop :=
  | reachable_new : reachable userConfig (newSwarm userConfig)
  | reachable_step sw sw' :
      reachable userConfig sw → step sw sw' → reachable userConfig sw'.

(** The success rate as the specification words it:
    [completed / (completed + failed) * 100], and 100 when no task has run;
    written without the division. *)
Definition specSuccessRate (rate completed failed : Z) : Prop :=
  if completed + failed =? 0 then rate = 100
  else rate * (completed + failed) = completed * 100.

(** The running blend of a sequence of execution times, from 0. *)
Definition blend (executionTimes : list Z) : Z :=
  foldl (λ average executionTime, round_half (average + executionTime)) 0 executionTimes.

(** The continuation of a task of [task]'s agent whose call resolved: [run]
    gives the time it runs at, the time the task started and the
    response. *)
Definition settleResolved (task : Task) (sw : Swarm) (run : Z * Z * Response) : Swarm :=
  let '(now, startTime, response) := run in
  (executeAgentTask_settle now startTime task (ChatResolved response) sw).1.

Definition executionTimeOf (run : Z * Z * Response) : Z :=
  let '(now, startTime, _) := run in now - startTime.

(** Three answered calls that took 100, 200 and 300 ms. *)
Definition threeRuns : list (Z * Z * Response) :=
  [(100, 0, RespOk (Str "done") Undefined);
   (300, 100, RespOk (Str "done") Undefined);
   (600, 300, RespOk (Str "done") Undefined)].

(** Where a computation leaves the simulation, if it ends. *)
Definition finalSim {A} (o : Outcome A) : option Sim :=
  match o with
  | Returns s _ | Throws s _ => Some s
  | Hangs => None
  end.

(** ** Observing a run *)

(** The kinds [createSwarmTasks] looks for. *)
Definition knownKinds : list string :=
  ["comprehensive"; "architecture"; "security"; "performance"; "quality"; "testing";
   "documentation"].

(** The task of a promise whose race settles after the present instant. *)
Definition runningTask (s : Sim) (p : TaskPromise) : option Task :=
  match promise_state p with
  | Pending r => if clock s <? run_due r then Some (run_task r) else None
  | Done _ => None
  end.

(** The tasks that are in flight at the present instant: started, and not
    terminated yet. *)
Definition inFlight (s : Sim) : list Task := omap (runningTask s) (promises s).

Section Admissions.

Variable chat : nat → ChatRequest → ChatBehaviour.

(** The states of the loop of [executeSwarmTasks], each taken right after a
    task was admitted. *)
Fixpoint admissions (tasks : list Task) (s : Sim) (activeTasks : list nat) : list Sim :=
  match tasks with
  | [] => []
  | task :: rest =>
      match loopTurn chat task s activeTasks with
      | Returns s activeTasks => s :: admissions rest s activeTasks
      | _ => []
      end
  end.

End Admissions.

(** ** The executor under its ceiling *)

(** The race has not ended with a rejection by [null] or [undefined]: what
    the [catch] block catches, if it runs, has a [message] to read. *)
Definition readable (raced : RaceOutcome) : Prop :=
  match raced with
  | ChatRejected ThrownNull | ChatRejected ThrownUndefined => False
  | _ => True
  end.

(** No call of the backend is rejected with [null] or [undefined]. *)
Definition readableBackend {Request} (chat : nat → Request → ChatBehaviour) : Prop :=
  ∀ n request delay error,
    chat n request = Settles delay (Rejects error) → ∃ message, error = Thrown message.

(** The message the [catch] block copies, where there is one. *)
Definition caughtMessage (error : Caught) : JsText :=
  match error with
  | Thrown message => message
  | ThrownNull | ThrownUndefined => Undefined
  end.

(** The record the continuation of a task returns when the agent has its
    efficiency entry and the race is [readable]. *)
Definition settledResult (now startTime : Z) (task : Task) (raced : RaceOutcome) : TaskResult :=
  match raced with
  | ChatResolved (RespOk messageContent messageReasoning) =>
      {| taskId := id task;
         res_agentId := agentId task;
         res_type := type task;
         success := true;
         result := messageContent;
         reasoning := messageReasoning;
         error := Null;
         executionTime := now - startTime;
         timestamp := now |}
  | ChatResolved (RespFailed responseError) =>
      {| taskId := id task;
         res_agentId := agentId task;
         res_type := type task;
         success := false;
         result := Null;
         reasoning := Null;
         error := responseError;
         executionTime := now - startTime;
         timestamp := now |}
  | ChatResolved (RespMalformed typeError) => failedResult now startTime task (Str typeError)
  | ChatRejected error => failedResult now startTime task (caughtMessage error)
  | TimerFired => failedResult now startTime task (Str "Task timeout")
  end.

(** How the continuation of a task settles the promise when the agent has
    its efficiency entry. *)
Definition settledOutcome (now startTime : Z) (task : Task) (raced : RaceOutcome) : Settled :=
  match raced with
  | ChatRejected ThrownNull => RejectedWith (readOfNull "message")
  | ChatRejected ThrownUndefined => RejectedWith (readOfUndefined "message")
  | _ => FulfilledWith (settledResult now startTime task raced)
  end.

(** A promise once the continuations due by [t] have run. *)
Definition settleBy (t : Z) (p : TaskPromise) : TaskPromise :=
  match promise_state p with
  | Pending r =>
      if run_due r <=? t
      then {| promise_state :=
                Done (settledOutcome (run_due r) (run_startTime r) (run_task r) (run_raced r));
              promise_id := promise_id p |}
      else p
  | Done _ => p
  end.

Definition isDue (t : Z) (p : TaskPromise) : bool :=
  match due_by t p with
  | Some _ => true
  | None => false
  end.

(** Every running task belongs to an agent with an efficiency entry. *)
Definition efficiencyKnown (s : Sim) : Prop :=
  ∀ p r, p ∈ promises s → promise_state p = Pending r →
         is_Some (agentEfficiency (swarmMetrics (swarm s)) !! agentId (run_task r)).

(** How many continuations are due by [t]. *)
Definition pendingDue (t : Z) (ps : list TaskPromise) : nat :=
  length (List.filter (isDue t) ps).

(** The agent of [task] is in [this.agents] and has its efficiency entry. *)
Definition registered (sw : Swarm) (task : Task) : Prop :=
  is_Some (agents sw !! agentId task) ∧
  is_Some (agentEfficiency (swarmMetrics sw) !! agentId task).

(** Lines 228-229: the task is started and its promise named. *)
Definition startTask (chat : nat → ChatRequest → ChatBehaviour) (task : Task) (s : Sim) : Sim :=
  let '(s1, taskPromise) := executeAgentTask chat task s in
  setPromiseId taskPromise (id task) s1.

(** The promise of a running task, once line 229 has named it. *)
Definition promiseOf (r : Running) : TaskPromise :=
  {| promise_state := Pending r; promise_id := Some (id (run_task r)) |}.

(** The result the continuation of a running task returns. *)
Definition resultOf (r : Running) : TaskResult :=
  settledResult (run_due r) (run_startTime r) (run_task r) (run_raced r).

Definition isDone (p : TaskPromise) : Prop := ∃ outcome, promise_state p = Done outcome.

(** The entry of the results map that belongs to [task]. *)
Definition resultFor (task : Task) (entry : string * TaskResult) : Prop :=
  entry.1 = id task ∧
  taskId entry.2 = id task ∧
  res_agentId entry.2 = agentId task ∧
  res_type entry.2 = type task.

(** ** Priorities *)

(** The tasks of priority [p], in the order of the list. *)
Definition withPriority (p : Priority) (tasks : list Task) : list Task :=
  List.filter (λ task, priorityRank (priority task) =? priorityRank p) tasks.

(** ** Tasks of unknown agents *)

(** The promise of a running task once its continuation has run. *)
Definition fulfilledOf (r : Running) : TaskPromise :=
  {| promise_state := Done (FulfilledWith (resultOf r));
     promise_id := Some (id (run_task r)) |}.

(** The prompt of [task] can be built. *)
Definition promptable (task : Task) : bool :=
  match buildRepositoryContext (repository task) with
  | inl _ => false
  | inr _ => true
  end.

(** The task whose prompt a request carries. *)
Definition requestedTask (request : ChatRequest) : option Task :=
  match content request with
  | buildAgentPrompt _ task => Some task
  | coordinationPrompt _ _ => None
  end.

(** How the executor's call of [executeAgentTask] went for a task: the
    agent was missing and the promise was rejected at once; or the prompt
    builder threw and the [catch] block fulfilled the promise within the
    call, which is described as a task whose race ended at the start with
    the error thrown; or the task runs. *)
Inductive Started :=
  | NoAgent (task : Task)
  | NoPrompt (r : Running)
  | Run (r : Running).

Definition startedTask (st : Started) : Task :=
  match st with
  | NoAgent task => task
  | NoPrompt r | Run r => run_task r
  end.

Definition startedPromise (st : Started) : TaskPromise :=
  match st with
  | NoAgent task =>
      {| promise_state := Done (RejectedWith (agentNotFound task));
         promise_id := Some (id task) |}
  | NoPrompt r => fulfilledOf r
  | Run r => promiseOf r
  end.

Definition startedOutcome (st : Started) : Settled :=
  match st with
  | NoAgent task => RejectedWith (agentNotFound task)
  | NoPrompt r | Run r => FulfilledWith (resultOf r)
  end.

Definition startedRun (st : Started) : option Running :=
  match st with
  | NoAgent _ => None
  | NoPrompt r | Run r => Some r
  end.

(** [this.agents.get(task.agentId)] finds an agent. *)
Definition knownAgent (sw : Swarm) (task : Task) : bool :=
  bool_decide (is_Some (agents sw !! agentId task)).

(** The entry [results.set(result.value.taskId, result.value)] makes for a
    task that has run. *)
Definition entryOf (r : Running) : string * TaskResult := (taskId (resultOf r), resultOf r).

(** What is known of a started task from the state [s] it was started in. *)
Definition startedIn (s : Sim) (st : Started) : Prop :=
  match st with
  | NoAgent task => agents (swarm s) !! agentId task = None
  | NoPrompt r =>
      is_Some (agents (swarm s) !! agentId (run_task r)) ∧
      (∃ typeError, buildRepositoryContext (repository (run_task r)) = inl typeError ∧
                    run_raced r = ChatRejected (Thrown typeError)) ∧
      run_startTime r = clock s ∧
      run_due r = clock s
  | Run r =>
      is_Some (agents (swarm s) !! agentId (run_task r)) ∧
      promptable (run_task r) = true ∧
      run_startTime r = clock s ∧
      run_due r ≤ clock s + timerDelay (taskTimeout (config (swarm s)))
  end.

(** The race of a started task is [readable]. *)
Definition startedReadable (st : Started) : Prop :=
  match st with
  | NoAgent _ => True
  | NoPrompt r | Run r => readable (run_raced r)
  end.

(** If the agent of [task] is in [this.agents], it has its efficiency
    entry. *)
Definition hasEntryIfKnown (sw : Swarm) (task : Task) : Prop :=
  is_Some (agents sw !! agentId task) →
  is_Some (agentEfficiency (swarmMetrics sw) !! agentId task).

(** [executeAgentTask] sends a request for [task]: the agent exists and the
    prompt can be built. *)
Definition sends (sw : Swarm) (task : Task) : bool :=
  knownAgent sw task && promptable task.

(** The result of a task whose prompt cannot be built is a failure that
    carries the message of the [TypeError]. *)
Definition failsWithoutPrompt (task : Task) (entry : string * TaskResult) : Prop :=
  promptable task = false →
  success entry.2 = false ∧
  buildRepositoryContext (repository task) = inl (error entry.2).

(** ** The registry *)

(** Two agent records describe the same agent: they differ at most in
    status and counters. *)
Definition sameIdentity (a b : Agent) : Prop :=
  agent_id a = agent_id b ∧
  name a = name b ∧
  model a = model b ∧
  specialization a = specialization b ∧
  capabilities a = capabilities b ∧
  prompt a = prompt b.

(** The registry of [sw] is the one [initializeAgents] built: for every id,
    the agent of a definition with that id, or nothing when no definition
    has it; and the efficiency entries are those of the agents. *)
Definition registryIntact (sw : Swarm) : Prop :=
  ∀ k,
    match agents sw !! k with
    | Some a => ∃ definition, (k, definition) ∈ agentDefinitions ∧
                              sameIdentity a (newAgent k definition)
    | None => k ∉ agentDefinitions.*1
    end ∧
    (is_Some (agentEfficiency (swarmMetrics sw) !! k) ↔ is_Some (agents sw !! k)).

(** ** The array of the loop *)

(** The promise [p] belongs to [task]: it carries the task's id, and what
    it is or will be fulfilled with is a result of that task. *)
Definition madeFor (task : Task) (p : TaskPromise) : Prop :=
  promise_id p = Some (id task) ∧
  match promise_state p with
  | Pending r => run_task r = task
  | Done (FulfilledWith value) => taskId value = id task
  | Done (RejectedWith _) => True
  end.

(** The promises from position [n0] on are those of [tasks], in order. *)
Definition heapFor (n0 : nat) (tasks : list Task) (s : Sim) : Prop :=
  length (promises s) = (n0 + length tasks)%nat ∧
  ∀ i task, tasks !! i = Some task →
            ∃ p, promises s !! (n0 + i)%nat = Some p ∧ madeFor task p.

(** The array [activeTasks] after [k] turns of the loop, under a ceiling
    of [ceiling] promises, when the first promise of the run is at
    position [n0]. *)
Definition arrayAfter (ceiling n0 k : nat) : list nat :=
  if decide (k ≤ ceiling)%nat then seq n0 k
  else seq n0 (ceiling - 1) ++ [(n0 + k - 1)%nat].

(** ** The heap of a run *)

(** The promise of the running task [r], before or after its continuation
    has run. *)
Definition slot (r : Running) (p : TaskPromise) : Prop :=
  p = promiseOf r ∨ p = fulfilledOf r.

(** The heap during a run of the executor that found the promises [old]
    and has started [runs] since. *)
Definition loopHeap (old : list TaskPromise) (runs : list Running) (s : Sim) : Prop :=
  efficiencyKnown s ∧
  Forall (λ r, readable (run_raced r)) runs ∧
  ∃ ps, promises s = old ++ ps ∧ Forall2 slot runs ps.

(** The references of the promises a run has made. *)
Definition ofRun (old : list TaskPromise) (runs : list Running) (refs : list nat) : Prop :=
  Forall (λ ref, (length old ≤ ref < length old + length runs)%nat) refs.

(** ** resetSwarm (lines 989-1020) *)

(** Lines 994-999: the state and the counters of an agent; [lastActive]
    stays. *)
Definition resetAgent (a : Agent) : Agent := {|
  agent_id := agent_id a; name := name a; model := model a;
  specialization := specialization a; capabilities := capabilities a;
  prompt := prompt a;
  status := idle;
  tasksCompleted := 0;
  averageResponseTime := 0;
  successRate := 100;
  lastActive := lastActive a
|}.

(** [Object.keys(this.agents.keys())] of line 1010: [keys()] returns an
    iterator object, and an iterator has no own enumerable property,
    whatever the map holds. *)
Definition Object_keys_of_iterator (agents : gmap string Agent) : list string := [].

(** [this.activeTasks], which line 991 clears, is written nowhere in the
    class; the instance does not carry it. *)
Definition resetSwarm (sw : Swarm) : Swarm := {|
  config := config sw;
  agents := resetAgent <$> agents sw;
  swarmMetrics := {|
    totalTasks := 0;
    completedTasks := 0;
    failedTasks := 0;
    averageTaskTime := 0;
    agentEfficiency :=
      foldl (λ table agentId, <[agentId := newEfficiency]> table) ∅
        (Object_keys_of_iterator (agents sw)) |}
|}.

(** An agent record without the time of its last activation. *)
Definition forgetLastActive (a : Agent) : Agent := {|
  agent_id := agent_id a; name := name a; model := model a;
  specialization := specialization a; capabilities := capabilities a;
  prompt := prompt a;
  status := status a;
  tasksCompleted := tasksCompleted a;
  averageResponseTime := averageResponseTime a;
  successRate := successRate a;
  lastActive := None
|}.

(** ** Tasks without efficiency entries *)

(** A promise once the continuations due by [t] have run, on an instance
    without efficiency entries: line 300 throws in the [catch] block. *)
Definition rejectBy (t : Z) (p : TaskPromise) : TaskPromise :=
  match promise_state p with
  | Pending r =>
      if run_due r <=? t
      then {| promise_state := Done (RejectedWith (readOfUndefined "tasksAssigned"));
              promise_id := promise_id p |}
      else p
  | Done _ => p
  end.

Definition noEfficiency (s : Sim) : Prop :=
  agentEfficiency (swarmMetrics (swarm s)) = ∅.

Definition notFulfilled (p : TaskPromise) : Prop :=
  match promise_state p with
  | Done (FulfilledWith _) => False
  | _ => True
  end.

Definition isRejection (outcome : Settled) : Prop :=
  ∃ reason, outcome = RejectedWith reason.

(** The instance after [await this.resetSwarm()]. *)
Definition afterReset (s : Sim) : Sim := setSwarm (resetSwarm (swarm s)) s.

(** ** Advanced intelligence (lines 628-907) *)

(** The prompts of the advanced analyses, symbolic like [Prompt]: the four
    builders of lines 755-833, the summary prompt of lines 849-864, and a
    prompt [buildAgentPrompt] made. *)
Inductive IntelligencePrompt :=
  | buildPatternDetectionPrompt (repository : Repository)
  | buildTechnicalDebtPrompt (repository : Repository)
  | buildArchitectureEvolutionPrompt (repository : Repository)
  | buildRefactoringPrompt (repository : Repository)
  | summaryPrompt (repository : Repository) (combinedInsights : string)
  | agentPrompt (text : Prompt).

(** The arguments of a [this.wrapper.chat(messages, options)] call of the
    advanced analyses. *)
Record IntelligenceRequest := {
  intel_content : IntelligencePrompt;
  intel_model : string;
  intel_max_tokens : Z
}.

(** A task object with the [specialPrompt] property; [None] when it is
    missing. *)
Record AdvancedTask := {
  adv_task : Task;
  specialPrompt : option IntelligencePrompt
}.

(** What a run of the advanced analyses can observe: the clock, the
    instance and the requests it has sent. No task of [executeSwarmTasks]
    is in flight during the run. *)
Record Intel := {
  intel_clock : Z;
  intel_swarm : Swarm;
  intel_calls : list IntelligenceRequest
}.

(** Line 705: [task.specialPrompt || this.buildAgentPrompt(agent, task)]. *)
Definition advancedPrompt (agent : Agent) (task : AdvancedTask) : JsText + IntelligencePrompt :=
  match specialPrompt task with
  | Some text => inr text
  | None =>
      match callBuildAgentPrompt agent (adv_task task) with
      | inl typeError => inl typeError
      | inr text => inr (agentPrompt text)
      end
  end.

(** The part of [executeAdvancedTask] that runs at the call, up to the
    race (lines 694-706). *)
Definition executeAdvancedTask_start (now : Z) (task : AdvancedTask) (sw : Swarm)
    : JsText + Swarm * (JsText + IntelligenceRequest) :=
  match agents sw !! agentId (adv_task task) with
  | None => inl (agentNotFound (adv_task task))
  | Some agent =>
      inr (set_agents (alter (activate now) (agentId (adv_task task))) sw,
           match advancedPrompt agent task with
           | inl typeError => inl typeError
           | inr text => inr {| intel_content := text;
                                intel_model := model agent;
                                intel_max_tokens := 3000 |}
           end)
  end.

(** The [catch] block (lines 738-749): it has no line for the efficiency
    entries; the read of [error.message] at line 745 throws when there is
    no error object, which rejects the promise. *)
Definition executeAdvancedTask_catch (now startTime : Z) (task : Task)
    (error : Caught) (sw : Swarm) : Swarm * Settled :=
  let sw := set_agents (alter setIdle (agentId task)) sw in
  match messageOf error with
  | inl typeError => (sw, RejectedWith typeError)
  | inr message =>
      (sw, FulfilledWith {|
             taskId := id task;
             res_agentId := agentId task;
             res_type := type task;
             success := false;
             result := Undefined;
             reasoning := Undefined;
             error := message;
             executionTime := now - startTime;
             timestamp := now |})
  end.

(** The part of [executeAdvancedTask] that runs when the race has settled,
    at time [now] (lines 719-749). *)
Definition executeAdvancedTask_settle (now startTime : Z) (task : Task)
    (raced : RaceOutcome) (sw : Swarm) : Swarm * Settled :=
  match raced with
  | ChatResolved response =>
      let executionTime := now - startTime in
      let sw := set_agents (alter (recordCompletion executionTime) (agentId task)) sw in
      match response with
      | RespOk messageContent messageReasoning =>
          (sw, FulfilledWith {|
                 taskId := id task;
                 res_agentId := agentId task;
                 res_type := type task;
                 success := true;
                 result := messageContent;
                 reasoning := messageReasoning;
                 error := Null;
                 executionTime := executionTime;
                 timestamp := now |})
      | RespFailed responseError =>
          (sw, FulfilledWith {|
                 taskId := id task;
                 res_agentId := agentId task;
                 res_type := type task;
                 success := false;
                 result := Null;
                 reasoning := Null;
                 error := responseError;
                 executionTime := executionTime;
                 timestamp := now |})
      | RespMalformed typeError =>
          executeAdvancedTask_catch now startTime task (Str typeError) sw
      end
  | ChatRejected error => executeAdvancedTask_catch now startTime task error sw
  | TimerFired => executeAdvancedTask_catch now startTime task (Str "Task timeout") sw
  end.

(** A started advanced task: its race settles at [adv_due] with
    [adv_raced]. *)
Record AdvancedRunning := {
  adv_running : Task;
  adv_due : Z;
  adv_raced : RaceOutcome
}.

(** The promise [executeAdvancedTask] returns: settled already when the
    agent is missing or [buildAgentPrompt] threw, pending otherwise. *)
Inductive AdvancedPromise :=
  | AdvSettled (outcome : Settled)
  | AdvPending (r : AdvancedRunning).

(** The four tasks of lines 632-673; the four clock readings of the
    synchronous code are one value [now]. *)
Definition advancedTasks (now : Z) (repository : Repository) : list AdvancedTask := [
  {| adv_task := {| id := "pattern-" +:+ pretty now;
                    agentId := "architect";
                    type := "pattern-detection";
                    repository := Some repository;
                    priority := high;
                    description := "Detect patterns and relationships across multiple files" |};
     specialPrompt := Some (buildPatternDetectionPrompt repository) |};
  {| adv_task := {| id := "debt-" +:+ pretty now;
                    agentId := "quality";
                    type := "technical-debt";
                    repository := Some repository;
                    priority := medium;
                    description := "Comprehensive technical debt analysis with metrics" |};
     specialPrompt := Some (buildTechnicalDebtPrompt repository) |};
  {| adv_task := {| id := "evolution-" +:+ pretty now;
                    agentId := "architect";
                    type := "architecture-evolution";
                    repository := Some repository;
                    priority := medium;
                    description := "Strategic architecture evolution recommendations" |};
     specialPrompt := Some (buildArchitectureEvolutionPrompt repository) |};
  {| adv_task := {| id := "refactor-" +:+ pretty now;
                    agentId := "quality";
                    type := "refactoring-analysis";
                    repository := Some repository;
                    priority := low;
                    description := "Identify refactoring opportunities and code duplication" |};
     specialPrompt := Some (buildRefactoringPrompt repository) |}
].

(** What [generateIntelligenceSummary] returns. *)
Inductive IntelligenceSummary :=
  (** [{ error: 'No analysis results to summarize' }] *)
  | NothingToSummarize
  (** the object of lines 877-882 *)
  | Summarized (executiveSummary summaryReasoning : JsText) (analysisCount timestamp : Z)
  (** the function runs off its end: [undefined] *)
  | SummaryUndefined
  (** the object of the [catch] block *)
  | SummaryFailed.

(** The object [calculateIntelligenceMetrics] returns, without
    [successRate] (a floating-point percentage, [NaN] for no result). *)
Record IntelligenceMetrics := {
  totalAnalyses : Z;
  successfulAnalyses : Z;
  averageAnalysisTime : Z;
  metrics_analysisTypes : list string;
  totalProcessingTime : Z
}.

Definition calculateIntelligenceMetrics (results : list TaskResult) : IntelligenceMetrics :=
  let successful := List.filter success results in
  let totalTime := foldl (λ sum r, sum + executionTime r) 0 successful in
  {| totalAnalyses := Z.of_nat (length results);
     successfulAnalyses := Z.of_nat (length successful);
     averageAnalysisTime :=
       if Z.of_nat (length successful) >? 0
       then round_div totalTime (Z.of_nat (length successful))
       else 0;
     metrics_analysisTypes := map res_type successful;
     totalProcessingTime := totalTime |}.

(** The object [performAdvancedIntelligence] returns. *)
Record IntelligenceReport := {
  report_repository : string;
  intelligenceAnalysis : list TaskResult;
  report_summary : IntelligenceSummary;
  report_metrics : IntelligenceMetrics;
  report_timestamp : Z;
  report_confidence : string
}.

(** The request of lines 867-875. *)
Definition summaryRequest (repository : Repository) (analysisResults : list TaskResult)
    (s : Intel) : IntelligenceRequest :=
  {| intel_content :=
       summaryPrompt repository (combineAnalysis (List.filter success analysisResults));
     intel_model := coordinationModel (config (intel_swarm s));
     intel_max_tokens := 2000 |}.

(** How far an array of promises has settled: [None] at the positions of
    those that are pending. *)
Definition settledSoFar (ps : list AdvancedPromise) : list (option Settled) :=
  map (λ p, match p with
            | AdvSettled outcome => Some outcome
            | AdvPending _ => None
            end) ps.

(** One continuation of [executeAdvancedTask] runs and settles the promise
    at position [entry.1]. *)
Definition settleAdvanced (startTime : Z) (acc : Swarm * list (option Settled))
    (entry : nat * AdvancedRunning) : Swarm * list (option Settled) :=
  let '(sw, outcome) :=
    executeAdvancedTask_settle (adv_due entry.2) startTime (adv_running entry.2)
      (adv_raced entry.2) acc.1 in
  (sw, <[entry.1 := Some outcome]> acc.2).

(** Line 676 on one entry of the array [Promise.allSettled] resolves with:
    the value of a fulfilled promise. *)
Definition fulfilledValue (settled : option Settled) : option TaskResult :=
  match settled with
  | Some (FulfilledWith value) => Some value
  | _ => None
  end.

(** How an awaited computation of the advanced analyses ends. *)
Inductive IntelOutcome (A : Type) :=
  | IntelReturns (s : Intel) (a : A)
  | IntelThrows (reason : JsText)
  | IntelHangs.
Arguments IntelReturns {A} s a.
Arguments IntelThrows {A} reason.
Arguments IntelHangs {A}.

(** The pending promises of an array, with their positions; [i] is the
    position of the head of [ps]. *)
Fixpoint pendingFrom (i : nat) (ps : list AdvancedPromise) : list (nat * AdvancedRunning) :=
  match ps with
  | [] => []
  | AdvPending r :: rest => (i, r) :: pendingFrom (S i) rest
  | AdvSettled _ :: rest => pendingFrom (S i) rest
  end.

(** The order in which the races settle: by the time they are due, and in
    the order of the calls among those due together. *)
Definition byDue (a b : nat * AdvancedRunning) : Z := adv_due a.2 - adv_due b.2.

Section Intelligence.

(** The backend on the requests of the advanced analyses: how the [n]-th
    of them (counted from 0) behaves. *)
Variable chat : nat → IntelligenceRequest → ChatBehaviour.

(** The call [this.executeAdvancedTask(task)] at [intel_clock s]. *)
Definition executeAdvancedTask (task : AdvancedTask) (s : Intel) : Intel * AdvancedPromise :=
  match executeAdvancedTask_start (intel_clock s) task (intel_swarm s) with
  | inl reason => (s, AdvSettled (RejectedWith reason))
  | inr (sw, inl typeError) =>
      let '(sw, outcome) :=
        executeAdvancedTask_catch (intel_clock s) (intel_clock s) (adv_task task)
          typeError sw in
      ({| intel_clock := intel_clock s;
          intel_swarm := sw;
          intel_calls := intel_calls s |},
       AdvSettled outcome)
  | inr (sw, inr request) =>
      let '(elapsed, raced) :=
        race (taskTimeout (config sw)) (chat (length (intel_calls s)) request) in
      ({| intel_clock := intel_clock s;
          intel_swarm := sw;
          intel_calls := intel_calls s ++ [request] |},
       AdvPending {| adv_running := adv_task task;
                     adv_due := intel_clock s + elapsed;
                     adv_raced := raced |})
  end.

(** Lines 629-673: the tasks are started one after the other, none is
    awaited. *)
Definition startIntelligence (tasks : list AdvancedTask) (s : Intel)
    : Intel * list AdvancedPromise :=
  foldl (λ acc task, let '(s, p) := executeAdvancedTask task acc.1 in (s, acc.2 ++ [p]))
    (s, []) tasks.

(** [await Promise.allSettled(intelligenceTasks)] followed by the filter
    of line 676: the continuations run in the order their races settle,
    and the values of the fulfilled promises come in the order of the
    array. All tasks were started at [startTime]. *)
Definition settleIntelligence (startTime : Z) (ps : list AdvancedPromise) (s : Intel)
    : Intel * list TaskResult :=
  let ordered := sort byDue (pendingFrom 0 ps) in
  let '(sw, values) :=
    foldl (settleAdvanced startTime) (intel_swarm s, settledSoFar ps) ordered in
  ({| intel_clock := foldr (λ entry t, Z.max (adv_due entry.2) t) (intel_clock s) ordered;
      intel_swarm := sw;
      intel_calls := intel_calls s |},
   omap fulfilledValue values).

(** [generateIntelligenceSummary]; [None] when it never returns (the call
    is awaited without a timer). *)
Definition generateIntelligenceSummary (analysisResults : list TaskResult)
    (repository : Repository) (s : Intel) : option (Intel * IntelligenceSummary) :=
  if bool_decide (length analysisResults = 0%nat) then Some (s, NothingToSummarize)
  else
    let request := summaryRequest repository analysisResults s in
    match chat (length (intel_calls s)) request with
    | NeverSettles => None
    | Settles delay outcome =>
        let s := {| intel_clock := Z.max (intel_clock s) (intel_clock s + delay);
                    intel_swarm := intel_swarm s;
                    intel_calls := intel_calls s ++ [request] |} in
        match outcome with
        | Resolves (RespOk messageContent messageReasoning) =>
            Some (s, Summarized messageContent messageReasoning
                       (Z.of_nat (length analysisResults)) (intel_clock s))
        | Resolves (RespFailed _) => Some (s, SummaryUndefined)
        | Resolves (RespMalformed _) | Rejects _ => Some (s, SummaryFailed)
        end
    end.

(** [performAdvancedIntelligence]. The four prompts of lines 639, 650, 661
    and 672 are built outside any [try], each from
    [buildRepositoryContext(repository)]: when that throws, it does so at
    line 639, before any task is started, and the promise of the function
    is rejected. *)
Definition performAdvancedIntelligence (repository : Repository) (s : Intel)
    : IntelOutcome IntelligenceReport :=
  match buildRepositoryContext (Some repository) with
  | inl typeError => IntelThrows typeError
  | inr _ =>
      let startTime := intel_clock s in
      let '(s, intelligenceTasks) :=
        startIntelligence (advancedTasks startTime repository) s in
      let '(s, successful) := settleIntelligence startTime intelligenceTasks s in
      match generateIntelligenceSummary successful repository s with
      | None => IntelHangs
      | Some (s, intelligenceSummary) =>
          IntelReturns s
            {| report_repository := owner repository +:+ "/" +:+ repo repository;
               intelligenceAnalysis := successful;
               report_summary := intelligenceSummary;
               report_metrics := calculateIntelligenceMetrics successful;
               report_timestamp := intel_clock s;
               report_confidence :=
                 if Z.of_nat (length successful) >=? 3 then "high"
                 else if Z.of_nat (length successful) >=? 2 then "medium"
                 else "low" |}
      end
  end.

End Intelligence.

(** Further inputs of the examples: no call of the tasks is ever answered,
    the summary call is. *)
Definition summaryOnlyBackend : nat → IntelligenceRequest → ChatBehaviour :=
  λ n _, match n with
         | 4%nat => Settles 50 (answer "summary")
         | _ => NeverSettles
         end.

Definition freshIntel (userConfig : UserConfig) (now : Z) : Intel :=
  {| intel_clock := now; intel_swarm := newSwarm userConfig; intel_calls := [] |}.

(** The promise of a task that runs. *)
Definition isPending (p : AdvancedPromise) : Prop := ∃ r, p = AdvPending r.

(** ** Further inputs of the examples *)

(** A task for an agent no definition names. *)
Definition strayTask : Task := {|
  id := "stray-0";
  agentId := "translator";
  type := "translation";
  repository := Some demoRepository;
  priority := high;
  description := "Translate the documentation"
|}.

(** A repository whose [stats] have no [languages]. *)
Definition bareRepository : Repository :=
  {| owner := "octocat"; repo := "bare"; files := None;
     stats := Some {| languages := None |} |}.

(** A task of such a repository: [buildAgentPrompt] throws for it. *)
Definition promptlessTask : Task := {|
  id := "sec-1";
  agentId := "security";
  type := "security-analysis";
  repository := Some bareRepository;
  priority := medium;
  description := "Comprehensive security vulnerability assessment"
|}.

(** Every call is rejected with [null] after 5 ms. *)
Definition nullBackend : nat → ChatRequest → ChatBehaviour :=
  λ _ _, Settles 5 (Rejects ThrownNull).

(** [{ maxConcurrentAgents: 0 }]. *)
Definition noneAtATime : UserConfig := {|
  user_maxConcurrentAgents := Some 0;
  user_taskTimeout := None;
  user_retryAttempts := None;
  user_coordinationModel := None
|}.

(** The instance after one task of the architect has been answered. *)
Definition afterOneAnswer : Swarm :=
  (executeAgentTask_settle 250 50 architectureTask
     (ChatResolved (RespOk (Str "done") Undefined)) (newSwarm defaultConfig)).1.

(** ** The status of the agents *)

(** An agent whose status is [active] has a task of its own in flight. *)
Definition tracksPending (s : Sim) : Prop :=
  ∀ k a, agents (swarm s) !! k = Some a → status a = active →
         ∃ p r, p ∈ promises s ∧ promise_state p = Pending r ∧ agentId (run_task r) = k.

(** * Properties *)

(** ** The coordinator *)

(** Without a success the coordinator answers at once and leaves the
    simulation as it found it. *)
Lemma coordinateResults_degraded chat results repository s :
  successfulResults results = [] →
  coordinateResults chat results repository s = Returns s degradedResult.
Proof. intros Hnone. unfold coordinateResults. by rewrite Hnone. Qed.

(** With a success the coordinator sends one request and answers when the
    backend does. *)
Lemma coordinateResults_called chat results repository s delay outcome :
  successfulResults results ≠ [] →
  chat (length (calls s)) (coordinationRequest repository (successfulResults results) s)
    = Settles delay outcome →
  let s' := advance (clock s + delay)
              (logCall (coordinationRequest repository (successfulResults results) s) s) in
  coordinateResults chat results repository s =
    Returns s'
      match outcome with
      | Resolves (RespOk messageContent messageReasoning) =>
          synthesizedResult messageContent messageReasoning (successfulResults results)
            (clock s')
      | _ => fallbackResult (successfulResults results)
      end.
Proof.
  intros Hsome Hreply. unfold coordinateResults.
  destruct (successfulResults results) as [|r rs] eqn:Hsucc; [done|].
  rewrite bool_decide_eq_false_2 by done.
  rewrite Hreply. by destruct outcome as [[| |]|].
Qed.

Lemma flush_calls fuel t s : calls (flush fuel t s) = calls s.
Proof.
  revert s. induction fuel as [|fuel IH]; intros s; simpl; [done|].
  destruct (next_due 0 t (promises s)) as [[i r]|]; [|done].
  rewrite IH. unfold settle_promise.
  by destruct (executeAgentTask_settle _ _ _ _ _).
Qed.

Lemma advance_calls t s : calls (advance t s) = calls s.
Proof. unfold advance. simpl. apply flush_calls. Qed.

Lemma successfulResults_none results :
  Forall (λ entry, success entry.2 = false) results → successfulResults results = [].
Proof.
  unfold successfulResults, Map_values.
  induction 1 as [|entry results Hentry _ IH]; [done|].
  rewrite fmap_cons. simpl. by rewrite Hentry.
Qed.

(** C5: for a result set in which no [TaskResult] is successful (every
    entry has [success] false; the empty set is one such),
    [coordinateResults] returns the degraded result, whose confidence is
    "low", and sends no request to the backend: the log of calls is the one
    it started with. *)
Theorem coordinateResults_no_success chat results repository s :
  Forall (λ entry, success entry.2 = false) results →
  ∃ s' coordinated,
    coordinateResults chat results repository s = Returns s' coordinated ∧
    coordinated = degradedResult ∧
    confidence coordinated = "low" ∧
    calls s' = calls s.
Proof.
  intros Hnone. exists s, degradedResult. split; [|done].
  by apply coordinateResults_degraded, successfulResults_none.
Qed.

Lemma coordinateResults_no_success_witness :
  length sixFailures = 6%nat ∧
  Forall (λ entry, success entry.2 = false) sixFailures ∧
  ∃ s' coordinated,
    coordinateResults answeringBackend sixFailures demoRepository (freshSim defaultConfig 0)
      = Returns s' coordinated ∧
    coordinated = degradedResult ∧
    confidence coordinated = "low" ∧
    calls s' = calls (freshSim defaultConfig 0).
Proof.
  assert (Hfailed : Forall (λ entry : string * TaskResult, success entry.2 = false) sixFailures)
    by (apply (bool_decide_unpack _); vm_compute; exact I).
  split; [vm_compute; reflexivity|]. split; [exact Hfailed|].
  apply (coordinateResults_no_success answeringBackend sixFailures demoRepository
           (freshSim defaultConfig 0) Hfailed).
Defined.

(** C2, as the code has it: the confidence is "low" without a success;
    with at least one success it follows the number of successes alone when
    the synthesis call is answered successfully ("high" from 4 on, "medium"
    for 2 or 3, "low" for 1) and is "medium" whatever that number when the
    synthesis call fails. *)
Theorem coordinateResults_confidence chat results repository s :
  let successes := Z.of_nat (length (successfulResults results)) in
  let reply :=
    chat (length (calls s))
      (coordinationRequest repository (successfulResults results) s) in
  successes = 0 ∨ reply ≠ NeverSettles →
  ∃ s' coordinated,
    coordinateResults chat results repository s = Returns s' coordinated ∧
    confidence coordinated =
      if successes =? 0 then "low"
      else if synthesisSucceeded reply
           then (if successes >=? 4 then "high"
                 else if successes >=? 2 then "medium" else "low")
           else "medium".
Proof.
  intros successes reply Hends.
  destruct (successfulResults results) as [|r rs] eqn:Hsucc.
  - exists s, degradedResult. split; [by apply coordinateResults_degraded|done].
  - destruct Hends as [Hzero|Hsettles]; [done|].
    destruct reply as [delay outcome|] eqn:Hreply; [|done].
    eexists _, _. split.
    + apply (coordinateResults_called chat results repository s delay outcome).
      * by rewrite Hsucc.
      * rewrite Hsucc. exact Hreply.
    + subst successes. rewrite Hsucc.
      replace (Z.of_nat (length (r :: rs)) =? 0) with false
        by (symmetry; apply Z.eqb_neq; simpl; lia).
      by destruct outcome as [[| |]|].
Qed.

Lemma coordinateResults_confidence_witness :
  (Z.of_nat (length (successfulResults fiveOfSix)) = 0 ∨
   mostlyAnsweringBackend (length (calls afterFiveOfSix))
     (coordinationRequest demoRepository (successfulResults fiveOfSix) afterFiveOfSix)
     ≠ NeverSettles) ∧
  length fiveOfSix = 6%nat ∧
  length (successfulResults fiveOfSix) = 5%nat ∧
  ∃ s' coordinated,
    coordinateResults mostlyAnsweringBackend fiveOfSix demoRepository afterFiveOfSix
      = Returns s' coordinated ∧
    confidence coordinated = "high".
Proof.
  split; [right; vm_compute; discriminate|].
  split; [vm_compute; reflexivity|].
  split; [vm_compute; reflexivity|].
  destruct (coordinateResults_confidence mostlyAnsweringBackend fiveOfSix demoRepository
              afterFiveOfSix) as (s' & coordinated & Hrun & Hconf).
  - right. vm_compute. discriminate.
  - exists s', coordinated. split; [exact Hrun|].
    rewrite Hconf. vm_compute. reflexivity.
Defined.

(** Six tasks, five successes and one failure, and a synthesis call that
    fails: the confidence is "medium", not "high". *)
Lemma confidence_medium_with_five_successes :
  length fiveOfSix = 6%nat ∧
  length (successfulResults fiveOfSix) = 5%nat ∧
  ∃ s' coordinated,
    coordinateResults flakyBackend fiveOfSix demoRepository afterFiveOfSix
      = Returns s' coordinated ∧
    confidence coordinated = "medium" ∧
    confidence coordinated ≠ "high".
Proof.
  split; [vm_compute; reflexivity|].
  split; [vm_compute; reflexivity|].
  eexists _, _. split; [vm_compute; reflexivity|].
  split; [reflexivity|discriminate].
Qed.

(** C6, as the code has it: with at least one success and a synthesis call
    that fails (it is rejected, or answered with an unsuccessful or
    unreadable response), [coordinateResults] still returns: the fallback
    result, whose summary is a fixed sentence, with the number and the types
    of the successful results, confidence "medium" and the note that
    synthesis failed. Exactly one request was sent. *)
Theorem coordinateResults_synthesis_failed chat results repository s delay outcome :
  successfulResults results ≠ [] →
  chat (length (calls s)) (coordinationRequest repository (successfulResults results) s)
    = Settles delay outcome →
  synthesisSucceeded (Settles delay outcome) = false →
  ∃ s' coordinated,
    coordinateResults chat results repository s = Returns s' coordinated ∧
    summary coordinated =
      Str "Multiple specialized analyses completed. Individual agent results available." ∧
    agentContributions coordinated = Some (Z.of_nat (length (successfulResults results))) ∧
    analysisTypes coordinated = Some (map res_type (successfulResults results)) ∧
    confidence coordinated = "medium" ∧
    note coordinated =
      Some "Coordination synthesis failed, but individual analyses succeeded" ∧
    calls s' =
      calls s ++ [coordinationRequest repository (successfulResults results) s].
Proof.
  intros Hsome Hreply Hfailed.
  eexists _, _. split.
  - by apply (coordinateResults_called chat results repository s delay outcome).
  - rewrite advance_calls. by destruct outcome as [[| |]|].
Qed.

Lemma coordinateResults_synthesis_failed_witness :
  successfulResults fiveOfSix ≠ [] ∧
  flakyBackend (length (calls afterFiveOfSix))
    (coordinationRequest demoRepository (successfulResults fiveOfSix) afterFiveOfSix)
    = Settles 50 (Rejects (Str "service unavailable")) ∧
  ∃ s' coordinated,
    coordinateResults flakyBackend fiveOfSix demoRepository afterFiveOfSix
      = Returns s' coordinated ∧
    confidence coordinated = "medium" ∧
    note coordinated =
      Some "Coordination synthesis failed, but individual analyses succeeded" ∧
    length (calls s') = 7%nat.
Proof.
  split; [vm_compute; discriminate|].
  split; [vm_compute; reflexivity|].
  destruct (coordinateResults_synthesis_failed flakyBackend fiveOfSix demoRepository
              afterFiveOfSix 50 (Rejects (Str "service unavailable")))
    as (s' & coordinated & Hrun & _ & _ & _ & Hconf & Hnote & Hcalls).
  - vm_compute; discriminate.
  - vm_compute; reflexivity.
  - reflexivity.
  - exists s', coordinated. repeat split; [exact Hrun|exact Hconf|exact Hnote|].
    rewrite Hcalls. vm_compute. reflexivity.
Defined.

(** The fallback does not carry the concatenation of the successful
    outputs: its summary is another text, and so is its note. *)
Lemma fallback_is_not_the_concatenation :
  ∃ s' coordinated,
    coordinateResults flakyBackend fiveOfSix demoRepository afterFiveOfSix
      = Returns s' coordinated ∧
    summary coordinated ≠ Str (combineAnalysis (successfulResults fiveOfSix)) ∧
    note coordinated ≠ Some (combineAnalysis (successfulResults fiveOfSix)).
Proof.
  eexists _, _. split; [vm_compute; reflexivity|].
  split; vm_compute; discriminate.
Qed.

(** ** One task *)

Lemma catch_agents now startTime task error sw :
  agents (executeAgentTask_catch now startTime task error sw).1 =
  alter setIdle (agentId task) (agents sw).
Proof.
  unfold executeAgentTask_catch. simpl.
  destruct (agentEfficiency (swarmMetrics sw) !! agentId task); [|done].
  by destruct (messageOf error).
Qed.

Lemma catch_efficiency now startTime task error sw :
  agentEfficiency (swarmMetrics (executeAgentTask_catch now startTime task error sw).1) =
  alter recordAssigned (agentId task) (agentEfficiency (swarmMetrics sw)).
Proof.
  unfold executeAgentTask_catch. simpl.
  destruct (agentEfficiency (swarmMetrics sw) !! agentId task) eqn:He; simpl;
    [by destruct (messageOf error)|].
  apply map_eq. intros k. rewrite lookup_alter.
  case_decide; [subst; by rewrite He|done].
Qed.

Ltac alter_lookups :=
  repeat (rewrite ?catch_agents, ?catch_efficiency; simpl; rewrite ?lookup_alter;
          repeat case_decide; subst; simpl; try done);
  repeat match goal with
         | |- context [?m !! ?k] => destruct (m !! k); simpl; try done
         end.

(** The continuation of a task touches the record of the task's agent and
    no other. *)
Lemma settle_agents now startTime task raced sw k :
  agents (executeAgentTask_settle now startTime task raced sw).1 !! k =
    if decide (agentId task = k)
    then agentAfter (now - startTime) raced <$> agents sw !! k
    else agents sw !! k.
Proof.
  unfold executeAgentTask_settle.
  destruct raced as [response| |]; simpl; [|alter_lookups..].
  destruct (agentEfficiency (swarmMetrics sw) !! agentId task) eqn:He;
    [destruct response|]; alter_lookups.
Qed.

Lemma settle_efficiency now startTime task raced sw k :
  agentEfficiency (swarmMetrics (executeAgentTask_settle now startTime task raced sw).1) !! k =
    if decide (agentId task = k)
    then efficiencyAfter (now - startTime) raced <$> agentEfficiency (swarmMetrics sw) !! k
    else agentEfficiency (swarmMetrics sw) !! k.
Proof.
  unfold executeAgentTask_settle.
  destruct raced as [response| |]; simpl; [|alter_lookups..].
  destruct (agentEfficiency (swarmMetrics sw) !! agentId task) eqn:He;
    [destruct response|]; alter_lookups.
Qed.

Lemma settle_config now startTime task raced sw :
  config (executeAgentTask_settle now startTime task raced sw).1 = config sw.
Proof.
  unfold executeAgentTask_settle, executeAgentTask_catch.
  destruct raced as [response|error|]; simpl;
    repeat (match goal with
            | |- context [match ?m !! ?k with _ => _ end] => destruct (m !! k)
            | |- context [match ?r with RespOk _ _ => _ | _ => _ end] => destruct r
            | |- context [messageOf ?e] => destruct (messageOf e)
            end; simpl); done.
Qed.

Lemma start_agents now task sw sw' request k :
  executeAgentTask_start now task sw = inr (sw', request) →
  agents sw' !! k =
    if decide (agentId task = k) then activate now <$> agents sw !! k else agents sw !! k.
Proof.
  unfold executeAgentTask_start.
  destruct (agents sw !! agentId task) as [agent|]; [|done].
  intros ?; simplify_eq. simpl. rewrite lookup_alter. by case_decide; subst.
Qed.

Lemma start_metrics now task sw sw' request :
  executeAgentTask_start now task sw = inr (sw', request) →
  swarmMetrics sw' = swarmMetrics sw ∧ config sw' = config sw.
Proof.
  unfold executeAgentTask_start.
  destruct (agents sw !! agentId task) as [agent|]; [|done].
  by intros ?; simplify_eq.
Qed.

Lemma start_registered now task sw agent :
  agents sw !! agentId task = Some agent →
  promptable task = true →
  executeAgentTask_start now task sw =
    inr (set_agents (alter (activate now) (agentId task)) sw, inr (agentRequest agent task)).
Proof.
  intros Hagent Hprompt. unfold executeAgentTask_start, callBuildAgentPrompt.
  rewrite Hagent. unfold promptable in Hprompt.
  by destruct (buildRepositoryContext (repository task)).
Qed.

(** Without a prompt the [TypeError] of the builder is what the start hands
    on. *)
Lemma start_no_prompt now task sw agent :
  agents sw !! agentId task = Some agent →
  promptable task = false →
  ∃ typeError,
    buildRepositoryContext (repository task) = inl typeError ∧
    executeAgentTask_start now task sw =
      inr (set_agents (alter (activate now) (agentId task)) sw, inl typeError).
Proof.
  intros Hagent Hprompt. unfold executeAgentTask_start, callBuildAgentPrompt.
  rewrite Hagent. unfold promptable in Hprompt.
  destruct (buildRepositoryContext (repository task)) as [typeError|]; [|done].
  by exists typeError.
Qed.

(** For a registered agent the continuation fulfils the promise. *)
Lemma catch_registered now startTime task (message : JsText) sw e :
  agentEfficiency (swarmMetrics sw) !! agentId task = Some e →
  (executeAgentTask_catch now startTime task message sw).2 =
    FulfilledWith (failedResult now startTime task message).
Proof. intros He. unfold executeAgentTask_catch. simpl. by rewrite He. Qed.

(** C8, as the code has it: when the inference call resolves, with a
    successful response or not, the agent's [tasksCompleted] grows by one and
    its average response time is blended with the execution time, on the
    agent record and on its efficiency entry; when the call is rejected or
    the timer fires, the agent's counters and averages stay as they were and
    the efficiency entry's [tasksAssigned] grows by one. No outcome changes
    a success rate. *)
Theorem executeAgentTask_settle_metrics now startTime task raced sw a e :
  agents sw !! agentId task = Some a →
  agentEfficiency (swarmMetrics sw) !! agentId task = Some e →
  let executionTime := now - startTime in
  let sw' := (executeAgentTask_settle now startTime task raced sw).1 in
  ∃ a' e',
    agents sw' !! agentId task = Some a' ∧
    agentEfficiency (swarmMetrics sw') !! agentId task = Some e' ∧
    successRate a' = successRate a ∧
    eff_successRate e' = eff_successRate e ∧
    match raced with
    | ChatResolved response =>
        tasksCompleted a' = tasksCompleted a + 1 ∧
        averageResponseTime a' = round_half (averageResponseTime a + executionTime) ∧
        eff_tasksCompleted e' = eff_tasksCompleted e + 1 ∧
        averageTime e' = round_half (averageTime e + executionTime) ∧
        tasksAssigned e' = tasksAssigned e + (if isMalformed response then 1 else 0)
    | ChatRejected _ | TimerFired =>
        tasksCompleted a' = tasksCompleted a ∧
        averageResponseTime a' = averageResponseTime a ∧
        eff_tasksCompleted e' = eff_tasksCompleted e ∧
        averageTime e' = averageTime e ∧
        tasksAssigned e' = tasksAssigned e + 1
    end.
Proof.
  intros Ha He executionTime sw'.
  exists (agentAfter executionTime raced a), (efficiencyAfter executionTime raced e).
  subst sw'. rewrite settle_agents, settle_efficiency.
  rewrite !decide_True by done. rewrite Ha, He.
  destruct raced as [[| |]| |]; simpl; repeat split; lia.
Qed.

Lemma executeAgentTask_settle_metrics_witness :
  let sw := newSwarm defaultConfig in
  let sw' := (executeAgentTask_settle 250 50 architectureTask
                (ChatResolved (RespOk (Str "done") Undefined)) sw).1 in
  ∃ a' e',
    agents sw' !! "architect" = Some a' ∧
    agentEfficiency (swarmMetrics sw') !! "architect" = Some e' ∧
    tasksCompleted a' = 1 ∧
    averageResponseTime a' = 100 ∧
    eff_tasksCompleted e' = 1 ∧
    averageTime e' = 100.
Proof.
  intros sw sw'.
  destruct (executeAgentTask_settle_metrics 250 50 architectureTask
              (ChatResolved (RespOk (Str "done") Undefined)) sw
              (newAgent "architect" {|
                 def_name := "Architecture Analyst";
                 def_model := "x-ai/grok-code-fast-1";
                 def_specialization := "system-architecture";
                 def_capabilities :=
                   ["architecture-analysis"; "design-patterns"; "scalability-assessment"];
                 def_prompt :=
                   "You are an expert software architect specializing in system design analysis." |})
              newEfficiency)
    as (a' & e' & Ha' & He' & _ & _ & Hdone & Havg & Hedone & Heavg & _).
  - vm_compute. reflexivity.
  - vm_compute. reflexivity.
  - exists a', e'. repeat split; [exact Ha'|exact He'|..].
    + rewrite Hdone. reflexivity.
    + rewrite Havg. reflexivity.
    + rewrite Hedone. reflexivity.
    + rewrite Heavg. reflexivity.
Defined.

(** A task that times out after 120000 ms: its result is a failure, and the
    agent's counters are the initial ones; the average response time was not
    blended with the execution time. *)
Lemma timeout_leaves_agent_metrics :
  ∃ s r a e,
    executeSwarmTasks hangingBackend [architectureTask] (freshSim defaultConfig 0)
      = Returns s [("arch-0", r)] ∧
    success r = false ∧
    executionTime r = 120000 ∧
    agents (swarm s) !! "architect" = Some a ∧
    agentEfficiency (swarmMetrics (swarm s)) !! "architect" = Some e ∧
    tasksCompleted a = 0 ∧
    averageResponseTime a = 0 ∧
    successRate a = 100 ∧
    eff_tasksCompleted e = 0 ∧
    averageTime e = 0 ∧
    averageResponseTime a ≠ round_half (0 + executionTime r).
Proof.
  eexists _, _, _, _.
  split; [vm_compute; reflexivity|].
  split; [reflexivity|].
  split; [reflexivity|].
  split; [vm_compute; reflexivity|].
  split; [vm_compute; reflexivity|].
  repeat split. vm_compute. discriminate.
Qed.

Lemma newSwarm_agents userConfig :
  map_Forall (λ _ a, tasksCompleted a = 0 ∧ averageResponseTime a = 0 ∧ successRate a = 100)
    (agents (newSwarm userConfig)).
Proof.
  unfold newSwarm, initializeAgents. simpl.
  repeat (apply map_Forall_insert_2; [done|]).
  apply map_Forall_empty.
Qed.

Lemma newSwarm_efficiency userConfig :
  map_Forall (λ _ e, e = newEfficiency) (agentEfficiency (swarmMetrics (newSwarm userConfig))).
Proof.
  unfold newSwarm, initializeAgents. simpl.
  repeat (apply map_Forall_insert_2; [done|]).
  apply map_Forall_empty.
Qed.

(** A run of answered calls of one agent from a fresh instance leaves the
    blend of their execution times. *)
Lemma settleResolved_blend task runs sw a :
  agents sw !! agentId task = Some a →
  ∃ a', agents (foldl (settleResolved task) sw runs) !! agentId task = Some a' ∧
        averageResponseTime a' =
          foldl (λ average executionTime, round_half (average + executionTime))
            (averageResponseTime a) (map executionTimeOf runs).
Proof.
  revert sw a. induction runs as [|[[now startTime] response] runs IH]; intros sw a Ha.
  - exists a. by split.
  - simpl.
    destruct (IH (settleResolved task sw (now, startTime, response))
                (recordCompletion (now - startTime) a)) as (a' & Ha' & Havg).
    + unfold settleResolved. rewrite settle_agents, decide_True by done. by rewrite Ha.
    + exists a'. split; [exact Ha'|exact Havg].
Qed.

(** C10: the average response time of every agent starts at 0; when a call
    of the agent resolves, the stored average becomes
    round((previous average + execution time) / 2); and the value this
    recurrence leaves is not the arithmetic mean of the execution times:
    after calls of 100, 200 and 300 ms it is 213, their mean is 200. *)
Theorem averageResponseTime_recurrence userConfig now startTime task response sw a :
  agents sw !! agentId task = Some a →
  (∀ id a0, agents (newSwarm userConfig) !! id = Some a0 → averageResponseTime a0 = 0) ∧
  (∃ a', agents (executeAgentTask_settle now startTime task (ChatResolved response) sw).1
           !! agentId task = Some a' ∧
         averageResponseTime a' = round_half (averageResponseTime a + (now - startTime))) ∧
  (∃ a3, agents (foldl (settleResolved architectureTask) (newSwarm defaultConfig) threeRuns)
           !! "architect" = Some a3 ∧
         averageResponseTime a3 = blend (map executionTimeOf threeRuns) ∧
         averageResponseTime a3 = 213 ∧
         (100 + 200 + 300) / 3 = 200).
Proof.
  intros Ha. split; [|split].
  - intros id a0 Ha0. by destruct (newSwarm_agents userConfig id a0 Ha0) as (_ & ? & _).
  - exists (recordCompletion (now - startTime) a).
    rewrite settle_agents, decide_True by done. by rewrite Ha.
  - eexists. split; [vm_compute; reflexivity|]. by vm_compute.
Qed.

Lemma averageResponseTime_recurrence_witness :
  ∃ a a',
    agents (newSwarm defaultConfig) !! "architect" = Some a ∧
    averageResponseTime a = 0 ∧
    agents (executeAgentTask_settle 250 51 architectureTask
              (ChatResolved (RespOk (Str "done") Undefined)) (newSwarm defaultConfig)).1
      !! "architect" = Some a' ∧
    averageResponseTime a' = 100.
Proof.
  eexists. 
  destruct (averageResponseTime_recurrence defaultConfig 250 51 architectureTask
              (RespOk (Str "done") Undefined) (newSwarm defaultConfig) _
              ltac:(vm_compute; reflexivity))
    as (Hinit & (a' & Ha' & Havg) & _).
  exists a'. split; [vm_compute; reflexivity|].
  split; [reflexivity|]. split; [exact Ha'|].
  rewrite Havg. reflexivity.
Defined.

(** ** The success rate *)

Lemma step_successRate sw sw' :
  step sw sw' →
  map_Forall (λ _ a, successRate a = 100) (agents sw) →
  map_Forall (λ _ a, successRate a = 100) (agents sw').
Proof.
  intros Hstep Hall k a'.
  destruct Hstep as [now task sw sw' request Hstart|now startTime task raced sw|results sw].
  - rewrite (start_agents _ _ _ _ _ k Hstart).
    case_decide; [|apply Hall].
    destruct (agents sw !! k) as [a|] eqn:Ha; [|done].
    intros [= <-]. exact (Hall k a Ha).
  - rewrite settle_agents.
    case_decide; [|apply Hall].
    destruct (agents sw !! k) as [a|] eqn:Ha; [|done].
    intros [= <-]. specialize (Hall k a Ha). by destruct raced.
  - apply Hall.
Qed.

Lemma step_eff_successRate sw sw' :
  step sw sw' →
  map_Forall (λ _ e, eff_successRate e = 100) (agentEfficiency (swarmMetrics sw)) →
  map_Forall (λ _ e, eff_successRate e = 100) (agentEfficiency (swarmMetrics sw')).
Proof.
  intros Hstep Hall k e'.
  destruct Hstep as [now task sw sw' request Hstart|now startTime task raced sw|results sw].
  - destruct (start_metrics _ _ _ _ _ Hstart) as [-> _]. apply Hall.
  - rewrite settle_efficiency.
    case_decide; [|apply Hall].
    destruct (agentEfficiency (swarmMetrics sw) !! k) as [e|] eqn:He; [|done].
    intros [= <-]. specialize (Hall k e He). by destruct raced as [[| |]| |].
  - apply Hall.
Qed.

(** C7, as the code has it: the success rate of an agent is set to 100 when
    the agent is registered and no step of the execution recomputes it: at
    every point it is 100, on the agent record and on its efficiency entry,
    whatever the tasks of the agent did; in particular it is 100 for an
    agent that has run no task. *)
Theorem successRate_never_recomputed userConfig sw :
  reachable userConfig sw →
  (∀ id a, agents sw !! id = Some a → successRate a = 100) ∧
  (∀ id e, agentEfficiency (swarmMetrics sw) !! id = Some e → eff_successRate e = 100).
Proof.
  induction 1 as [|sw sw' Hreach [IHa IHe] Hstep].
  - split.
    + intros id a Ha. by destruct (newSwarm_agents userConfig id a Ha) as (_ & _ & ?).
    + intros id e He. by rewrite (newSwarm_efficiency userConfig id e He).
  - split.
    + exact (step_successRate sw sw' Hstep IHa).
    + exact (step_eff_successRate sw sw' Hstep IHe).
Qed.

Lemma successRate_never_recomputed_witness :
  let sw := (executeAgentTask_settle 120000 0 architectureTask TimerFired
               (newSwarm defaultConfig)).1 in
  reachable defaultConfig sw ∧
  ∃ a, agents sw !! "architect" = Some a ∧ successRate a = 100.
Proof.
  intros sw.
  assert (Hreach : reachable defaultConfig sw).
  { apply (reachable_step defaultConfig (newSwarm defaultConfig)).
    - apply reachable_new.
    - apply step_settle. }
  split; [exact Hreach|].
  destruct (successRate_never_recomputed defaultConfig sw Hreach) as [Hagents _].
  eexists. split; [vm_compute; reflexivity|].
  eapply (Hagents "architect"). vm_compute. reflexivity.
Defined.

(** An agent whose only task has failed: no task completed, one failed, and
    a success rate of 100 where the formula gives 0. *)
Lemma successRate_stale_after_failure :
  ∃ s r a,
    executeSwarmTasks hangingBackend [architectureTask] (freshSim defaultConfig 0)
      = Returns s [("arch-0", r)] ∧
    res_agentId r = "architect" ∧
    success r = false ∧
    agents (swarm s) !! "architect" = Some a ∧
    tasksCompleted a = 0 ∧
    successRate a = 100 ∧
    ¬ specSuccessRate (successRate a) (tasksCompleted a) 1.
Proof.
  eexists _, _, _.
  split; [vm_compute; reflexivity|].
  split; [reflexivity|].
  split; [reflexivity|].
  split; [vm_compute; reflexivity|].
  split; [reflexivity|].
  split; [reflexivity|].
  vm_compute. discriminate.
Qed.

(** ** A run without tasks *)

Lemma createSwarmTasks_nothing_requested now repository analysisTypes :
  (∀ kind, kind ∈ knownKinds → kind ∉ analysisTypes) →
  createSwarmTasks now repository analysisTypes = [].
Proof.
  intros Hnone.
  assert (Hno : ∀ kind, kind ∈ knownKinds → includes kind analysisTypes = false).
  { intros kind Hkind. apply bool_decide_eq_false_2. by apply Hnone. }
  unfold createSwarmTasks, pushTask.
  rewrite !Hno; [done|unfold knownKinds; set_solver..].
Qed.

(** C9: when none of the kinds [createSwarmTasks] knows is requested (an
    empty request among them), the run has no task and no result, its
    coordinated result is the degraded one with confidence "low", and
    [analyzeRepositorySwarm] returns: it throws nothing, sends nothing to the
    backend, starts no task and lets no time pass. *)
Theorem analyzeRepositorySwarm_nothing_requested chat repository analysisTypes s :
  (∀ kind, kind ∈ knownKinds → kind ∉ analysisTypes) →
  createSwarmTasks (clock s) repository analysisTypes = [] ∧
  ∃ s' run,
    analyzeRepositorySwarm chat repository (Some analysisTypes) s = Returns s' run ∧
    individualResults run = [] ∧
    swarmAnalysis run = degradedResult ∧
    confidence (swarmAnalysis run) = "low" ∧
    calls s' = calls s ∧
    promises s' = promises s ∧
    clock s' = clock s ∧
    agents (swarm s') = agents (swarm s).
Proof.
  intros Hnone.
  pose proof (createSwarmTasks_nothing_requested (clock s) repository analysisTypes Hnone)
    as Hno.
  split; [exact Hno|].
  unfold analyzeRepositorySwarm. simpl. rewrite Hno.
  eexists _, _. split; [reflexivity|]. by repeat split.
Qed.

Lemma analyzeRepositorySwarm_nothing_requested_witness :
  (∀ kind, kind ∈ knownKinds → kind ∉ ([] : list string)) ∧
  ∃ s' run,
    analyzeRepositorySwarm hangingBackend demoRepository (Some []) (freshSim defaultConfig 0)
      = Returns s' run ∧
    individualResults run = [] ∧
    confidence (swarmAnalysis run) = "low".
Proof.
  assert (Hnone : ∀ kind : string, kind ∈ knownKinds → kind ∉ ([] : list string))
    by (intros kind _; apply not_elem_of_nil).
  split; [exact Hnone|].
  destruct (analyzeRepositorySwarm_nothing_requested hangingBackend demoRepository []
              (freshSim defaultConfig 0) Hnone)
    as (_ & s' & run & Hrun & Hresults & _ & Hconf & _).
  exists s', run. by repeat split.
Defined.

(** ** The executor beyond its ceiling *)

(** C1 at a run of six tasks under a ceiling of two: the executor returns at
    15 ms with the results of two of the six tasks, while the other four
    are still in flight; their results never reach the map. *)
Theorem executeSwarmTasks_loses_results :
  let tasks := createSwarmTasks 0 demoRepository ["comprehensive"] in
  ∃ s results,
    maxConcurrentAgents (config (swarm (freshSim twoAtATime 0))) = 2 ∧
    map id tasks = ["arch-0"; "sec-0"; "perf-0"; "qual-0"; "test-0"; "doc-0"] ∧
    executeSwarmTasks unevenBackend tasks (freshSim twoAtATime 0) = Returns s results ∧
    results.*1 = ["arch-0"; "doc-0"] ∧
    clock s = 15 ∧
    map id (inFlight s) = ["sec-0"; "perf-0"; "qual-0"; "test-0"].
Proof.
  intros tasks. eexists _, _.
  split; [reflexivity|].
  split; [vm_compute; reflexivity|].
  split; [vm_compute; reflexivity|].
  repeat split.
Qed.

(** C3 at the same run: the third task is admitted at 10 ms, when the first
    has terminated; the fourth, fifth and sixth are admitted at that same
    instant although no other task has terminated, and five tasks are in
    flight under a ceiling of two. *)
Theorem executeSwarmTasks_exceeds_ceiling :
  let tasks := sort comparePriority (createSwarmTasks 0 demoRepository ["comprehensive"]) in
  maxConcurrentAgents (config (swarm (freshSim twoAtATime 0))) = 2 ∧
  map (λ s, (clock s, length (inFlight s)))
    (admissions unevenBackend tasks (freshSim twoAtATime 0) [])
  = [(0, 1%nat); (0, 2%nat); (10, 2%nat); (10, 3%nat); (10, 4%nat); (10, 5%nat)].
Proof. split; [reflexivity|]. vm_compute. reflexivity. Qed.

(** ** Runs stay among the reachable instances *)

Section Reachable.

Variable chat : nat → ChatRequest → ChatBehaviour.
Variable userConfig : UserConfig.











End Reachable.

(** ** The executor under its ceiling *)

Lemma settle_outcome now startTime task raced sw :
  is_Some (agentEfficiency (swarmMetrics sw) !! agentId task) →
  (executeAgentTask_settle now startTime task raced sw).2 =
    settledOutcome now startTime task raced.
Proof.
  intros [e He]. unfold executeAgentTask_settle, settledOutcome.
  destruct raced as [response|error|]; simpl.
  - rewrite He. destruct response; try done.
    apply (catch_registered _ _ _ _ _ (recordEfficiency (now - startTime) e)).
    simpl. by rewrite lookup_alter_eq, He.
  - unfold executeAgentTask_catch. simpl. rewrite He. by destruct error.
  - by rewrite (catch_registered _ _ _ _ _ e He).
Qed.

Lemma settle_efficiency_is_Some now startTime task raced sw k :
  is_Some (agentEfficiency (swarmMetrics (executeAgentTask_settle now startTime task raced sw).1) !! k)
  ↔ is_Some (agentEfficiency (swarmMetrics sw) !! k).
Proof.
  rewrite settle_efficiency. case_decide; [|done].
  by rewrite fmap_is_Some.
Qed.

Lemma next_due_None i0 t ps :
  next_due i0 t ps = None → Forall (λ p, due_by t p = None) ps.
Proof.
  revert i0. induction ps as [|p ps IH]; intros i0; simpl; [by constructor|].
  destruct (due_by t p) as [r|] eqn:Hp.
  - destruct (next_due (S i0) t ps) as [[j r']|]; [|done]. by case_match.
  - intros Hrest. constructor; [done|]. by apply (IH (S i0)).
Qed.

Lemma next_due_Some i0 t ps i r :
  next_due i0 t ps = Some (i, r) →
  ∃ j p, i = (i0 + j)%nat ∧ ps !! j = Some p ∧ due_by t p = Some r.
Proof.
  revert i0. induction ps as [|p ps IH]; intros i0; simpl; [done|].
  assert (Hlater : next_due (S i0) t ps = Some (i, r) →
                   ∃ j p', i = (i0 + j)%nat ∧ (p :: ps) !! j = Some p' ∧ due_by t p' = Some r).
  { intros Hrest. destruct (IH _ Hrest) as (j & p' & -> & Hj & Hdue).
    exists (S j), p'. split; [lia|done]. }
  assert (Hhere : ∀ r0, due_by t p = Some r0 → Some (i0, r0) = Some (i, r) →
                   ∃ j p', i = (i0 + j)%nat ∧ (p :: ps) !! j = Some p' ∧ due_by t p' = Some r).
  { intros r0 Hp [= <- <-]. exists 0%nat, p. split; [lia|done]. }
  destruct (due_by t p) as [r0|] eqn:Hp; [|done].
  destruct (next_due (S i0) t ps) as [[j r']|] eqn:Hrest; [|by apply Hhere].
  case_match; [done|by apply Hhere].
Qed.

Lemma due_by_Some t p r :
  due_by t p = Some r → promise_state p = Pending r ∧ run_due r ≤ t.
Proof.
  unfold due_by. destruct (promise_state p) as [r0|o]; [|done].
  destruct (run_due r0 <=? t) eqn:Hle; [|done].
  intros [= <-]. split; [done|]. by apply Z.leb_le.
Qed.

Lemma settleBy_not_due t p : due_by t p = None → settleBy t p = p.
Proof.
  unfold due_by, settleBy. destruct (promise_state p) as [r|o]; [|done].
  by destruct (run_due r <=? t).
Qed.

Lemma settleBy_due t p r :
  due_by t p = Some r →
  settleBy t p =
    {| promise_state :=
         Done (settledOutcome (run_due r) (run_startTime r) (run_task r) (run_raced r));
       promise_id := promise_id p |}.
Proof.
  unfold due_by, settleBy. destruct (promise_state p) as [r0|o]; [|done].
  destruct (run_due r0 <=? t); [|done]. by intros [= <-].
Qed.

Lemma pendingDue_alter t f ps i p :
  ps !! i = Some p → isDue t p = true → isDue t (f p) = false →
  pendingDue t ps = S (pendingDue t (alter f i ps)).
Proof.
  unfold pendingDue. revert i. induction ps as [|q ps IH]; intros [|i] Hi Hp Hfp; try done.
  - simpl in Hi. injection Hi as ->. simpl. by rewrite Hp, Hfp.
  - simpl in *. destruct (isDue t q); simpl; rewrite (IH i Hi Hp Hfp); done.
Qed.

Lemma fmap_alter_same {A B} (g : A → B) (f : A → A) (l : list A) i x :
  l !! i = Some x → g (f x) = g x → g <$> alter f i l = g <$> l.
Proof.
  revert i. induction l as [|y l IH]; intros [|i] Hi Hg; try done.
  - simpl in Hi. injection Hi as ->. simpl. by rewrite Hg.
  - simpl in *. f_equal. by apply IH.
Qed.

Lemma settle_promise_due t i p r s :
  efficiencyKnown s →
  promises s !! i = Some p → due_by t p = Some r →
  promises (settle_promise i r s) =
    alter (λ _, settleBy t p) i (promises s) ∧
  efficiencyKnown (settle_promise i r s).
Proof.
  intros Hknown Hi Hdue.
  destruct (due_by_Some _ _ _ Hdue) as [Hstate Hle].
  assert (Hp : p ∈ promises s) by (apply list_elem_of_lookup; eauto).
  pose proof (Hknown p r Hp Hstate) as Heff.
  unfold settle_promise.
  pose proof (settle_outcome (run_due r) (run_startTime r) (run_task r) (run_raced r)
                (swarm s) Heff) as Hout.
  pose proof (λ k, settle_efficiency_is_Some (run_due r) (run_startTime r) (run_task r)
                     (run_raced r) (swarm s) k) as Hdom.
  destruct (executeAgentTask_settle _ _ _ _ _) as [sw outcome]. simpl in *. subst outcome.
  split.
  - apply list_eq. intros j. rewrite !list_lookup_alter.
    case_decide; [subst j|done]. rewrite Hi. simpl. by rewrite (settleBy_due t p r Hdue).
  - intros q r' Hq Hstate'. simpl in *. apply Hdom.
    apply list_elem_of_lookup in Hq as [j Hj].
    rewrite list_lookup_alter in Hj. case_decide.
    + subst j. rewrite Hi in Hj. simpl in Hj. injection Hj as <-. by simpl in Hstate'.
    + apply (Hknown q r'); [|done]. apply list_elem_of_lookup. eauto.
Qed.

Lemma isDue_settleBy t p : isDue t (settleBy t p) = false.
Proof.
  unfold isDue. destruct (due_by t p) as [r|] eqn:Hdue.
  - by rewrite (settleBy_due t p r Hdue).
  - by rewrite (settleBy_not_due t p Hdue), Hdue.
Qed.

Lemma settleBy_idemp t p : settleBy t (settleBy t p) = settleBy t p.
Proof.
  apply settleBy_not_due. pose proof (isDue_settleBy t p) as H.
  unfold isDue in H. by destruct (due_by t (settleBy t p)).
Qed.

Lemma settleBy_none_due t ps :
  Forall (λ p, due_by t p = None) ps → settleBy t <$> ps = ps.
Proof.
  induction 1 as [|p ps Hp _ IH]; [done|].
  by rewrite fmap_cons, (settleBy_not_due t p Hp), IH.
Qed.

Lemma pendingDue_zero t ps :
  pendingDue t ps = 0%nat → Forall (λ p, due_by t p = None) ps.
Proof.
  unfold pendingDue. induction ps as [|p ps IH]; [by constructor|].
  simpl. unfold isDue at 1. destruct (due_by t p) as [r|] eqn:Hdue; [done|].
  intros Hrest. constructor; [done|by apply IH].
Qed.

(** What the continuations due by [t] leave of the promises. *)
Lemma flush_promises fuel t s :
  efficiencyKnown s →
  (pendingDue t (promises s) ≤ fuel)%nat →
  promises (flush fuel t s) = settleBy t <$> promises s ∧
  efficiencyKnown (flush fuel t s).
Proof.
  revert s. induction fuel as [|fuel IH]; intros s Hknown Hfuel; simpl.
  - split; [|done]. symmetry. apply settleBy_none_due, pendingDue_zero. lia.
  - destruct (next_due 0 t (promises s)) as [[i r]|] eqn:Hnext.
    + destruct (next_due_Some _ _ _ _ _ Hnext) as (j & p & -> & Hj & Hdue). simpl.
      destruct (settle_promise_due t j p r s Hknown Hj Hdue) as [Hps Hknown'].
      destruct (IH (settle_promise j r s) Hknown') as [Hflush Hknown''].
      * rewrite Hps.
        assert (Hcount := pendingDue_alter t (λ _, settleBy t p) (promises s) j p Hj).
        rewrite Hcount in Hfuel; [lia| |apply isDue_settleBy].
        unfold isDue. by rewrite Hdue.
      * split; [|done]. rewrite Hflush, Hps.
        apply (fmap_alter_same (settleBy t) _ _ j p Hj), settleBy_idemp.
    + split; [|done]. symmetry. by apply settleBy_none_due, (next_due_None 0).
Qed.

Lemma pendingDue_le t ps : (pendingDue t ps ≤ length ps)%nat.
Proof. unfold pendingDue. apply List.filter_length_le. Qed.

Lemma advance_promises t s :
  efficiencyKnown s →
  promises (advance t s) = settleBy t <$> promises s ∧ efficiencyKnown (advance t s).
Proof.
  intros Hknown. unfold advance.
  destruct (flush_promises (length (promises s)) t s Hknown (pendingDue_le _ _)) as [Hps Hk].
  split; [done|]. intros p r Hp Hstate. simpl in *. by apply (Hk p r).
Qed.

Lemma settledOutcome_readable now startTime task raced :
  readable raced →
  settledOutcome now startTime task raced =
    FulfilledWith (settledResult now startTime task raced).
Proof. by destruct raced as [response|[message| |]|]. Qed.

Lemma timerDelay_range timeout : 1 ≤ timerDelay timeout ≤ 2147483647.
Proof.
  unfold timerDelay.
  destruct (Z.leb_spec 1 timeout), (Z.leb_spec timeout 2147483647); simpl; lia.
Qed.

Lemma race_elapsed timeout b : (race timeout b).1 ≤ timerDelay timeout.
Proof.
  unfold race. destruct b as [delay outcome|]; simpl; [|lia].
  destruct (delay <=? timerDelay timeout) eqn:Hle; simpl; [|lia].
  by apply Z.leb_le in Hle.
Qed.

Lemma race_readable {Request} (chat : nat → Request → ChatBehaviour) timeout n request :
  readableBackend chat → readable (race timeout (chat n request)).2.
Proof.
  intros Hreadable. unfold race.
  destruct (chat n request) as [delay [response|error]|] eqn:Hchat; simpl; [| |exact I].
  - destruct (delay <=? timerDelay timeout); exact I.
  - destruct (Hreadable n request delay error Hchat) as [message ->].
    destruct (delay <=? timerDelay timeout); exact I.
Qed.

Lemma catch_config now startTime task error sw :
  config (executeAgentTask_catch now startTime task error sw).1 = config sw.
Proof. apply (settle_config now startTime task (ChatRejected error) sw). Qed.

Lemma catch_taskId now startTime task error sw value :
  (executeAgentTask_catch now startTime task error sw).2 = FulfilledWith value →
  taskId value = id task.
Proof.
  unfold executeAgentTask_catch. simpl.
  destruct (agentEfficiency (swarmMetrics sw) !! agentId task); [|done].
  destruct (messageOf error); [done|]. simpl. by intros [= <-].
Qed.

Lemma executeAgentTask_ref chat task s :
  (executeAgentTask chat task s).2 = length (promises s).
Proof.
  unfold executeAgentTask.
  destruct (executeAgentTask_start _ _ _) as [reason|[sw [typeError|request]]]; [done| |].
  - by destruct (executeAgentTask_catch _ _ _ _ _).
  - by destruct (race _ _).
Qed.

Section WithinCeiling.

Variable chat : nat → ChatRequest → ChatBehaviour.

Lemma loopTurn_below task s activeTasks :
  Z.of_nat (length activeTasks) < maxConcurrentAgents (config (swarm s)) →
  loopTurn chat task s activeTasks =
    Returns (startTask chat task s) (activeTasks ++ [length (promises s)]).
Proof.
  intros Hbelow. unfold loopTurn, startTask.
  replace (Z.of_nat (length activeTasks) >=? maxConcurrentAgents (config (swarm s)))
    with false by (symmetry; rewrite Z.geb_leb; apply Z.leb_gt; lia).
  unfold executeAgentTask.
  destruct (executeAgentTask_start _ _ _) as [reason|[sw [typeError|request]]]; [done| |].
  - by destruct (executeAgentTask_catch _ _ _ _ _).
  - by destruct (race _ _).
Qed.

(** What a call of [executeAgentTask] leaves as it was. *)
Lemma startTask_shape task s :
  length (promises (startTask chat task s)) = S (length (promises s)) ∧
  clock (startTask chat task s) = clock s ∧
  config (swarm (startTask chat task s)) = config (swarm s).
Proof.
  unfold startTask, executeAgentTask.
  destruct (executeAgentTask_start _ _ _) as [reason|[sw [typeError|request]]] eqn:Hstart.
  - simpl. rewrite length_alter, length_app. simpl. split; [lia|done].
  - destruct (start_metrics _ _ _ _ _ Hstart) as [_ Hconfig].
    pose proof (catch_config (clock s) (clock s) task typeError sw) as Hcatch.
    destruct (executeAgentTask_catch _ _ _ _ _) as [sw' outcome]. simpl in *.
    rewrite length_alter, length_app. simpl. split; [lia|]. split; [done|congruence].
  - destruct (start_metrics _ _ _ _ _ Hstart) as [_ Hconfig].
    destruct (race _ _) as [elapsed raced]. simpl.
    rewrite length_alter, length_app. simpl. split; [lia|done].
Qed.

(** While the array is below the ceiling the loop starts one task after the
    other without waiting. *)
Lemma loopOver_below tasks s activeTasks :
  Z.of_nat (length activeTasks + length tasks) ≤ maxConcurrentAgents (config (swarm s)) →
  ∃ s',
    loopOver chat tasks s activeTasks =
      Returns s' (activeTasks ++ seq (length (promises s)) (length tasks)) ∧
    length (promises s') = (length (promises s) + length tasks)%nat ∧
    clock s' = clock s.
Proof.
  revert s activeTasks.
  induction tasks as [|task rest IH]; intros s activeTasks Hroom; simpl.
  - exists s. by rewrite !app_nil_r, Nat.add_0_r.
  - rewrite loopTurn_below by (simpl in Hroom; lia).
    destruct (startTask_shape task s) as (Hlen & Hclock & Hconfig).
    destruct (IH (startTask chat task s) (activeTasks ++ [length (promises s)]))
      as (s' & Hloop & Hlen' & Hclock').
    { rewrite Hconfig, length_app. simpl in *. lia. }
    exists s'. rewrite Hloop, Hlen', Hclock', Hlen, <- app_assoc. simpl.
    split; [done|]. split; [lia|done].
Qed.

Lemma latest_due_bound s refs t ref d :

  latest_due s refs = Some t → ref ∈ refs → dueOf s ref = Some d → d ≤ t.
Proof.
  revert t. induction refs as [|ref' refs IH]; intros t; simpl; [by intros _ ?%not_elem_of_nil|].
  intros Ht Hin Hd. apply elem_of_cons in Hin as [->|Hin].
  - rewrite Hd in Ht. destruct (latest_due s refs); injection Ht as <-; lia.
  - destruct (dueOf s ref') as [d'|].
    + destruct (latest_due s refs) as [t'|] eqn:Hrest.
      * injection Ht as <-. specialize (IH t' eq_refl Hin Hd). lia.
      * unfold latest_due in Hrest. simpl in IH.
        exfalso. clear -Hrest Hin Hd.
        induction refs as [|x refs IH]; [by apply not_elem_of_nil in Hin|].
        simpl in Hrest. apply elem_of_cons in Hin as [->|Hin].
        -- rewrite Hd in Hrest. by destruct (foldr _ _ _).
        -- destruct (dueOf s x); [by destruct (foldr _ _ _)|]. by apply IH.
    + by apply IH.
Qed.

Lemma latest_due_None s refs ref :
  latest_due s refs = None → ref ∈ refs → dueOf s ref = None.
Proof.
  induction refs as [|ref' refs IH]; simpl; [by intros _ ?%not_elem_of_nil|].
  intros Hnone Hin. apply elem_of_cons in Hin as [->|Hin].
  - destruct (dueOf s ref'); [|done]. by destruct (latest_due s refs).
  - destruct (dueOf s ref'); [by destruct (latest_due s refs)|]. by apply IH.
Qed.

Lemma Map_set_fresh {V} k (v : V) m : k ∉ m.*1 → Map_set k v m = m ++ [(k, v)].
Proof.
  induction m as [|[k' v'] m IH]; intros Hfresh; simpl; [done|].
  simpl in Hfresh. apply not_elem_of_cons in Hfresh as [Hne Hfresh].
  rewrite bool_decide_eq_false_2 by done. by rewrite IH.
Qed.

Lemma collect_fulfilled values results :
  NoDup (results.*1 ++ (taskId <$> values)) →
  foldl collect results (FulfilledWith <$> values) =
    results ++ ((λ value, (taskId value, value)) <$> values).
Proof.
  revert results. induction values as [|value values IH]; intros results Hnodup; simpl.
  - by rewrite app_nil_r.
  - simpl in Hnodup. apply NoDup_app in Hnodup as (Hres & Hdisj & Hvals).
    apply NoDup_cons in Hvals as [Hvalue Hvals].
    rewrite Map_set_fresh by (intros Hin; apply (Hdisj _ Hin), list_elem_of_here).
    rewrite IH.
    + by rewrite <- app_assoc.
    + rewrite fmap_app. simpl. rewrite <- app_assoc. simpl.
      apply NoDup_app. split; [done|]. split; [|by apply NoDup_cons].
      intros k Hk. apply Hdisj. exact Hk.
Qed.

Lemma insertSorted_perm {A} (cmp : A → A → Z) x l : insertSorted cmp x l ≡ₚ x :: l.
Proof.
  induction l as [|y l IH]; simpl; [done|].
  destruct (cmp x y <=? 0); [done|]. rewrite IH. apply Permutation_swap.
Qed.

Lemma sort_perm {A} (cmp : A → A → Z) l : sort cmp l ≡ₚ l.
Proof.
  induction l as [|x l IH]; simpl; [done|].
  unfold sort in *. simpl. by rewrite insertSorted_perm, IH.
Qed.

Lemma settleBy_done t p : isDone p → settleBy t p = p.
Proof. intros [outcome Hp]. unfold settleBy. by rewrite Hp. Qed.

Lemma settleBy_started t r :
  readable (run_raced r) →
  run_due r ≤ t →
  settleBy t (promiseOf r) = fulfilledOf r.
Proof.
  intros Hreadable Hdue. unfold settleBy, promiseOf, fulfilledOf, resultOf. simpl.
  rewrite (proj2 (Z.leb_le _ _) Hdue). by rewrite settledOutcome_readable.
Qed.

Lemma taskId_resultOf r : taskId (resultOf r) = id (run_task r).
Proof. unfold resultOf, settledResult. by destruct (run_raced r) as [[| |]| |]. Qed.

Lemma resultFor_resultOf r : resultFor (run_task r) (taskId (resultOf r), resultOf r).
Proof.
  unfold resultFor, resultOf, settledResult.
  by destruct (run_raced r) as [[| |]| |].
Qed.

End WithinCeiling.

(** ** The whole run *)


(** ** The timeout *)

Lemma executeAgentTask_known chat task s :
  efficiencyKnown s →
  is_Some (agentEfficiency (swarmMetrics (swarm s)) !! agentId task) →
  efficiencyKnown (executeAgentTask chat task s).1.
Proof.
  intros Hknown Heff. unfold executeAgentTask.
  destruct (executeAgentTask_start (clock s) task (swarm s))
    as [reason|[sw [typeError|request]]] eqn:Hstart.
  - intros p r Hp Hstate. simpl in *. apply elem_of_app in Hp as [Hp|Hp].
    + by apply (Hknown p r).
    + apply list_elem_of_singleton in Hp as ->. done.
  - destruct (start_metrics _ _ _ _ _ Hstart) as [Hmetrics _].
    pose proof (catch_efficiency (clock s) (clock s) task typeError sw) as Hcatch.
    destruct (executeAgentTask_catch _ _ _ _ _) as [sw' outcome].
    intros p r Hp Hstate. simpl in *. rewrite Hcatch, Hmetrics, lookup_alter.
    apply elem_of_app in Hp as [Hp|Hp].
    + case_decide as Heq; rewrite ?fmap_is_Some, ?Heq; by apply (Hknown p r).
    + apply list_elem_of_singleton in Hp as ->. done.
  - destruct (start_metrics _ _ _ _ _ Hstart) as [Hmetrics _].
    destruct (race _ _) as [elapsed raced].
    intros p r Hp Hstate. simpl in *. rewrite Hmetrics.
    apply elem_of_app in Hp as [Hp|Hp].
    + by apply (Hknown p r).
    + apply list_elem_of_singleton in Hp as ->. simpl in Hstate. by injection Hstate as <-.
Qed.

(** C4, as the code has it: when the prompt of a task is built and its
    inference call has not settled by the time the timer of line 271 is due
    ([taskTimeout] ms after the start for a [taskTimeout] from 1 to
    2^31 - 1, and 1 ms after it for any other, which [setTimeout] replaces
    by 1), the promise of [executeAgentTask] is pending until then and is
    fulfilled from then on, whatever the call does later, with a result
    whose [success] is false and whose [error] is the message
    "Task timeout". The result has no other mark of a timeout: the
    continuation is the one of a call rejected with that message. *)
Theorem executeAgentTask_timeout chat task s a :
  agents (swarm s) !! agentId task = Some a →
  is_Some (agentEfficiency (swarmMetrics (swarm s)) !! agentId task) →
  efficiencyKnown s →
  promptable task = true →
  slowerThan (timerDelay (taskTimeout (config (swarm s))))
    (chat (length (calls s)) (agentRequest a task)) →
  let timeout := timerDelay (taskTimeout (config (swarm s))) in
  let due := clock s + timeout in
  let started := (executeAgentTask chat task s).1 in
  let taskPromise := (executeAgentTask chat task s).2 in
  (1 ≤ taskTimeout (config (swarm s)) ≤ 2147483647 →
   timeout = taskTimeout (config (swarm s))) ∧
  dueOf started taskPromise = Some due ∧
  (∀ t, t < due → settledOf (advance t started) taskPromise = None) ∧
  (∀ t, due ≤ t →
     settledOf (advance t started) taskPromise =
       Some (FulfilledWith {| taskId := id task;
                              res_agentId := agentId task;
                              res_type := type task;
                              success := false;
                              result := Undefined;
                              reasoning := Undefined;
                              error := Str "Task timeout";
                              executionTime := timeout;
                              timestamp := due |})) ∧
  (∀ now startTime sw,
     executeAgentTask_settle now startTime task TimerFired sw =
     executeAgentTask_settle now startTime task (ChatRejected (Str "Task timeout")) sw).
Proof.
  intros Ha Heff Hknown Hprompt Hslow timeout due started taskPromise.
  pose proof (executeAgentTask_known chat task s Hknown Heff) as Hknown'.
  fold started in Hknown'.
  assert (Hrace : race (taskTimeout (config (swarm s)))
                    (chat (length (calls s)) (agentRequest a task))
                  = (timeout, TimerFired)).
  { unfold race. fold timeout in Hslow |- *.
    destruct (chat (length (calls s)) (agentRequest a task)) as [delay outcome|]; [|done].
    simpl in Hslow. by rewrite (proj2 (Z.leb_gt delay timeout)) by lia. }
  assert (Hstarted : promises started !! taskPromise =
                     Some {| promise_state := Pending {| run_task := task;
                                                         run_startTime := clock s;
                                                         run_due := due;
                                                         run_raced := TimerFired |};
                             promise_id := None |}).
  { subst started taskPromise. unfold executeAgentTask.
    rewrite (start_registered _ _ _ a Ha Hprompt). simpl. rewrite Hrace. simpl.
    by rewrite lookup_app_r, Nat.sub_diag. }
  assert (Hadvance : ∀ t, promises (advance t started) !! taskPromise =
                          Some (settleBy t {| promise_state :=
                                                Pending {| run_task := task;
                                                           run_startTime := clock s;
                                                           run_due := due;
                                                           run_raced := TimerFired |};
                                              promise_id := None |})).
  { intros t. destruct (advance_promises t started Hknown') as [-> _].
    by rewrite list_lookup_fmap, Hstarted. }
  split; [|split; [|split; [|split]]].
  - intros Hrange. subst timeout. unfold timerDelay.
    rewrite (proj2 (Z.leb_le _ _)), (proj2 (Z.leb_le _ _)) by lia. done.
  - unfold dueOf. by rewrite Hstarted.
  - intros t Ht. unfold settledOf. rewrite Hadvance. unfold settleBy. simpl.
    by rewrite (proj2 (Z.leb_gt due t)) by lia.
  - intros t Ht. unfold settledOf. rewrite Hadvance. unfold settleBy. simpl.
    rewrite (proj2 (Z.leb_le due t)) by lia. simpl. unfold failedResult.
    do 3 f_equal. subst due. lia.
  - reflexivity.
Qed.

Lemma executeAgentTask_timeout_witness :
  let s := freshSim defaultConfig 0 in
  let started := (executeAgentTask hangingBackend architectureTask s).1 in
  (∃ a, agents (swarm s) !! "architect" = Some a ∧
        promptable architectureTask = true ∧
        slowerThan (timerDelay 120000)
          (hangingBackend (length (calls s)) (agentRequest a architectureTask))) ∧
  dueOf started 0%nat = Some 120000 ∧
  settledOf (advance 119999 started) 0%nat = None ∧
  ∃ r, settledOf (advance 120000 started) 0%nat = Some (FulfilledWith r) ∧
       success r = false ∧
       error r = Str "Task timeout" ∧
       executionTime r = 120000.
Proof.
  intros s started.
  assert (Ha : agents (swarm s) !! agentId architectureTask =
               Some (newAgent "architect" {|
                       def_name := "Architecture Analyst";
                       def_model := "x-ai/grok-code-fast-1";
                       def_specialization := "system-architecture";
                       def_capabilities :=
                         ["architecture-analysis"; "design-patterns";
                          "scalability-assessment"];
                       def_prompt :=
                         "You are an expert software architect specializing in system design analysis." |}))
    by (vm_compute; reflexivity).
  assert (Heff : is_Some (agentEfficiency (swarmMetrics (swarm s)) !! agentId architectureTask))
    by (exists newEfficiency; vm_compute; reflexivity).
  assert (Hknown : efficiencyKnown s)
    by (intros p r Hp; by apply not_elem_of_nil in Hp).
  split.
  - eexists. split; [exact Ha|]. split; [reflexivity|exact I].
  - destruct (executeAgentTask_timeout hangingBackend architectureTask s _ Ha Heff Hknown
                eq_refl I)
      as (_ & Hdue & Hbefore & Hafter & _).
    split; [exact Hdue|].
    split; [apply Hbefore; vm_compute; reflexivity|].
    eexists. split; [apply Hafter; vm_compute; discriminate|]. repeat split.
Defined.

(** A call that fails with the message "Task timeout" and a call that
    never returns leave results with the same [error]; apart from the times
    the two results are the same, and so are the two instances. *)
Lemma timeout_looks_like_inference_error :
  ∃ s1 r1 s2 r2,
    executeSwarmTasks hangingBackend [architectureTask] (freshSim defaultConfig 0)
      = Returns s1 [("arch-0", r1)] ∧
    executeSwarmTasks rejectingBackend [architectureTask] (freshSim defaultConfig 0)
      = Returns s2 [("arch-0", r2)] ∧
    success r1 = false ∧
    success r2 = false ∧
    error r1 = Str "Task timeout" ∧
    error r2 = error r1 ∧
    result r2 = result r1 ∧
    reasoning r2 = reasoning r1 ∧
    swarm s2 = swarm s1.
Proof.
  eexists _, _, _, _.
  split; [vm_compute; reflexivity|].
  split; [vm_compute; reflexivity|].
  repeat split.
Qed.

(** ** The order of the tasks *)

Lemma insertSorted_front (x : Task) l :
  match l with
  | [] => True
  | y :: _ => comparePriority x y ≤ 0
  end →
  insertSorted comparePriority x l = x :: l.
Proof.
  destruct l as [|y l]; [done|]. simpl. intros Hle.
  by rewrite (proj2 (Z.leb_le _ _) Hle).
Qed.

Lemma insertSorted_after (x : Task) pre post :
  Forall (λ y, 0 < comparePriority x y) pre →
  insertSorted comparePriority x (pre ++ post) = pre ++ insertSorted comparePriority x post.
Proof.
  induction 1 as [|y pre Hy _ IH]; [done|].
  simpl. rewrite (proj2 (Z.leb_gt _ _) Hy). by rewrite IH.
Qed.

Lemma withPriority_rank p tasks :
  Forall (λ task, priority task = p) (withPriority p tasks).
Proof.
  unfold withPriority. apply Forall_forall. intros task Hin.
  apply list_elem_of_In, filter_In in Hin as [_ Hrank].
  apply Z.eqb_eq in Hrank. by destruct (priority task), p.
Qed.

Lemma withPriority_cons p x tasks :
  withPriority p (x :: tasks) =
    if priorityRank (priority x) =? priorityRank p
    then x :: withPriority p tasks else withPriority p tasks.
Proof. reflexivity. Qed.

(** The sorted list has the tasks of high priority first, then those of
    medium and then those of low priority, each group in the order of
    submission. *)
Lemma sort_by_priority tasks :
  sort comparePriority tasks =
    withPriority high tasks ++ withPriority medium tasks ++ withPriority low tasks.
Proof.
  induction tasks as [|x tasks IH]; [done|].
  change (sort comparePriority (x :: tasks))
    with (insertSorted comparePriority x (sort comparePriority tasks)).
  rewrite IH, !withPriority_cons. clear IH.
  pose proof (withPriority_rank high tasks) as Hhigh.
  pose proof (withPriority_rank medium tasks) as Hmedium.
  pose proof (withPriority_rank low tasks) as Hlow.
  assert (Hbefore : ∀ p l, Forall (λ task, priority task = p) l →
                    0 < priorityRank p - priorityRank (priority x) →
                    Forall (λ y, 0 < comparePriority x y) l).
  { intros p l Hall Hlt. eapply Forall_impl; [exact Hall|].
    intros y Hy. simpl in Hy. unfold comparePriority. by rewrite Hy. }
  set (highs := withPriority high tasks) in *.
  set (mediums := withPriority medium tasks) in *.
  set (lows := withPriority low tasks) in *.
  destruct (priority x) eqn:Hx; simpl.
  - apply insertSorted_front.
    destruct highs as [|y rest]; simpl.
    + destruct mediums as [|y rest]; simpl.
      * destruct lows as [|y rest]; [done|].
        apply Forall_cons in Hlow as [Hy _]. unfold comparePriority. rewrite Hx, Hy. simpl. lia.
      * apply Forall_cons in Hmedium as [Hy _].
        unfold comparePriority. rewrite Hx, Hy. simpl. lia.
    + apply Forall_cons in Hhigh as [Hy _].
      unfold comparePriority. rewrite Hx, Hy. simpl. lia.
  - rewrite insertSorted_after by (apply (Hbefore high); [done|simpl; lia]).
    f_equal. apply insertSorted_front.
    destruct mediums as [|y rest]; simpl.
    + destruct lows as [|y rest]; [done|].
      apply Forall_cons in Hlow as [Hy _]. unfold comparePriority. rewrite Hx, Hy. simpl. lia.
    + apply Forall_cons in Hmedium as [Hy _].
      unfold comparePriority. rewrite Hx, Hy. simpl. lia.
  - rewrite app_assoc, insertSorted_after.
    + rewrite <- app_assoc. do 2 f_equal. apply insertSorted_front.
      destruct lows as [|y rest]; [done|].
      apply Forall_cons in Hlow as [Hy _]. unfold comparePriority. rewrite Hx, Hy. simpl. lia.
    + apply Forall_app. split.
      * apply (Hbefore high); [done|simpl; lia].
      * apply (Hbefore medium); [done|simpl; lia].
Qed.

Ltac split_requests :=
  unfold createSwarmTasks, pushTask;
  repeat match goal with
         | |- context [includes ?k ?l || includes ?k' ?l] =>
             destruct (includes k l || includes k' l)
         end.

(** Whatever is requested, the tasks are some of the six of a comprehensive
    request, in the same order. *)
Lemma createSwarmTasks_sublist now repository analysisTypes :
  createSwarmTasks now repository analysisTypes
    `sublist_of` createSwarmTasks now repository ["comprehensive"].
Proof.
  unfold createSwarmTasks, pushTask.
  change (includes "comprehensive" ["comprehensive"]) with true. cbn [orb].
  repeat match goal with
         | |- context [includes ?k ?l || includes ?k' ?l] =>
             destruct (includes k l || includes k' l)
         end; simpl;
    repeat first [apply sublist_nil | apply sublist_skip | apply sublist_cons].
Qed.

Lemma createSwarmTasks_sorted now repository analysisTypes :
  sort comparePriority (createSwarmTasks now repository analysisTypes) =
  createSwarmTasks now repository analysisTypes.
Proof. split_requests; reflexivity. Qed.

(** ** The executor under its ceiling, with unknown agents *)

Section BelowCeiling.

Variable chat : nat → ChatRequest → ChatBehaviour.

Lemma startTask_started task s :
  hasEntryIfKnown (swarm s) task →
  ∃ st, startedTask st = task ∧
        startedIn s st ∧
        (readableBackend chat → startedReadable st) ∧
        promises (startTask chat task s) = promises s ++ [startedPromise st] ∧
        clock (startTask chat task s) = clock s ∧
        config (swarm (startTask chat task s)) = config (swarm s) ∧
        (∀ k, is_Some (agentEfficiency (swarmMetrics (swarm (startTask chat task s))) !! k) ↔
              is_Some (agentEfficiency (swarmMetrics (swarm s)) !! k)) ∧
        (∀ k, is_Some (agents (swarm (startTask chat task s)) !! k) ↔
              is_Some (agents (swarm s) !! k)).
Proof.
  intros Hentry. unfold startTask, executeAgentTask.
  destruct (agents (swarm s) !! agentId task) as [a|] eqn:Ha.
  - destruct (promptable task) eqn:Hprompt.
    + rewrite (start_registered _ _ _ a Ha Hprompt).
      pose proof (race_elapsed (taskTimeout (config (swarm s)))
                    (chat (length (calls s)) (agentRequest a task))) as Hrace.
      pose proof (race_readable chat (taskTimeout (config (swarm s))) (length (calls s))
                    (agentRequest a task)) as Hread.
      simpl. destruct (race _ _) as [elapsed raced]. simpl in *.
      exists (Run {| run_task := task; run_startTime := clock s;
                     run_due := clock s + elapsed; run_raced := raced |}).
      split; [done|].
      split; [simpl; rewrite Ha; split; [by eexists|split; [done|split; [done|lia]]]|].
      split; [done|].
      split; [|split; [done|split; [done|split; [done|]]]].
      * by rewrite alter_app_r_alt, Nat.sub_diag by done.
      * intros k. rewrite lookup_alter. case_decide; [subst k|done]. by rewrite fmap_is_Some.
    + destruct (start_no_prompt (clock s) _ _ a Ha Hprompt) as (typeError & Hcontext & ->).
      destruct Hentry as [e He]; [by eexists|].
      unfold executeAgentTask_catch. simpl. rewrite He. simpl.
      exists (NoPrompt {| run_task := task; run_startTime := clock s;
                          run_due := clock s; run_raced := ChatRejected typeError |}).
      split; [done|].
      split; [simpl; rewrite Ha; split; [by eexists|split; [by exists typeError|done]]|].
      split; [done|].
      split; [|split; [done|split; [done|split]]].
      * by rewrite alter_app_r_alt, Nat.sub_diag by done.
      * intros k. rewrite lookup_alter. case_decide; [subst k|done]. by rewrite fmap_is_Some.
      * intros k. rewrite !lookup_alter.
        repeat case_decide; subst; rewrite ?fmap_is_Some; done.
  - unfold executeAgentTask_start. rewrite Ha.
    exists (NoAgent task). simpl. split; [done|]. split; [done|]. split; [done|].
    split; [|done]. by rewrite alter_app_r_alt, Nat.sub_diag by done.
Qed.

Lemma startedIn_transport s s' st :
  clock s' = clock s →
  config (swarm s') = config (swarm s) →
  (∀ k, is_Some (agents (swarm s') !! k) ↔ is_Some (agents (swarm s) !! k)) →
  startedIn s' st → startedIn s st.
Proof.
  intros Hclock Hconfig Hdom. destruct st as [task|r|r]; simpl.
  - rewrite !eq_None_not_Some. by rewrite Hdom.
  - by rewrite Hclock, Hdom.
  - by rewrite Hclock, Hconfig, Hdom.
Qed.

(** Below the ceiling the loop starts every task at once, those of unknown
    agents and those without a prompt too. *)
Lemma loopOver_started tasks s activeTasks :
  Z.of_nat (length activeTasks + length tasks) ≤ maxConcurrentAgents (config (swarm s)) →
  Forall (hasEntryIfKnown (swarm s)) tasks →
  ∃ s' started,
    loopOver chat tasks s activeTasks =
      Returns s' (activeTasks ++ seq (length (promises s)) (length tasks)) ∧
    promises s' = promises s ++ (startedPromise <$> started) ∧
    startedTask <$> started = tasks ∧
    Forall (startedIn s) started ∧
    (readableBackend chat → Forall startedReadable started) ∧
    clock s' = clock s ∧
    (∀ k, is_Some (agentEfficiency (swarmMetrics (swarm s')) !! k) ↔
          is_Some (agentEfficiency (swarmMetrics (swarm s)) !! k)).
Proof.
  revert s activeTasks.
  induction tasks as [|task rest IH]; intros s activeTasks Hroom Hentries; simpl.
  - exists s, []. by rewrite !app_nil_r.
  - apply Forall_cons in Hentries as [Hentry Hentries].
    rewrite loopTurn_below by (simpl in Hroom; lia).
    destruct (startTask_started task s Hentry)
      as (st & Hst & Hin & Hread & Hps & Hclock & Hconfig & Heff & Hdom).
    destruct (IH (startTask chat task s) (activeTasks ++ [length (promises s)]))
      as (s' & started & Hloop & Hps' & Hstarted & Hall & Hreads & Hclock' & Heff').
    { rewrite Hconfig, length_app. simpl in *. lia. }
    { eapply Forall_impl; [exact Hentries|]. intros task' Htask'. unfold hasEntryIfKnown.
      by rewrite Heff, Hdom. }
    exists s', (st :: started). rewrite Hloop, Hps', Hps, Hclock', length_app.
    simpl. rewrite <- !app_assoc. simpl. rewrite Nat.add_1_r.
    split; [done|]. split; [done|]. split; [by f_equal|].
    split; [|split; [|split; [done|]]].
    + constructor; [done|]. eapply Forall_impl; [exact Hall|].
      intros st'. by apply startedIn_transport.
    + intros Hreadable. constructor; [by apply Hread|by apply Hreads].
    + intros k. by rewrite Heff', Heff.
Qed.

Lemma settleBy_all_done t ps : Forall isDone ps → settleBy t <$> ps = ps.
Proof.
  induction 1 as [|p ps Hp _ IH]; [done|].
  by rewrite fmap_cons, (settleBy_done t p Hp), IH.
Qed.

Lemma outcomes_of_slots s t old started :
  promises s = settleBy t <$> (old ++ (startedPromise <$> started)) →
  Forall startedReadable started →
  Forall (λ st, match st with Run r => run_due r ≤ t | _ => True end) started →
  omap (settledOf s) (seq (length old) (length started)) = startedOutcome <$> started.
Proof.
  intros Hps Hread Hdue. revert old Hps Hread.
  induction Hdue as [|st started Hst _ IH]; intros old Hps Hread; [done|].
  apply Forall_cons in Hread as [Hreadable Hread].
  simpl. unfold settledOf at 1. rewrite Hps.
  rewrite list_lookup_fmap, lookup_app_r, Nat.sub_diag by done. simpl.
  assert (Hone : promise_state (settleBy t (startedPromise st)) = Done (startedOutcome st)).
  { destruct st as [task|r|r]; simpl; [done|done|].
    by rewrite (settleBy_started t r Hreadable Hst). }
  destruct (settleBy t (startedPromise st)) as [state pid]. simpl in Hone. subst state.
  f_equal. specialize (IH (old ++ [startedPromise st])).
  rewrite length_app, Nat.add_1_r in IH. apply IH; [|done].
  by rewrite Hps, <- app_assoc.
Qed.

Lemma dueOf_slot s old started i r :
  promises s = old ++ (startedPromise <$> started) →
  started !! i = Some (Run r) →
  dueOf s (length old + i) = Some (run_due r).
Proof.
  intros Hps Hi. unfold dueOf.
  rewrite Hps, lookup_app_r, Nat.add_sub_swap, Nat.sub_diag by lia. simpl.
  by rewrite list_lookup_fmap, Hi.
Qed.

Lemma collect_started started results :
  NoDup (results.*1 ++ (id <$> (startedTask <$> started))) →
  foldl collect results (startedOutcome <$> started) =
    results ++ (entryOf <$> omap startedRun started).
Proof.
  revert results. induction started as [|st started IH]; intros results Hnodup.
  - by rewrite app_nil_r.
  - rewrite !fmap_cons in Hnodup. rewrite fmap_cons. simpl.
    apply NoDup_app in Hnodup as (Hres & Hdisj & Htasks).
    apply NoDup_cons in Htasks as [Hst Htasks].
    assert (Hrun : ∀ r, startedTask st = run_task r →
              foldl collect (Map_set (taskId (resultOf r)) (resultOf r) results)
                (startedOutcome <$> started) =
              results ++ entryOf r :: (entryOf <$> omap startedRun started)).
    { intros r Hr. rewrite taskId_resultOf. rewrite Hr in Hdisj, Hst.
      rewrite Map_set_fresh by (intros Hin; apply (Hdisj _ Hin), list_elem_of_here).
      rewrite IH.
      - rewrite <- app_assoc. simpl. unfold entryOf at 2. by rewrite taskId_resultOf.
      - rewrite fmap_app. simpl. rewrite <- app_assoc. simpl.
        apply NoDup_app. split; [done|]. split; [|by apply NoDup_cons].
        intros k Hk. apply Hdisj. exact Hk. }
    destruct st as [task|r|r]; simpl in *; [|by apply Hrun..].
    apply IH. apply NoDup_app. split; [done|]. split; [|done].
    intros k Hk Hin. apply (Hdisj k Hk). by apply list_elem_of_further.
Qed.

Lemma startedRuns_known s started :
  Forall (startedIn s) started →
  run_task <$> omap startedRun started =
    List.filter (knownAgent (swarm s)) (startedTask <$> started).
Proof.
  induction 1 as [|st started Hst _ IH]; [done|].
  rewrite fmap_cons. simpl. unfold knownAgent at 1.
  destruct st as [task|r|r]; simpl in *.
  - rewrite bool_decide_eq_false_2 by (rewrite Hst; by intros [? ?]). exact IH.
  - destruct Hst as (Hknown & _). rewrite bool_decide_eq_true_2 by done.
    simpl. by f_equal.
  - destruct Hst as (Hknown & _). rewrite bool_decide_eq_true_2 by done.
    simpl. by f_equal.
Qed.

Hypothesis Hreadable : readableBackend chat.

(** The run of a task list that fits under the ceiling, on an instance
    where nothing is in flight, against a backend that rejects no call with
    [null] or [undefined]. *)
Lemma executeSwarmTasks_below_ceiling tasks s :
  Z.of_nat (length tasks) ≤ maxConcurrentAgents (config (swarm s)) →
  Forall (hasEntryIfKnown (swarm s)) tasks →
  NoDup (id <$> tasks) →
  Forall isDone (promises s) →
  ∃ s' runs,
    executeSwarmTasks chat tasks s = Returns s' (entryOf <$> runs) ∧
    run_task <$> runs = List.filter (knownAgent (swarm s)) (sort comparePriority tasks) ∧
    Forall (λ r, run_startTime r = clock s ∧ failsWithoutPrompt (run_task r) (entryOf r))
      runs ∧
    Forall isDone (promises s') ∧
    clock s ≤ clock s' ≤ clock s + timerDelay (taskTimeout (config (swarm s))) ∧
    Forall (λ r, run_due r ≤ clock s + timerDelay (taskTimeout (config (swarm s)))) runs.
Proof.
  intros Hroom Hentries Hnodup Hidle.
  pose proof (timerDelay_range (taskTimeout (config (swarm s)))) as Htimer.
  pose proof (sort_perm comparePriority tasks) as Hperm.
  set (sorted := sort comparePriority tasks) in *.
  assert (Hroom' : Z.of_nat (length ([] : list nat) + length sorted)
                   ≤ maxConcurrentAgents (config (swarm s))).
  { simpl. by rewrite (Permutation_length Hperm). }
  assert (Hnodup' : NoDup (id <$> sorted)) by by rewrite Hperm.
  assert (Hentries' : Forall (hasEntryIfKnown (swarm s)) sorted) by by rewrite Hperm.
  destruct (loopOver_started sorted s [] Hroom' Hentries')
    as (s1 & started & Hloop & Hps & Hstarted & Hin & Hreads & Hclock & Heff).
  specialize (Hreads Hreadable).
  simpl in Hloop.
  assert (Hknown : efficiencyKnown s1).
  { intros p r Hp Hstate. rewrite Hps in Hp. apply elem_of_app in Hp as [Hold|Hnew].
    - rewrite Forall_forall in Hidle. destruct (Hidle p Hold) as [outcome Hdone]. congruence.
    - apply list_elem_of_fmap in Hnew as (st & -> & Hst).
      rewrite Forall_forall in Hin. pose proof (Hin st Hst) as Hst'.
      destruct st as [task|r'|r']; simpl in Hstate; [done|done|].
      injection Hstate as <-. rewrite Heff.
      rewrite Forall_forall in Hentries'. apply Hentries'; [|by destruct Hst'].
      rewrite <- Hstarted. apply list_elem_of_fmap. by exists (Run r'). }
  assert (Hlen : length sorted = length started) by by rewrite <- Hstarted, length_fmap.
  assert (Hsettled : ∃ s' t,
             Promise_allSettled (seq (length (promises s)) (length sorted)) s1 =
               (s', omap (settledOf s') (seq (length (promises s)) (length sorted))) ∧
             promises s' = settleBy t <$> (promises s ++ (startedPromise <$> started)) ∧
             Forall (λ st, match st with Run r => run_due r ≤ t | _ => True end) started ∧
             clock s ≤ clock s' ≤ clock s + timerDelay (taskTimeout (config (swarm s)))).
  { unfold Promise_allSettled.
    destruct (latest_due s1 (seq (length (promises s)) (length sorted))) as [t|] eqn:Hlatest.
    - exists (advance t s1), t. split; [done|].
      destruct (advance_promises t s1 Hknown) as [Hadv _].
      split; [by rewrite Hadv, Hps|]. split.
      + apply Forall_lookup. intros i [task|r|r] Hi; [done|done|].
        eapply (latest_due_bound s1 _ t (length (promises s) + i)%nat); [exact Hlatest| |].
        * apply elem_of_seq. apply lookup_lt_Some in Hi. lia.
        * by apply (dueOf_slot s1 (promises s) started).
      + simpl. rewrite Hclock. split; [lia|].
        assert (Hbound : t ≤ clock s + timerDelay (taskTimeout (config (swarm s)))); [|lia].
        clear -Hlatest Hps Hin Hlen. rewrite Hlen in Hlatest.
        assert (Hdues : ∀ i d, dueOf s1 (length (promises s) + i) = Some d →
                               d ≤ clock s + timerDelay (taskTimeout (config (swarm s)))).
        { intros i d. unfold dueOf. rewrite Hps.
          rewrite lookup_app_r, Nat.add_sub_swap, Nat.sub_diag by lia. simpl.
          rewrite list_lookup_fmap.
          destruct (started !! i) as [st|] eqn:Hi; [|done]. simpl.
          rewrite Forall_forall in Hin.
          assert (Hst : startedIn s st)
            by (apply Hin, list_elem_of_lookup; eauto).
          destruct st as [task|r|r]; simpl; [done|done|].
          intros [= <-]. by destruct Hst as (_ & _ & _ & ?). }
        revert t Hlatest. generalize (length started) as n.
        assert (Hgen : ∀ n k t,
                  latest_due s1 (seq (length (promises s) + k) n) = Some t →
                  t ≤ clock s + timerDelay (taskTimeout (config (swarm s)))).
        { induction n as [|n IH]; intros k t; simpl; [done|].
          destruct (dueOf s1 (length (promises s) + k)) as [d|] eqn:Hd.
          - pose proof (Hdues k d Hd) as Hle.
            destruct (latest_due s1 (seq (S (length (promises s) + k)) n)) as [t'|] eqn:Hrest.
            + intros [= <-]. rewrite <- Nat.add_succ_r in Hrest.
              specialize (IH (S k) t' Hrest). lia.
            + by intros [= <-].
          - rewrite <- Nat.add_succ_r. apply IH. }
        intros n t Hlatest. apply (Hgen n 0%nat t). by rewrite Nat.add_0_r.
    - exists s1, 0. split; [done|].
      assert (Hno : Forall (λ st, match st with Run _ => False | _ => True end) started).
      { apply Forall_lookup. intros i [task|r|r] Hi; [done|done|]. exfalso.
        assert (Hdue : dueOf s1 (length (promises s) + i) = Some (run_due r))
          by by apply (dueOf_slot s1 (promises s) started).
        erewrite (latest_due_None s1) in Hdue; [done|exact Hlatest|].
        apply elem_of_seq. apply lookup_lt_Some in Hi. lia. }
      split; [|split; [|rewrite Hclock; lia]].
      + symmetry. rewrite <- Hps. apply settleBy_all_done.
        rewrite Hps. apply Forall_app. split; [done|].
        apply Forall_fmap. eapply Forall_impl; [exact Hno|].
        intros [task|r|r]; [by eexists|by eexists|done].
      + eapply Forall_impl; [exact Hno|]. by intros [task|r|r]. }
  destruct Hsettled as (s' & t & Hall & Hps' & Hdue & Hclock').
  unfold executeSwarmTasks. fold sorted. rewrite Hloop, Hall.
  rewrite Hlen, (outcomes_of_slots s' t (promises s) started Hps' Hreads Hdue).
  exists s', (omap startedRun started).
  rewrite collect_started by (by rewrite Hstarted).
  split; [done|]. split; [by rewrite (startedRuns_known s), Hstarted|].
  split; [|split; [|split; [done|]]].
  - clear -Hin. induction Hin as [|st started Hst _ IH]; [by constructor|].
    destruct st as [task|r|r]; simpl; [done|..]; (constructor; [|done]).
    + destruct Hst as (_ & (typeError & Hcontext & Hraced) & Hat & _).
      split; [done|]. intros _. unfold entryOf, resultOf. simpl.
      rewrite Hraced. simpl. by rewrite Hcontext.
    + destruct Hst as (_ & Hprompt & Hat & _).
      split; [done|]. intros Hno. congruence.
  - rewrite Hps'. apply Forall_fmap, Forall_app. split.
    + eapply Forall_impl; [exact Hidle|]. intros p Hp. simpl. by rewrite settleBy_done.
    + apply Forall_fmap. apply Forall_lookup. intros i st Hi. simpl.
      rewrite Forall_lookup in Hdue, Hreads.
      specialize (Hdue i st Hi). specialize (Hreads i st Hi).
      destruct st as [task|r|r]; simpl; [by eexists|by eexists|].
      rewrite (settleBy_started t r Hreads Hdue). by eexists.
  - clear -Hin Htimer. induction Hin as [|st started Hst _ IH]; [by constructor|].
    destruct st as [task|r|r]; simpl; [done|..]; (constructor; [|done]).
    + destruct Hst as (_ & _ & _ & ->). lia.
    + by destruct Hst as (_ & _ & _ & ?).
Qed.

(** A task list that fits under the ceiling, with registered agents and
    distinct ids, on an instance where nothing is in flight, against a
    backend that rejects no call with [null] or [undefined]: every task is
    started at once, the executor returns when the last of them has
    terminated, and the map it returns has one result for each task, under
    the task's id, in the order of the sorted list. *)
Theorem executeSwarmTasks_within_ceiling tasks s :
  Z.of_nat (length tasks) ≤ maxConcurrentAgents (config (swarm s)) →
  Forall (registered (swarm s)) tasks →
  NoDup (id <$> tasks) →
  Forall isDone (promises s) →
  ∃ s' results,
    executeSwarmTasks chat tasks s = Returns s' results ∧
    Forall2 resultFor (sort comparePriority tasks) results ∧
    Forall isDone (promises s').
Proof.
  intros Hroom Hreg Hnodup Hidle.
  destruct (executeSwarmTasks_below_ceiling tasks s Hroom) as (s' & runs & Hrun & Hruns & _ & Hdone & _).
  { eapply Forall_impl; [exact Hreg|]. by intros task [_ He] _. }
  { exact Hnodup. }
  { exact Hidle. }
  exists s', (entryOf <$> runs). split; [exact Hrun|]. split; [|exact Hdone].
  assert (Hall : List.filter (knownAgent (swarm s)) (sort comparePriority tasks) =
                 sort comparePriority tasks).
  { assert (Hgen : ∀ l, Forall (registered (swarm s)) l →
                         List.filter (knownAgent (swarm s)) l = l).
    { induction 1 as [|task rest [Ha _] _ IH]; [done|].
      simpl. unfold knownAgent at 1. rewrite bool_decide_eq_true_2 by done. by f_equal. }
    apply Hgen. by rewrite sort_perm. }
  rewrite Hall in Hruns. rewrite <- Hruns. clear.
  induction runs as [|r runs IH]; [by constructor|].
  rewrite !fmap_cons. constructor; [apply resultFor_resultOf|exact IH].
Qed.

End BelowCeiling.

(** The six tasks of a comprehensive run fit under the default ceiling of
    six: against any backend that rejects no call with [null] or
    [undefined] the executor returns one result for each. *)
Lemma comprehensive_run_is_complete chat :
  readableBackend chat →
  ∃ s' results,
    executeSwarmTasks chat (createSwarmTasks 0 demoRepository ["comprehensive"])
      (freshSim defaultConfig 0) = Returns s' results ∧
    results.*1 = ["arch-0"; "sec-0"; "perf-0"; "qual-0"; "test-0"; "doc-0"] ∧
    Forall isDone (promises s').
Proof.
  intros Hreadable.
  destruct (executeSwarmTasks_within_ceiling chat Hreadable
              (createSwarmTasks 0 demoRepository ["comprehensive"]) (freshSim defaultConfig 0))
    as (s' & results & Hrun & Hresults & Hdone).
  - vm_compute. discriminate.
  - repeat constructor; eexists; vm_compute; reflexivity.
  - apply (bool_decide_unpack _). vm_compute. exact I.
  - constructor.
  - exists s', results. split; [exact Hrun|]. split; [|exact Hdone].
    clear -Hresults.
    let sorted :=
      eval vm_compute in
        (sort comparePriority (createSwarmTasks 0 demoRepository ["comprehensive"])) in
    change (sort comparePriority (createSwarmTasks 0 demoRepository ["comprehensive"]))
      with sorted in Hresults.
    repeat (let entry := fresh "entry" in
            let rest := fresh "rest" in
            let Hkey := fresh "Hkey" in
            apply Forall2_cons_inv_l in Hresults
              as (entry & rest & (Hkey & _) & Hresults & ->);
            destruct entry; simpl in Hkey; subst).
    by apply Forall2_nil_inv_l in Hresults as ->.
Qed.

(** ** The executor beyond its ceiling, in general *)

Lemma findIndex_range {A} (p : A → bool) l :
  findIndex p l = -1 ∨ 0 ≤ findIndex p l < Z.of_nat (length l).
Proof.
  induction l as [|x l IH]; simpl; [by left|].
  destruct (p x); [right; lia|].
  destruct IH as [->|Hrange]; [by left|].
  right. destruct (findIndex p l) as [|i|i]; lia.
Qed.

Lemma findIndex_no_match {A} (p : A → bool) l :
  Forall (λ x, p x = false) l → findIndex p l = -1.
Proof. induction 1 as [|x l Hx _ IH]; simpl; [done|]. by rewrite Hx, IH. Qed.

Lemma splice1_last {A} (l : list A) : splice1 (-1) l = removelast l.
Proof.
  unfold splice1. simpl.
  induction l as [|x l IH]; [done|].
  destruct l as [|y l]; [done|].
  replace (Z.to_nat (Z.max (Z.of_nat (length (x :: y :: l)) + -1) 0))
    with (S (Z.to_nat (Z.max (Z.of_nat (length (y :: l)) + -1) 0)))
    by (simpl length; lia).
  change (delete (S ?i) (x :: ?k)) with (x :: delete i k).
  by rewrite IH.
Qed.

Lemma splice1_length {A} index (l : list A) :
  l ≠ [] → index = -1 ∨ 0 ≤ index < Z.of_nat (length l) →
  length (splice1 index l) = pred (length l).
Proof.
  intros Hne Hindex. unfold splice1.
  assert (Hlen : (0 < length l)%nat) by (destruct l; [done|simpl; lia]).
  rewrite length_delete; [lia|]. apply lookup_lt_is_Some.
  destruct Hindex as [->|Hrange]; simpl.
  - lia.
  - rewrite (proj2 (Z.ltb_ge index 0)) by lia. lia.
Qed.

Lemma Map_set_length {V} k (v : V) m : (length (Map_set k v m) ≤ S (length m))%nat.
Proof.
  induction m as [|[k' v'] m IH]; simpl; [lia|].
  case_bool_decide; simpl in *; lia.
Qed.

Lemma collect_length outcomes results :
  (length (foldl collect results outcomes) ≤ length results + length outcomes)%nat.
Proof.
  revert results. induction outcomes as [|outcome outcomes IH]; intros results; simpl; [lia|].
  etrans; [apply IH|]. destruct outcome as [value|reason]; simpl; [|lia].
  pose proof (Map_set_length (taskId value) value results). lia.
Qed.

Lemma omap_length_le {A B} (f : A → option B) l : (length (omap f l) ≤ length l)%nat.
Proof.
  induction l as [|x l IH]; csimpl; [lia|].
  destruct (f x); csimpl; lia.
Qed.

Section BeyondCeiling.

Variable chat : nat → ChatRequest → ChatBehaviour.

Lemma flush_config fuel t s : config (swarm (flush fuel t s)) = config (swarm s).
Proof.
  revert s. induction fuel as [|fuel IH]; intros s; simpl; [done|].
  destruct (next_due 0 t (promises s)) as [[i r]|]; [|done].
  rewrite IH. unfold settle_promise.
  pose proof (settle_config (run_due r) (run_startTime r) (run_task r) (run_raced r) (swarm s)).
  by destruct (executeAgentTask_settle _ _ _ _ _).
Qed.

Lemma Promise_race_config refs s s' completed :
  Promise_race refs s = Returns s' completed → config (swarm s') = config (swarm s).
Proof.
  unfold Promise_race.
  destruct (first_settled s refs) as [[value|reason]|]; [by intros [= <- _]|done|].
  destruct (earliest_due s refs) as [t|]; [|done].
  destruct (first_settled (advance t s) refs) as [[value|reason]|]; [|done|done].
  intros [= <- _]. apply flush_config.
Qed.

Lemma executeAgentTask_config task s :
  config (swarm (executeAgentTask chat task s).1) = config (swarm s).
Proof.
  unfold executeAgentTask.
  destruct (executeAgentTask_start (clock s) task (swarm s))
    as [reason|[sw [typeError|request]]] eqn:Hstart; [done| |].
  - destruct (start_metrics _ _ _ _ _ Hstart) as [_ Hconfig].
    pose proof (catch_config (clock s) (clock s) task typeError sw) as Hcatch.
    destruct (executeAgentTask_catch _ _ _ _ _) as [sw' outcome]. simpl in *. congruence.
  - destruct (start_metrics _ _ _ _ _ Hstart) as [_ Hconfig].
    by destruct (race _ _).
Qed.

Lemma loopTurn_room task s activeTasks s' activeTasks' :
  1 ≤ maxConcurrentAgents (config (swarm s)) →
  Z.of_nat (length activeTasks) ≤ maxConcurrentAgents (config (swarm s)) →
  loopTurn chat task s activeTasks = Returns s' activeTasks' →
  config (swarm s') = config (swarm s) ∧
  Z.of_nat (length activeTasks') ≤ maxConcurrentAgents (config (swarm s)).
Proof.
  intros Hone Hroom. unfold loopTurn.
  destruct (Z.of_nat (length activeTasks) >=? maxConcurrentAgents (config (swarm s)))
    eqn:Hfull.
  - rewrite Z.geb_leb in Hfull. apply Z.leb_le in Hfull.
    destruct (Promise_race activeTasks s) as [s1 completed|s1 reason|] eqn:Hrace; [|done|done].
    pose proof (Promise_race_config _ _ _ _ Hrace) as Hconfig1.
    pose proof (executeAgentTask_config task s1) as Hconfig2.
    destruct (executeAgentTask chat task s1) as [s2 taskPromise].
    intros [= <- <-]. simpl in *. split; [congruence|].
    rewrite length_app, splice1_length.
    + simpl. destruct activeTasks; simpl in *; lia.
    + destruct activeTasks; [simpl in *; lia|done].
    + apply findIndex_range.
  - rewrite Z.geb_leb in Hfull. apply Z.leb_gt in Hfull.
    pose proof (executeAgentTask_config task s) as Hconfig.
    destruct (executeAgentTask chat task s) as [s2 taskPromise].
    intros [= <- <-]. simpl in *. split; [done|].
    rewrite length_app. simpl. lia.
Qed.

Lemma loopOver_room tasks s activeTasks s' activeTasks' :
  1 ≤ maxConcurrentAgents (config (swarm s)) →
  Z.of_nat (length activeTasks) ≤ maxConcurrentAgents (config (swarm s)) →
  loopOver chat tasks s activeTasks = Returns s' activeTasks' →
  Z.of_nat (length activeTasks') ≤ maxConcurrentAgents (config (swarm s)).
Proof.
  revert s activeTasks. induction tasks as [|task rest IH]; intros s activeTasks Hone Hroom; simpl.
  - by intros [= <- <-].
  - destruct (loopTurn chat task s activeTasks) as [s1 active1|s1 reason|] eqn:Hturn;
      [|done|done].
    destruct (loopTurn_room _ _ _ _ _ Hone Hroom Hturn) as [Hconfig Hroom1].
    intros Hrest. rewrite <- Hconfig. apply (IH s1 active1); [by rewrite Hconfig..|done].
Qed.

(** However many tasks are submitted, the map [executeSwarmTasks] returns
    never holds more results than the ceiling allows tasks in flight. *)
Theorem executeSwarmTasks_results_bounded tasks s s' results :
  1 ≤ maxConcurrentAgents (config (swarm s)) →
  executeSwarmTasks chat tasks s = Returns s' results →
  Z.of_nat (length results) ≤ maxConcurrentAgents (config (swarm s)).
Proof.
  intros Hone. unfold executeSwarmTasks.
  destruct (loopOver chat (sort comparePriority tasks) s []) as [s1 active|s1 reason|] eqn:Hloop;
    [|done|done].
  pose proof (loopOver_room _ s [] s1 active Hone ltac:(simpl; lia) Hloop) as Hroom.
  unfold Promise_allSettled. intros [= _ <-].
  pose proof (collect_length
                (omap (settledOf match latest_due s1 active with
                                 | Some t => advance t s1
                                 | None => s1
                                 end) active) []) as Hcollect.
  pose proof (omap_length_le
                (settledOf match latest_due s1 active with
                           | Some t => advance t s1
                           | None => s1
                           end) active) as Homap.
  simpl in Hcollect. lia.
Qed.

(** With a ceiling of zero or less the executor never returns from a task
    list that is not empty: its first turn awaits a race of no promise. *)
Lemma executeSwarmTasks_hangs tasks s :
  maxConcurrentAgents (config (swarm s)) ≤ 0 →
  tasks ≠ [] →
  executeSwarmTasks chat tasks s = Hangs.
Proof.
  intros Hzero Hne. unfold executeSwarmTasks.
  destruct (sort comparePriority tasks) as [|task rest] eqn:Hsorted.
  - exfalso. apply Hne. apply Permutation_nil_r. rewrite <- Hsorted. by rewrite sort_perm.
  - simpl. unfold loopTurn. simpl.
    destruct (Z.of_nat 0 >=? maxConcurrentAgents (config (swarm s))) eqn:Hfull; [done|].
    rewrite Z.geb_leb in Hfull. apply Z.leb_gt in Hfull. simpl in Hfull. lia.
Qed.

End BeyondCeiling.

Lemma settle_taskId now startTime task raced sw value :
  (executeAgentTask_settle now startTime task raced sw).2 = FulfilledWith value →
  taskId value = id task.
Proof.
  unfold executeAgentTask_settle, executeAgentTask_catch.
  destruct raced as [response|error|]; simpl;
    repeat (match goal with
            | |- context [match ?m !! ?k with _ => _ end] => destruct (m !! k)
            | |- context [match ?r with RespOk _ _ => _ | _ => _ end] => destruct r
            | |- context [messageOf ?e] => destruct (messageOf e)
            end; simpl); intros [= <-]; done.
Qed.

Lemma settle_promise_heapFor n0 tasks i p r s :
  promises s !! i = Some p → promise_state p = Pending r →
  heapFor n0 tasks s → heapFor n0 tasks (settle_promise i r s).
Proof.
  intros Hi Hstate [Hlen Hheap]. unfold settle_promise.
  pose proof (settle_taskId (run_due r) (run_startTime r) (run_task r) (run_raced r) (swarm s))
    as Hid.
  destruct (executeAgentTask_settle _ _ _ _ _) as [sw outcome]. simpl in *.
  split; simpl; [by rewrite length_alter|].
  intros j task Hj. destruct (Hheap j task Hj) as (q & Hq & Hid' & Hmade).
  rewrite list_lookup_alter. case_decide; [subst i|by exists q].
  rewrite Hq in Hi. injection Hi as ->. rewrite Hq. simpl.
  eexists. split; [done|]. split; [done|]. simpl.
  rewrite Hstate in Hmade. destruct outcome as [value|reason]; [|done].
  rewrite <- Hmade. by apply Hid.
Qed.

Lemma flush_heapFor n0 tasks fuel t s :
  heapFor n0 tasks s → heapFor n0 tasks (flush fuel t s).
Proof.
  revert s. induction fuel as [|fuel IH]; intros s Hheap; simpl; [done|].
  destruct (next_due 0 t (promises s)) as [[i r]|] eqn:Hnext; [|done].
  destruct (next_due_Some _ _ _ _ _ Hnext) as (j & p & -> & Hj & Hdue).
  destruct (due_by_Some _ _ _ Hdue) as [Hstate _].
  by apply IH, (settle_promise_heapFor n0 tasks j p).
Qed.

Lemma advance_heapFor n0 tasks t s : heapFor n0 tasks s → heapFor n0 tasks (advance t s).
Proof.
  intros Hheap. destruct (flush_heapFor n0 tasks (length (promises s)) t s Hheap) as [Hlen Hall].
  by split.
Qed.

Lemma Promise_race_heapFor n0 tasks refs s s' completed :
  Promise_race refs s = Returns s' completed →
  heapFor n0 tasks s → heapFor n0 tasks s'.
Proof.
  unfold Promise_race.
  destruct (first_settled s refs) as [[value|reason]|]; [by intros [= <- _]|done|].
  destruct (earliest_due s refs) as [t|]; [|done].
  destruct (first_settled (advance t s) refs) as [[value|reason]|]; [|done|done].
  intros [= <- _]. apply advance_heapFor.
Qed.

Section FirstAndLast.

Variable chat : nat → ChatRequest → ChatBehaviour.

Lemma startTask_madeFor task s :
  ∃ p, promises (startTask chat task s) = promises s ++ [p] ∧ madeFor task p.
Proof.
  unfold startTask, executeAgentTask.
  destruct (executeAgentTask_start _ _ _) as [reason|[sw [typeError|request]]].
  - eexists. split; [simpl; by rewrite alter_app_r_alt, Nat.sub_diag by done|]. done.
  - pose proof (catch_taskId (clock s) (clock s) task typeError sw) as Hid.
    destruct (executeAgentTask_catch _ _ _ _ _) as [sw' outcome]. simpl in *.
    eexists. split; [by rewrite alter_app_r_alt, Nat.sub_diag by done|].
    split; [done|]. simpl. destruct outcome as [value|reason]; [by apply Hid|done].
  - destruct (race _ _) as [elapsed raced]. simpl.
    eexists. split; [by rewrite alter_app_r_alt, Nat.sub_diag by done|]. done.
Qed.

Lemma startTask_heapFor n0 tasks task s :
  heapFor n0 tasks s → heapFor n0 (tasks ++ [task]) (startTask chat task s).
Proof.
  intros [Hlen Hheap].
  destruct (startTask_madeFor task s) as (new & Hps & Hnew).
  split; [rewrite Hps, !length_app, Hlen; simpl; lia|].
  intros i task' Hi. rewrite Hps.
  apply lookup_app_Some in Hi as [Hi|[Hge Hi]].
  - destruct (Hheap i task' Hi) as (p & Hp & Hmade).
    exists p. split; [|done]. by apply lookup_app_l_Some.
  - apply list_lookup_singleton_Some in Hi as [Hi <-].
    exists new. split; [|done].
    rewrite lookup_app_r by lia. replace (n0 + i - length (promises s))%nat with 0%nat by lia.
    done.
Qed.

Lemma arrayAfter_length ceiling n0 k :
  (1 ≤ ceiling)%nat → length (arrayAfter ceiling n0 k) = (k `min` ceiling)%nat.
Proof.
  intros Hone. unfold arrayAfter. case_decide.
  - rewrite length_seq. lia.
  - rewrite length_app, length_seq. simpl. lia.
Qed.

Lemma arrayAfter_named ceiling n0 tasks s completedTask :
  heapFor n0 tasks s →
  Forall (λ ref, bool_decide (idOfPromise s ref = completedTask_id completedTask) = false)
    (arrayAfter ceiling n0 (length tasks)).
Proof.
  intros [Hlen Hheap]. unfold completedTask_id.
  assert (Hnamed : ∀ i, (i < length tasks)%nat →
                        bool_decide (idOfPromise s (n0 + i) = None) = false).
  { intros i Hi. destruct (lookup_lt_is_Some_2 tasks i Hi) as [task Htask].
    destruct (Hheap i task Htask) as (p & Hp & Hid & _).
    apply bool_decide_eq_false_2. unfold idOfPromise. rewrite Hp. simpl. by rewrite Hid. }
  unfold arrayAfter. apply Forall_forall. intros ref Href.
  case_decide.
  - apply elem_of_seq in Href. replace ref with (n0 + (ref - n0))%nat by lia.
    apply Hnamed. lia.
  - apply elem_of_app in Href as [Href|Href].
    + apply elem_of_seq in Href. replace ref with (n0 + (ref - n0))%nat by lia.
      apply Hnamed. lia.
    + apply list_elem_of_singleton in Href as ->.
      replace (n0 + length tasks - 1)%nat with (n0 + (length tasks - 1))%nat by lia.
      apply Hnamed. lia.
Qed.

Lemma removelast_arrayAfter ceiling n0 k :
  (1 ≤ ceiling ≤ k)%nat →
  removelast (arrayAfter ceiling n0 k) = seq n0 (ceiling - 1).
Proof.
  intros Hk. unfold arrayAfter. case_decide.
  - replace k with (S (ceiling - 1)) by lia.
    rewrite seq_S. by rewrite removelast_last.
  - by rewrite removelast_last.
Qed.

(** One turn of the loop: when the array is full, the promise that leaves
    it is its last one, whichever promise has settled. *)
Lemma loopTurn_arrayAfter n0 tasks task s s' activeTasks' :
  1 ≤ maxConcurrentAgents (config (swarm s)) →
  heapFor n0 tasks s →
  loopTurn chat task s
    (arrayAfter (Z.to_nat (maxConcurrentAgents (config (swarm s)))) n0 (length tasks))
    = Returns s' activeTasks' →
  heapFor n0 (tasks ++ [task]) s' ∧
  config (swarm s') = config (swarm s) ∧
  activeTasks' =
    arrayAfter (Z.to_nat (maxConcurrentAgents (config (swarm s)))) n0 (S (length tasks)).
Proof.
  intros Hone Hheap.
  set (ceiling := Z.to_nat (maxConcurrentAgents (config (swarm s)))).
  assert (Hceiling : (1 ≤ ceiling)%nat) by (subst ceiling; lia).
  unfold loopTurn. rewrite (arrayAfter_length _ _ _ Hceiling).
  fold (startTask chat task).
  destruct (Z.of_nat (length tasks `min` ceiling) >=? maxConcurrentAgents (config (swarm s)))
    eqn:Hfull; rewrite Z.geb_leb in Hfull.
  - apply Z.leb_le in Hfull.
    assert (Hk : (ceiling ≤ length tasks)%nat) by (subst ceiling; lia).
    destruct (Promise_race _ s) as [s1 completed|s1 reason|] eqn:Hrace; [|done|done].
    pose proof (Promise_race_heapFor n0 tasks _ _ _ _ Hrace Hheap) as Hheap1.
    pose proof (Promise_race_config _ _ _ _ Hrace) as Hconfig1.
    rewrite (findIndex_no_match _ _ (arrayAfter_named ceiling n0 tasks s1 completed Hheap1)).
    rewrite splice1_last, removelast_arrayAfter by lia.
    pose proof (startTask_heapFor n0 tasks task s1 Hheap1) as Hheap2.
    pose proof (executeAgentTask_config chat task s1) as Hconfig2.
    unfold startTask in Hheap2.
    assert (Href : (executeAgentTask chat task s1).2 = length (promises s1)).
    { apply executeAgentTask_ref. }
    destruct (executeAgentTask chat task s1) as [s2 taskPromise]. simpl in *.
    intros [= <- <-]. split; [done|]. split; [simpl; congruence|].
    unfold arrayAfter. rewrite decide_False by lia.
    rewrite Href. destruct Hheap1 as [-> _]. do 2 f_equal. lia.
  - apply Z.leb_gt in Hfull.
    assert (Hk : (length tasks < ceiling)%nat) by (subst ceiling; lia).
    pose proof (startTask_heapFor n0 tasks task s Hheap) as Hheap2.
    pose proof (executeAgentTask_config chat task s) as Hconfig2.
    unfold startTask in Hheap2.
    assert (Href : (executeAgentTask chat task s).2 = length (promises s)).
    { apply executeAgentTask_ref. }
    destruct (executeAgentTask chat task s) as [s2 taskPromise]. simpl in *.
    intros [= <- <-]. split; [done|]. split; [done|].
    unfold arrayAfter. rewrite !decide_True by lia.
    rewrite Href. destruct Hheap as [-> _]. by rewrite seq_S.
Qed.

Lemma loopOver_arrayAfter n0 tasks rest s s' activeTasks' :
  1 ≤ maxConcurrentAgents (config (swarm s)) →
  heapFor n0 tasks s →
  loopOver chat rest s
    (arrayAfter (Z.to_nat (maxConcurrentAgents (config (swarm s)))) n0 (length tasks))
    = Returns s' activeTasks' →
  heapFor n0 (tasks ++ rest) s' ∧
  activeTasks' =
    arrayAfter (Z.to_nat (maxConcurrentAgents (config (swarm s)))) n0 (length (tasks ++ rest)).
Proof.
  revert tasks s. induction rest as [|task rest IH]; intros tasks s Hone Hheap; simpl.
  - intros [= <- <-]. by rewrite app_nil_r.
  - destruct (loopTurn chat task s _) as [s1 active1|s1 reason|] eqn:Hturn; [|done|done].
    destruct (loopTurn_arrayAfter n0 tasks task s s1 active1 Hone Hheap Hturn)
      as (Hheap1 & Hconfig & ->).
    intros Hrest. rewrite <- Hconfig in Hrest |- *.
    replace (S (length tasks)) with (length (tasks ++ [task])) in Hrest
      by (rewrite length_app; simpl; lia).
    destruct (IH (tasks ++ [task]) s1 ltac:(by rewrite Hconfig) Hheap1 Hrest) as [Hheap' ->].
    by rewrite <- app_assoc in *.
Qed.

Lemma Map_set_keys {V} k (v : V) m k' : k' ∈ (Map_set k v m).*1 → k' = k ∨ k' ∈ m.*1.
Proof.
  induction m as [|[k0 v0] m IH]; simpl.
  - intros ->%list_elem_of_singleton. by left.
  - case_bool_decide; simpl; rewrite !elem_of_cons; [subst; tauto|].
    intros [->|Hin]; [tauto|]. destruct (IH Hin); tauto.
Qed.

Lemma collect_keys outcomes results k :
  k ∈ (foldl collect results outcomes).*1 →
  k ∈ results.*1 ∨ ∃ value, FulfilledWith value ∈ outcomes ∧ taskId value = k.
Proof.
  revert results. induction outcomes as [|outcome outcomes IH]; intros results; simpl.
  - by left.
  - intros Hin. destruct (IH _ Hin) as [Hk|(value & Hvalue & Hid)].
    + destruct outcome as [value|reason]; simpl in Hk; [|by left].
      apply Map_set_keys in Hk as [->|Hk]; [|by left].
      right. exists value. split; [apply list_elem_of_here|done].
    + right. exists value. split; [by apply list_elem_of_further|done].
Qed.

(** Beyond the ceiling the map [executeSwarmTasks] returns holds results of
    no other tasks than the first ceiling-minus-one of the sorted list and
    its last one: the promises of the others have left the array. *)
Theorem executeSwarmTasks_keeps_first_and_last tasks s s' results :
  1 ≤ maxConcurrentAgents (config (swarm s)) →
  maxConcurrentAgents (config (swarm s)) < Z.of_nat (length tasks) →
  executeSwarmTasks chat tasks s = Returns s' results →
  ∀ k, k ∈ results.*1 →
       ∃ i task,
         sort comparePriority tasks !! i = Some task ∧
         id task = k ∧
         (Z.of_nat i < maxConcurrentAgents (config (swarm s)) - 1 ∨
          i = (length tasks - 1)%nat).
Proof.
  intros Hone Hmany. unfold executeSwarmTasks.
  set (sorted := sort comparePriority tasks).
  assert (Hlen : length sorted = length tasks)
    by (subst sorted; by rewrite (Permutation_length (sort_perm comparePriority tasks))).
  set (n0 := length (promises s)).
  set (ceiling := Z.to_nat (maxConcurrentAgents (config (swarm s)))).
  assert (Hheap : heapFor n0 [] s).
  { split; [simpl; lia|]. by intros i task. }
  change (loopOver chat sorted s [])
    with (loopOver chat sorted s (arrayAfter ceiling n0 (length ([] : list Task)))).
  destruct (loopOver chat sorted s _) as [s1 active|s1 reason|] eqn:Hloop; [|done|done].
  destruct (loopOver_arrayAfter n0 [] sorted s s1 active Hone Hheap Hloop) as [Hheap1 ->].
  simpl app in *. fold ceiling.
  unfold Promise_allSettled.
  set (s2 := match latest_due s1 (arrayAfter ceiling n0 (length sorted)) with
             | Some t => advance t s1
             | None => s1
             end).
  assert (Hheap2 : heapFor n0 sorted s2).
  { subst s2. destruct (latest_due s1 _); [by apply advance_heapFor|done]. }
  intros [= _ <-] k Hk.
  apply collect_keys in Hk as [Hk|(value & Hvalue & Hid)]; [by apply not_elem_of_nil in Hk|].
  apply list_elem_of_omap in Hvalue as (ref & Href & Hsettled).
  assert (Hpos : ∃ i, ref = (n0 + i)%nat ∧ (i < length sorted)%nat ∧
                      (Z.of_nat i < maxConcurrentAgents (config (swarm s)) - 1 ∨
                       i = (length tasks - 1)%nat)).
  { unfold arrayAfter in Href. rewrite decide_False in Href by (subst ceiling; lia).
    apply elem_of_app in Href as [Href|Href].
    - apply elem_of_seq in Href. exists (ref - n0)%nat.
      split; [lia|]. split; [subst ceiling; lia|]. left. subst ceiling. lia.
    - apply list_elem_of_singleton in Href as ->. exists (length sorted - 1)%nat.
      split; [lia|]. split; [lia|]. right. lia. }
  destruct Hpos as (i & -> & Hi & Hwhere).
  destruct (lookup_lt_is_Some_2 sorted i Hi) as [task Htask].
  destruct Hheap2 as [_ Hheap2]. destruct (Hheap2 i task Htask) as (p & Hp & _ & Hmade).
  exists i, task. split; [done|]. split; [|done].
  unfold settledOf in Hsettled. rewrite Hp in Hsettled.
  destruct p as [[r|[value'|reason]] pid]; simpl in *; congruence.
Qed.

End FirstAndLast.

(** ** The registry *)

Lemma sameIdentity_trans a b c : sameIdentity a b → sameIdentity b c → sameIdentity a c.
Proof. unfold sameIdentity. intros (?&?&?&?&?&?) (?&?&?&?&?&?). repeat split; congruence. Qed.

Lemma newSwarm_registry userConfig : registryIntact (newSwarm userConfig).
Proof.
  intros k. unfold newSwarm, initializeAgents. simpl.
  rewrite !lookup_insert. rewrite !lookup_empty.
  repeat case_decide; subst; simpl.
  all: split; [|first [done|split; intros _; by eexists]].
  all: first [eexists; split; [|done]; unfold agentDefinitions;
              repeat first [apply list_elem_of_here | apply list_elem_of_further]
             |rewrite !not_elem_of_cons; repeat split; try congruence;
              apply not_elem_of_nil].
Qed.

Lemma step_registry sw sw' : step sw sw' → registryIntact sw → registryIntact sw'.
Proof.
  intros Hstep Hreg k. specialize (Hreg k). destruct Hreg as [Hagent Heff].
  destruct Hstep as [now task sw sw' request Hstart|now startTime task raced sw|results sw].
  - rewrite (start_agents _ _ _ _ _ k Hstart).
    destruct (start_metrics _ _ _ _ _ Hstart) as [-> _].
    case_decide; [|done].
    destruct (agents sw !! k) as [a|]; simpl; [|done].
    split; [|by rewrite Heff; split; intros; eexists].
    destruct Hagent as (definition & Hin & Hsame). by exists definition.
  - rewrite settle_agents, settle_efficiency.
    case_decide; [|done].
    rewrite fmap_is_Some.
    destruct (agents sw !! k) as [a|]; simpl; [|done].
    split; [|by rewrite Heff; split; intros; eexists].
    destruct Hagent as (definition & Hin & Hsame). exists definition. split; [done|].
    by destruct raced.
  - done.
Qed.

Lemma step_config sw sw' : step sw sw' → config sw' = config sw.
Proof.
  intros [now task sw0 sw1 request Hstart|now startTime task raced sw0|results sw0].
  - by destruct (start_metrics _ _ _ _ _ Hstart).
  - apply settle_config.
  - done.
Qed.

Lemma reachable_registry userConfig sw : reachable userConfig sw → registryIntact sw.
Proof.
  induction 1 as [|sw sw' Hreach IH Hstep]; [apply newSwarm_registry|].
  by apply (step_registry sw).
Qed.

Lemma reachable_config userConfig sw :
  reachable userConfig sw → config sw = mkConfig userConfig.
Proof.
  induction 1 as [|sw sw' Hreach IH Hstep]; [done|]. by rewrite (step_config sw sw').
Qed.

(** No step of the execution adds, removes or renames an agent, every
    agent keeps its efficiency entry, and the configuration stays the one
    the constructor built. *)
Theorem registry_fixed userConfig sw :
  reachable userConfig sw →
  registryIntact sw ∧ config sw = mkConfig userConfig.
Proof.
  intros Hreach. split; [by apply (reachable_registry userConfig)|].
  by apply reachable_config.
Qed.

(** ** The totals of the swarm *)

Lemma filter_success_split (values : list TaskResult) :
  (length (List.filter success values) +
   length (List.filter (λ r, negb (success r)) values) = length values)%nat.
Proof.
  induction values as [|r values IH]; [done|].
  simpl. destruct (success r); simpl; lia.
Qed.

(** The totals count every result once: in every reachable instance
    [totalTasks] is the sum of [completedTasks] and [failedTasks], and
    neither is negative. *)
Theorem totals_add_up userConfig sw :
  reachable userConfig sw →
  totalTasks (swarmMetrics sw) =
    completedTasks (swarmMetrics sw) + failedTasks (swarmMetrics sw) ∧
  0 ≤ completedTasks (swarmMetrics sw) ∧
  0 ≤ failedTasks (swarmMetrics sw).
Proof.
  induction 1 as [|sw sw' Hreach (IHt & IHc & IHf) Hstep]; [done|].
  destruct Hstep as [now task sw sw' request Hstart|now startTime task raced sw|results sw].
  - by destruct (start_metrics _ _ _ _ _ Hstart) as [-> _].
  - assert (Hsame : ∀ sw0,
              let m := swarmMetrics (executeAgentTask_settle now startTime task raced sw0).1 in
              totalTasks m = totalTasks (swarmMetrics sw0) ∧
              completedTasks m = completedTasks (swarmMetrics sw0) ∧
              failedTasks m = failedTasks (swarmMetrics sw0)).
    { intros sw0. unfold executeAgentTask_settle, executeAgentTask_catch.
      destruct raced as [response|error|]; simpl;
        repeat (match goal with
                | |- context [match ?m !! ?k with _ => _ end] => destruct (m !! k)
                | |- context [match ?r with RespOk _ _ => _ | _ => _ end] => destruct r
                | |- context [messageOf ?e] => destruct (messageOf e)
                end; simpl); done. }
    destruct (Hsame sw) as (-> & -> & ->). done.
  - simpl. unfold Map_values.
    pose proof (filter_success_split (results.*2)) as Hsplit.
    rewrite <- (length_fmap snd results) in *. lia.
Qed.

(** ** Runs of the task builder's lists *)

Lemma registry_known sw k :
  registryIntact sw → k ∈ agentDefinitions.*1 →
  is_Some (agents sw !! k) ∧ is_Some (agentEfficiency (swarmMetrics sw) !! k).
Proof.
  intros Hreg Hk. destruct (Hreg k) as [Hagent Heff].
  destruct (agents sw !! k) as [a|]; [|done].
  split; [by eexists|]. apply Heff. by eexists.
Qed.

Lemma comprehensive_agents now repository :
  Forall (λ task, agentId task ∈ agentDefinitions.*1)
    (createSwarmTasks now repository ["comprehensive"]).
Proof.
  unfold createSwarmTasks, pushTask.
  change (includes "comprehensive" ["comprehensive"]) with true. cbn [orb]. simpl.
  repeat constructor;
    simpl; repeat first [apply list_elem_of_here | apply list_elem_of_further].
Qed.

Lemma comprehensive_ids now repository :
  NoDup (id <$> createSwarmTasks now repository ["comprehensive"]).
Proof.
  unfold createSwarmTasks, pushTask.
  change (includes "comprehensive" ["comprehensive"]) with true. cbn [orb]. simpl.
  repeat (apply NoDup_cons; split;
          [rewrite ?not_elem_of_cons; repeat split; try discriminate; apply not_elem_of_nil|]).
  apply NoDup_nil_2.
Qed.

Lemma createSwarmTasks_length now repository analysisTypes :
  (length (createSwarmTasks now repository analysisTypes) ≤ 6)%nat.
Proof.
  apply (sublist_length _ (createSwarmTasks now repository ["comprehensive"])),
    createSwarmTasks_sublist.
Qed.

Lemma createSwarmTasks_ids now repository analysisTypes :
  NoDup (id <$> createSwarmTasks now repository analysisTypes).
Proof.
  eapply sublist_NoDup; [apply (comprehensive_ids now repository)|].
  apply (fmap_sublist id), createSwarmTasks_sublist.
Qed.

Lemma createSwarmTasks_registered sw now repository analysisTypes :
  registryIntact sw →
  Forall (registered sw) (createSwarmTasks now repository analysisTypes).
Proof.
  intros Hreg. apply Forall_forall. intros task Htask.
  pose proof (comprehensive_agents now repository) as Hall.
  rewrite Forall_forall in Hall.
  apply (registry_known sw (agentId task) Hreg), Hall.
  apply (elem_of_sublist (createSwarmTasks now repository analysisTypes)); [done|].
  apply createSwarmTasks_sublist.
Qed.

(** Every list the task builder makes is fit for the executor of any
    reachable instance: at most six tasks, with distinct ids, each for a
    registered agent, and already in the order the executor sorts them
    into. *)
Theorem createSwarmTasks_wellformed userConfig sw now repository analysisTypes :
  reachable userConfig sw →
  let tasks := createSwarmTasks now repository analysisTypes in
  (length tasks ≤ 6)%nat ∧
  NoDup (id <$> tasks) ∧
  Forall (registered sw) tasks ∧
  sort comparePriority tasks = tasks.
Proof.
  intros Hreach tasks.
  split; [apply createSwarmTasks_length|].
  split; [apply createSwarmTasks_ids|].
  split; [|apply createSwarmTasks_sorted].
  by apply createSwarmTasks_registered, (reachable_registry userConfig).
Qed.


Lemma entries_for_runs runs :
  Forall2 resultFor (run_task <$> runs) (entryOf <$> runs).
Proof.
  induction runs as [|r runs IH]; [by constructor|].
  rewrite !fmap_cons. constructor; [apply resultFor_resultOf|exact IH].
Qed.


Section WholeRun.

Variable chat : nat → ChatRequest → ChatBehaviour.


End WholeRun.

(** ** The executor beyond its ceiling, with registered agents *)

Lemma slot_settleBy t r p :
  readable (run_raced r) → slot r p → slot r (settleBy t p).
Proof.
  intros Hreadable [-> | ->].
  - destruct (Z.le_gt_cases (run_due r) t) as [Hle|Hgt].
    + right. by apply settleBy_started.
    + left. unfold settleBy. simpl. by rewrite (proj2 (Z.leb_gt _ _)) by lia.
  - by right.
Qed.

Lemma loopHeap_advance t old runs s :
  Forall isDone old → loopHeap old runs s → loopHeap old runs (advance t s).
Proof.
  intros Hold (Hknown & Hread & ps & Hps & Hslots).
  destruct (advance_promises t s Hknown) as [Hadv Hknown'].
  split; [done|]. split; [done|]. exists (settleBy t <$> ps). split.
  - by rewrite Hadv, Hps, fmap_app, settleBy_all_done.
  - apply Forall2_fmap_r. clear -Hread Hslots.
    induction Hslots as [|r p runs ps Hslot _ IH]; [constructor|].
    apply Forall_cons in Hread as [Hr Hread].
    constructor; [by apply slot_settleBy|by apply IH].
Qed.

Lemma settle_promise_registered i r s task :
  registered (swarm (settle_promise i r s)) task ↔ registered (swarm s) task.
Proof.
  unfold settle_promise, registered.
  pose proof (settle_agents (run_due r) (run_startTime r) (run_task r) (run_raced r)
                (swarm s) (agentId task)) as Ha.
  pose proof (settle_efficiency_is_Some (run_due r) (run_startTime r) (run_task r)
                (run_raced r) (swarm s) (agentId task)) as He.
  destruct (executeAgentTask_settle _ _ _ _ _) as [sw outcome]. simpl in *.
  rewrite Ha, He. case_decide; [by rewrite fmap_is_Some|done].
Qed.

Lemma flush_registered fuel t s task :
  registered (swarm (flush fuel t s)) task ↔ registered (swarm s) task.
Proof.
  revert s. induction fuel as [|fuel IH]; intros s; simpl; [done|].
  destruct (next_due 0 t (promises s)) as [[i r]|]; [|done].
  by rewrite IH, settle_promise_registered.
Qed.

Lemma advance_registered t s task :
  registered (swarm (advance t s)) task ↔ registered (swarm s) task.
Proof. apply flush_registered. Qed.

Lemma loopHeap_lookup old runs s i r :
  loopHeap old runs s → runs !! i = Some r →
  ∃ p, promises s !! (length old + i)%nat = Some p ∧ slot r p.
Proof.
  intros (_ & _ & ps & Hps & Hslots) Hi.
  destruct (Forall2_lookup_l _ _ _ _ _ Hslots Hi) as (p & Hp & Hslot).
  exists p. split; [|done]. rewrite Hps, lookup_app_r by lia.
  by replace (length old + i - length old)%nat with i by lia.
Qed.

(** A promise of the run is pending and due, or fulfilled with the result
    of its task. *)
Lemma loopHeap_ref old runs s i r :
  loopHeap old runs s → runs !! i = Some r →
  (settledOf s (length old + i) = None ∧
   dueOf s (length old + i) = Some (run_due r)) ∨
  (settledOf s (length old + i) = Some (FulfilledWith (resultOf r)) ∧
   dueOf s (length old + i) = None).
Proof.
  intros Hheap Hi. destruct (loopHeap_lookup old runs s i r Hheap Hi) as (p & Hp & [-> | ->]).
  - left. unfold settledOf, dueOf. by rewrite Hp.
  - right. unfold settledOf, dueOf. by rewrite Hp.
Qed.

Lemma ofRun_ref old runs refs ref :
  ofRun old runs refs → ref ∈ refs →
  ∃ i r, ref = (length old + i)%nat ∧ runs !! i = Some r.
Proof.
  intros Hrefs Hin. unfold ofRun in Hrefs. rewrite Forall_forall in Hrefs.
  specialize (Hrefs ref Hin).
  destruct (lookup_lt_is_Some_2 runs (ref - length old)) as [r Hr]; [lia|].
  exists (ref - length old)%nat, r. split; [lia|done].
Qed.

Lemma first_settled_fulfilled old runs s refs outcome :
  loopHeap old runs s → ofRun old runs refs →
  first_settled s refs = Some outcome → ∃ value, outcome = FulfilledWith value.
Proof.
  intros Hheap. induction refs as [|ref refs IH]; intros Hrefs; simpl; [done|].
  destruct (ofRun_ref old runs (ref :: refs) ref Hrefs) as (i & r & -> & Hr);
    [apply list_elem_of_here|].
  apply Forall_cons in Hrefs as [_ Hrefs].
  destruct (loopHeap_ref old runs s i r Hheap Hr) as [[-> _]|[-> _]].
  - by apply IH.
  - intros [= <-]. by eexists.
Qed.

Lemma earliest_due_cons s ref refs :
  earliest_due s (ref :: refs) =
    match dueOf s ref, earliest_due s refs with
    | Some d, Some t => Some (Z.min d t)
    | Some d, None => Some d
    | None, acc => acc
    end.
Proof. unfold earliest_due. simpl. by destruct (dueOf s ref), (foldr _ _ _). Qed.

Lemma earliest_due_pending old runs s refs :
  loopHeap old runs s → ofRun old runs refs → refs ≠ [] →
  first_settled s refs = None →
  ∃ t ref, earliest_due s refs = Some t ∧ ref ∈ refs ∧ dueOf s ref = Some t.
Proof.
  intros Hheap. induction refs as [|ref refs IH]; intros Hrefs Hne; [done|].
  rewrite earliest_due_cons. simpl.
  destruct (ofRun_ref old runs (ref :: refs) ref Hrefs) as (i & r & -> & Hr);
    [apply list_elem_of_here|].
  apply Forall_cons in Hrefs as [_ Hrefs].
  destruct (loopHeap_ref old runs s i r Hheap Hr) as [[-> Hdue]|[-> _]]; [|done].
  intros Hnone. rewrite Hdue.
  destruct refs as [|ref' refs'].
  - exists (run_due r), (length old + i)%nat.
    split; [done|]. split; [apply list_elem_of_here|done].
  - destruct (IH Hrefs ltac:(done) Hnone) as (t & ref0 & Hearliest & Hin & Hdue0).
    rewrite Hearliest.
    destruct (Z.le_gt_cases (run_due r) t) as [Hle|Hgt].
    + exists (run_due r), (length old + i)%nat.
      rewrite Z.min_l by done. split; [done|]. split; [apply list_elem_of_here|done].
    + exists t, ref0. rewrite Z.min_r by lia.
      split; [done|]. split; [by apply list_elem_of_further|done].
Qed.

Lemma first_settled_elem s refs ref outcome :
  ref ∈ refs → settledOf s ref = Some outcome → is_Some (first_settled s refs).
Proof.
  induction refs as [|ref' refs IH]; [by intros ?%not_elem_of_nil|].
  intros Hin Hsettled. simpl.
  destruct (settledOf s ref') as [outcome'|] eqn:Hhead; [by eexists|].
  apply elem_of_cons in Hin as [->|Hin]; [congruence|]. by apply IH.
Qed.

Lemma advance_settles t s ref d :
  efficiencyKnown s → dueOf s ref = Some d → d ≤ t →
  is_Some (settledOf (advance t s) ref).
Proof.
  intros Hknown Hdue Hle. destruct (advance_promises t s Hknown) as [Hadv _].
  unfold settledOf, dueOf in *. rewrite Hadv, list_lookup_fmap.
  destruct (promises s !! ref) as [[[r|outcome] pid]|]; simplify_eq; simpl.
  unfold settleBy. simpl. rewrite (proj2 (Z.leb_le _ _) Hle). by eexists.
Qed.

Section RegisteredAgents.

Variable chat : nat → ChatRequest → ChatBehaviour.
Hypothesis Hreadable : readableBackend chat.

(** With the promises of registered agents in the array, the race of line
    220 returns. *)
Lemma Promise_race_returns old runs refs s :
  Forall isDone old → loopHeap old runs s → ofRun old runs refs → refs ≠ [] →
  ∃ s' completed,
    Promise_race refs s = Returns s' completed ∧
    loopHeap old runs s' ∧
    (∀ task, registered (swarm s') task ↔ registered (swarm s) task).
Proof.
  intros Hold Hheap Hrefs Hne. unfold Promise_race.
  destruct (first_settled s refs) as [outcome|] eqn:Hfirst.
  - destruct (first_settled_fulfilled old runs s refs outcome Hheap Hrefs Hfirst) as [value ->].
    by exists s, value.
  - destruct (earliest_due_pending old runs s refs Hheap Hrefs Hne Hfirst)
      as (t & ref & -> & Hin & Hdue).
    pose proof (loopHeap_advance t old runs s Hold Hheap) as Hheap'.
    destruct (first_settled_elem (advance t s) refs ref) with (outcome :=
                default (RejectedWith Null) (settledOf (advance t s) ref)) as [outcome Hfirst'].
    { done. }
    { destruct (advance_settles t s ref t (proj1 Hheap) Hdue ltac:(lia)) as [o ->]. done. }
    rewrite Hfirst'.
    destruct (first_settled_fulfilled old runs _ refs outcome Hheap' Hrefs Hfirst') as [value ->].
    exists (advance t s), value. split; [done|]. split; [done|].
    intros task. apply advance_registered.
Qed.

Lemma loopHeap_heapFor old runs s :
  loopHeap old runs s → heapFor (length old) (run_task <$> runs) s.
Proof.
  intros Hheap. split.
  - destruct Hheap as (_ & _ & ps & -> & Hslots).
    by rewrite length_app, length_fmap, (Forall2_length _ _ _ Hslots).
  - intros i task Hi. rewrite list_lookup_fmap in Hi.
    destruct (runs !! i) as [r|] eqn:Hr; [|done]. injection Hi as <-.
    destruct (loopHeap_lookup old runs s i r Hheap Hr) as (p & Hp & Hslot).
    exists p. split; [done|]. destruct Hslot as [-> | ->]; split; try done.
    simpl. apply taskId_resultOf.
Qed.

Lemma arrayAfter_ofRun ceiling old runs :
  ofRun old runs (arrayAfter ceiling (length old) (length runs)).
Proof.
  unfold ofRun, arrayAfter. apply Forall_forall. intros ref Href.
  case_decide.
  - apply elem_of_seq in Href. lia.
  - apply elem_of_app in Href as [Href|Href].
    + apply elem_of_seq in Href. lia.
    + apply list_elem_of_singleton in Href. lia.
Qed.

(** One turn of the loop returns, with one more task started. *)
Lemma loopTurn_returns old runs task s :
  1 ≤ maxConcurrentAgents (config (swarm s)) →
  Forall isDone old → loopHeap old runs s → registered (swarm s) task →
  ∃ s' r,
    loopTurn chat task s
      (arrayAfter (Z.to_nat (maxConcurrentAgents (config (swarm s)))) (length old)
         (length runs))
      = Returns s'
          (arrayAfter (Z.to_nat (maxConcurrentAgents (config (swarm s)))) (length old)
             (S (length runs))) ∧
    run_task r = task ∧
    loopHeap old (runs ++ [r]) s' ∧
    config (swarm s') = config (swarm s) ∧
    (∀ task', registered (swarm s') task' ↔ registered (swarm s) task').
Proof.
  intros Hone Hold Hheap Hreg.
  set (ceiling := Z.to_nat (maxConcurrentAgents (config (swarm s)))).
  set (array := arrayAfter ceiling (length old) (length runs)).
  assert (Hwaited : ∃ s1 array',
             loopTurn chat task s array = Returns (startTask chat task s1) array' ∧
             loopHeap old runs s1 ∧
             (∀ task', registered (swarm s1) task' ↔ registered (swarm s) task')).
  { destruct (Z.of_nat (length array) >=? maxConcurrentAgents (config (swarm s))) eqn:Hfull.
    - assert (Hne : array ≠ []).
      { intros Hnil. rewrite Hnil in Hfull. simpl in Hfull.
        rewrite Z.geb_leb in Hfull. apply Z.leb_le in Hfull. lia. }
      destruct (Promise_race_returns old runs array s Hold Hheap
                  (arrayAfter_ofRun ceiling old runs) Hne)
        as (s1 & completed & Hrace & Hheap1 & Hreg1).
      exists s1. unfold loopTurn, startTask. rewrite Hfull, Hrace.
      destruct (executeAgentTask chat task s1) as [s2 taskPromise].
      by eexists.
    - exists s. eexists. split; [|done]. apply loopTurn_below.
      rewrite Z.geb_leb in Hfull. by apply Z.leb_gt in Hfull. }
  destruct Hwaited as (s1 & array' & Hturn & Hheap1 & Hreg1).
  assert (Hreg' : registered (swarm s1) task) by by apply Hreg1.
  destruct (startTask_started chat task s1 (λ _, proj2 Hreg'))
    as (st & Hst & Hin & Hread & Hps & Hclock & Hconfig & Heff & Hdom).
  specialize (Hread Hreadable).
  assert (Hrun : ∃ r, run_task r = task ∧ readable (run_raced r) ∧
                      slot r (startedPromise st) ∧
                      (promise_state (startedPromise st) = Pending r ∨
                       isDone (startedPromise st))).
  { destruct st as [task'|r|r]; simpl in *.
    - subst task'. destruct Hreg' as [[a Ha] _]. congruence.
    - exists r. split; [done|]. split; [done|]. split; [by right|]. right. by eexists.
    - exists r. split; [done|]. split; [done|]. split; [by left|]. by left. }
  destruct Hrun as (r & Hr & Hreadr & Hslot & Hstate).
  pose proof (loopHeap_heapFor old runs s Hheap) as Hfor.
  destruct (loopTurn_arrayAfter chat (length old) (run_task <$> runs) task s
              (startTask chat task s1) array' Hone Hfor) as (_ & Hconfig' & Harray).
  { rewrite length_fmap. exact Hturn. }
  rewrite length_fmap in Harray. subst array'.
  exists (startTask chat task s1), r. split; [exact Hturn|]. split; [done|].
  split; [|split; [done|]].
  - destruct Hheap1 as (Hknown1 & Hread1 & ps & Hps1 & Hslots). split; [|split].
    + intros p r' Hp Hstate'. apply Heff. rewrite Hps in Hp.
      apply elem_of_app in Hp as [Hp|Hp]; [by apply (Hknown1 p)|].
      apply list_elem_of_singleton in Hp as ->.
      destruct Hstate as [Hpending|[outcome Hdone]]; [|congruence].
      rewrite Hpending in Hstate'. injection Hstate' as <-.
      rewrite Hr. by destruct Hreg'.
    + apply Forall_app. split; [done|]. by constructor.
    + exists (ps ++ [startedPromise st]). split; [by rewrite Hps, Hps1, <- app_assoc|].
      apply Forall2_app; [done|]. constructor; [done|constructor].
  - intros task'. rewrite <- Hreg1. unfold registered. by rewrite Hdom, Heff.
Qed.

Lemma loopOver_returns old rest runs s :
  1 ≤ maxConcurrentAgents (config (swarm s)) →
  Forall isDone old → loopHeap old runs s → Forall (registered (swarm s)) rest →
  ∃ s' runs',
    loopOver chat rest s
      (arrayAfter (Z.to_nat (maxConcurrentAgents (config (swarm s)))) (length old)
         (length runs))
      = Returns s'
          (arrayAfter (Z.to_nat (maxConcurrentAgents (config (swarm s)))) (length old)
             (length runs + length rest)) ∧
    run_task <$> runs' = rest ∧
    loopHeap old (runs ++ runs') s'.
Proof.
  revert runs s. induction rest as [|task rest IH]; intros runs s Hone Hold Hheap Hreg; simpl.
  - exists s, []. rewrite Nat.add_0_r, app_nil_r. done.
  - apply Forall_cons in Hreg as [Htask Hrest].
    destruct (loopTurn_returns old runs task s Hone Hold Hheap Htask)
      as (s1 & r & -> & Hr & Hheap1 & Hconfig & Hreg1).
    destruct (IH (runs ++ [r]) s1) as (s' & runs' & Hloop & Hruns' & Hheap').
    + by rewrite Hconfig.
    + done.
    + done.
    + eapply Forall_impl; [exact Hrest|]. intros task'. apply Hreg1.
    + rewrite Hconfig, length_app in Hloop. simpl in Hloop.
      rewrite Nat.add_1_r in Hloop. rewrite Hloop.
      exists s', (r :: runs'). rewrite <- Nat.add_succ_comm.
      split; [done|]. split; [simpl; by f_equal|]. by rewrite <- app_assoc in Hheap'.
Qed.

(** When line 234 has waited, the promises of the array are fulfilled with
    the results of their tasks. *)
Lemma Promise_allSettled_slots old runs refs s :
  Forall isDone old → loopHeap old runs s →
  ∀ i r, runs !! i = Some r → (length old + i)%nat ∈ refs →
         settledOf (Promise_allSettled refs s).1 (length old + i)
           = Some (FulfilledWith (resultOf r)).
Proof.
  intros Hold Hheap i r Hr Hin. unfold Promise_allSettled.
  destruct (latest_due s refs) as [t|] eqn:Hlatest; simpl.
  - destruct (loopHeap_lookup old runs s i r Hheap Hr) as (p & Hp & Hslot).
    destruct (advance_promises t s (proj1 Hheap)) as [Hadv _].
    unfold settledOf. rewrite Hadv, list_lookup_fmap, Hp. simpl.
    destruct Hslot as [-> | ->]; [|done].
    rewrite settleBy_started; [done| |].
    + destruct Hheap as (_ & Hread & _). rewrite Forall_lookup in Hread. by apply (Hread i).
    + eapply (latest_due_bound s refs t); [exact Hlatest|exact Hin|].
      unfold dueOf. by rewrite Hp.
  - destruct (loopHeap_ref old runs s i r Hheap Hr) as [[_ Hdue]|[Hsettled _]]; [|done].
    by rewrite (latest_due_None s refs _ Hlatest Hin) in Hdue.
Qed.

Lemma omap_settled s (runs : list Running) n0 positions :
  Forall (λ i, ∃ r, runs !! i = Some r ∧
                    settledOf s (n0 + i) = Some (FulfilledWith (resultOf r))) positions →
  omap (settledOf s) ((λ i, (n0 + i)%nat) <$> positions) =
    (λ r, FulfilledWith (resultOf r)) <$> omap (runs !!.) positions.
Proof.
  induction 1 as [|i positions (r & Hr & Hsettled) _ IH]; [done|].
  csimpl. rewrite Hsettled, Hr. csimpl. by rewrite IH.
Qed.

Lemma omap_lookup_seq {A} (l : list A) n k :
  (n + k ≤ length l)%nat → omap (l !!.) (seq n k) = take k (drop n l).
Proof.
  revert n. induction k as [|k IH]; intros n Hk; [by rewrite take_0|].
  destruct (lookup_lt_is_Some_2 l n) as [x Hx]; [lia|].
  csimpl. rewrite Hx. csimpl. rewrite (drop_S l x n Hx). simpl. f_equal.
  apply IH. lia.
Qed.

Lemma arrayAfter_positions ceiling n0 k :
  (1 ≤ ceiling < k)%nat →
  arrayAfter ceiling n0 k = (λ i, (n0 + i)%nat) <$> (seq 0 (ceiling - 1) ++ [(k - 1)%nat]).
Proof.
  intros Hk. unfold arrayAfter. rewrite decide_False by lia.
  rewrite fmap_app, fmap_add_seq, Nat.add_0_r. simpl. do 2 f_equal. lia.
Qed.

(** Beyond the ceiling, with registered agents and a backend that rejects
    no call with [null] or [undefined]: the executor returns, and the map
    it returns holds the results of the first ceiling-minus-one tasks of
    the sorted list and of its last task, and of no other. *)
Theorem executeSwarmTasks_beyond_ceiling tasks s :
  1 ≤ maxConcurrentAgents (config (swarm s)) →
  maxConcurrentAgents (config (swarm s)) < Z.of_nat (length tasks) →
  Forall (registered (swarm s)) tasks →
  NoDup (id <$> tasks) →
  Forall isDone (promises s) →
  ∃ s' results,
    executeSwarmTasks chat tasks s = Returns s' results ∧
    Forall2 resultFor
      (take (Z.to_nat (maxConcurrentAgents (config (swarm s))) - 1)
         (sort comparePriority tasks) ++
       drop (length tasks - 1) (sort comparePriority tasks))
      results.
Proof.
  intros Hone Hmany Hreg Hnodup Hidle.
  pose proof (sort_perm comparePriority tasks) as Hperm.
  set (sorted := sort comparePriority tasks) in *.
  set (ceiling := Z.to_nat (maxConcurrentAgents (config (swarm s)))).
  set (old := promises s).
  assert (Hlen : length sorted = length tasks) by by rewrite Hperm.
  assert (Hheap : loopHeap old [] s).
  { split; [|split; [constructor|]].
    - intros p r Hp Hstate. rewrite Forall_forall in Hidle.
      destruct (Hidle p Hp) as [outcome Hdone]. congruence.
    - exists []. by rewrite app_nil_r. }
  destruct (loopOver_returns old sorted [] s Hone Hidle Hheap) as (s1 & runs & Hloop & Hruns & Hheap1).
  { by rewrite Hperm. }
  simpl app in Hheap1.
  change (length ([] : list Running) + length sorted)%nat with (length sorted) in Hloop.
  assert (Hlen' : length runs = length tasks) by by rewrite <- Hlen, <- Hruns, length_fmap.
  unfold executeSwarmTasks. fold sorted.
  change (loopOver chat sorted s [])
    with (loopOver chat sorted s
            (arrayAfter ceiling (length old) (length ([] : list Running)))).
  fold ceiling in Hloop. rewrite Hloop.
  set (array := arrayAfter ceiling (length old) (length sorted)).
  pose proof (Promise_allSettled_slots old runs array s1 Hidle Hheap1) as Hslots.
  unfold Promise_allSettled in *.
  set (s2 := match latest_due s1 array with Some t => advance t s1 | None => s1 end) in *.
  simpl in Hslots.
  exists s2, (entryOf <$> (take (ceiling - 1) runs ++ drop (length tasks - 1) runs)).
  split.
  - f_equal. subst array. rewrite arrayAfter_positions by (subst ceiling; lia).
    rewrite (omap_settled s2 runs).
    + rewrite omap_app, omap_lookup_seq, drop_0 by (subst ceiling; simpl; lia). csimpl.
      assert (Hlast : ∃ r, runs !! (length sorted - 1)%nat = Some r)
        by (apply lookup_lt_is_Some_2; lia).
      destruct Hlast as [r Hlast]. rewrite Hlast. csimpl.
      rewrite <- Hlen. rewrite (drop_S runs r (length sorted - 1)) by done.
      rewrite drop_ge by lia.
      set (selected := take (ceiling - 1) runs ++ [r]).
      assert (Hsel : NoDup (id <$> (run_task <$> selected))).
      { eapply sublist_NoDup; [|apply (fmap_sublist id), (fmap_sublist run_task)].
        - rewrite Hruns. by rewrite Hperm.
        - subst selected.
          rewrite <- (take_drop (length sorted - 1) runs) at 2.
          apply sublist_app.
          + replace (ceiling - 1)%nat with ((ceiling - 1) `min` (length sorted - 1))%nat
              by (subst ceiling; lia).
            rewrite <- take_take. apply sublist_take.
          + rewrite (drop_S runs r (length sorted - 1)) by done.
            rewrite drop_ge by lia. done. }
      rewrite (list_fmap_compose resultOf FulfilledWith).
      rewrite collect_fulfilled.
      * simpl. rewrite <- list_fmap_compose. done.
      * assert (Hids : taskId <$> (resultOf <$> selected) = id <$> (run_task <$> selected)).
        { rewrite <- !list_fmap_compose. apply list_fmap_ext. intros i r' _. simpl.
          apply taskId_resultOf. }
        simpl. by rewrite Hids.
    + apply Forall_forall. intros i Hi.
      assert (Hlt : (i < length runs)%nat).
      { apply elem_of_app in Hi as [Hi|Hi].
        - apply elem_of_seq in Hi. subst ceiling. lia.
        - apply list_elem_of_singleton in Hi. lia. }
      destruct (lookup_lt_is_Some_2 runs i Hlt) as [r Hr].
      exists r. split; [done|]. apply Hslots; [done|].
      rewrite arrayAfter_positions by (subst ceiling; lia).
      apply list_elem_of_fmap. by exists i.
  - rewrite <- Hruns, <- fmap_take, <- fmap_drop, <- fmap_app.
    apply entries_for_runs.
Qed.

End RegisteredAgents.

(** ** What resetSwarm restores *)

Lemma definitions_registered userConfig k definition :
  (k, definition) ∈ agentDefinitions →
  agents (newSwarm userConfig) !! k = Some (newAgent k definition) ∧
  agentEfficiency (swarmMetrics (newSwarm userConfig)) !! k = Some newEfficiency.
Proof.
  unfold agentDefinitions. rewrite !elem_of_cons.
  intros H. repeat (destruct H as [H|H]; [simplify_eq; split; vm_compute; reflexivity|]).
  by apply not_elem_of_nil in H.
Qed.

Lemma forgetLastActive_resetAgent a k definition :
  sameIdentity a (newAgent k definition) →
  forgetLastActive (resetAgent a) = newAgent k definition.
Proof.
  intros (Hid & Hname & Hmodel & Hspec & Hcap & Hprompt).
  unfold forgetLastActive, resetAgent, newAgent in *. simpl in *. by f_equal.
Qed.

(** [resetSwarm] restores of a reachable instance what the constructor
    built, the time of an agent's last activation apart, but for the
    efficiency entries: the constructor makes one for every agent, the
    reset leaves none. *)
Theorem resetSwarm_restores userConfig sw :
  reachable userConfig sw →
  config (resetSwarm sw) = config (newSwarm userConfig) ∧
  (∀ k, forgetLastActive <$> agents (resetSwarm sw) !! k = agents (newSwarm userConfig) !! k) ∧
  totalTasks (swarmMetrics (resetSwarm sw)) = totalTasks (swarmMetrics (newSwarm userConfig)) ∧
  completedTasks (swarmMetrics (resetSwarm sw)) =
    completedTasks (swarmMetrics (newSwarm userConfig)) ∧
  failedTasks (swarmMetrics (resetSwarm sw)) = failedTasks (swarmMetrics (newSwarm userConfig)) ∧
  averageTaskTime (swarmMetrics (resetSwarm sw)) =
    averageTaskTime (swarmMetrics (newSwarm userConfig)) ∧
  (∀ k, agentEfficiency (swarmMetrics (resetSwarm sw)) !! k = None) ∧
  (∀ k, is_Some (agents (resetSwarm sw) !! k) →
        agentEfficiency (swarmMetrics (newSwarm userConfig)) !! k = Some newEfficiency).
Proof.
  intros Hreach.
  pose proof (reachable_registry userConfig sw Hreach) as Hreg.
  pose proof (reachable_config userConfig sw Hreach) as Hconfig.
  split; [done|]. split; [|split; [done|split; [done|split; [done|split; [done|split]]]]].
  - intros k. change (agents (resetSwarm sw)) with (resetAgent <$> agents sw).
    rewrite lookup_fmap. destruct (Hreg k) as [Hagent _].
    destruct (agents sw !! k) as [a|] eqn:Ha.
    + destruct Hagent as (definition & Hin & Hsame).
      destruct (definitions_registered userConfig k definition Hin) as [-> _].
      simpl. f_equal. by apply forgetLastActive_resetAgent.
    + pose proof (newSwarm_registry userConfig k) as [Hnew _].
      destruct (agents (newSwarm userConfig) !! k) as [a0|]; [|done].
      destruct Hnew as (definition & Hin & _). exfalso. apply Hagent.
      apply list_elem_of_fmap. by exists (k, definition).
  - intros k. apply lookup_empty.
  - intros k. change (agents (resetSwarm sw)) with (resetAgent <$> agents sw).
    rewrite lookup_fmap, fmap_is_Some. intros Hk.
    destruct (Hreg k) as [Hagent _].
    destruct (agents sw !! k) as [a|]; [|by destruct Hk].
    destruct Hagent as (definition & Hin & _).
    by destruct (definitions_registered userConfig k definition Hin) as [_ ->].
Qed.

(** ** Tasks after a reset *)

Lemma settle_no_efficiency now startTime task raced sw :
  agentEfficiency (swarmMetrics sw) = ∅ →
  (executeAgentTask_settle now startTime task raced sw).2 =
    RejectedWith (readOfUndefined "tasksAssigned") ∧
  agentEfficiency (swarmMetrics (executeAgentTask_settle now startTime task raced sw).1) = ∅.
Proof.
  intros He. unfold executeAgentTask_settle, executeAgentTask_catch.
  destruct raced as [response| |]; simpl; rewrite ?He, ?lookup_empty; simpl;
    rewrite ?He, ?lookup_empty; done.
Qed.

Lemma rejectBy_not_due t p : due_by t p = None → rejectBy t p = p.
Proof.
  unfold due_by, rejectBy. destruct (promise_state p) as [r|o]; [|done].
  by destruct (run_due r <=? t).
Qed.

Lemma rejectBy_due t p r :
  due_by t p = Some r →
  rejectBy t p =
    {| promise_state := Done (RejectedWith (readOfUndefined "tasksAssigned"));
       promise_id := promise_id p |}.
Proof.
  unfold due_by, rejectBy. destruct (promise_state p) as [r0|o]; [|done].
  by destruct (run_due r0 <=? t).
Qed.

Lemma isDue_rejectBy t p : isDue t (rejectBy t p) = false.
Proof.
  unfold isDue. destruct (due_by t p) as [r|] eqn:Hdue.
  - by rewrite (rejectBy_due t p r Hdue).
  - by rewrite (rejectBy_not_due t p Hdue), Hdue.
Qed.

Lemma rejectBy_idemp t p : rejectBy t (rejectBy t p) = rejectBy t p.
Proof.
  apply rejectBy_not_due. pose proof (isDue_rejectBy t p) as H.
  unfold isDue in H. by destruct (due_by t (rejectBy t p)).
Qed.

Lemma rejectBy_none_due t ps :
  Forall (λ p, due_by t p = None) ps → rejectBy t <$> ps = ps.
Proof.
  induction 1 as [|p ps Hp _ IH]; [done|].
  by rewrite fmap_cons, (rejectBy_not_due t p Hp), IH.
Qed.

Lemma settle_promise_rejects t i p r s :
  noEfficiency s →
  promises s !! i = Some p → due_by t p = Some r →
  promises (settle_promise i r s) = alter (λ _, rejectBy t p) i (promises s) ∧
  noEfficiency (settle_promise i r s).
Proof.
  intros Hnone Hi Hdue. unfold settle_promise, noEfficiency.
  destruct (settle_no_efficiency (run_due r) (run_startTime r) (run_task r) (run_raced r)
              (swarm s) Hnone) as [Hout Heff].
  destruct (executeAgentTask_settle _ _ _ _ _) as [sw outcome]. simpl in *. subst outcome.
  split; [|done].
  apply list_eq. intros j. rewrite !list_lookup_alter.
  case_decide; [subst j|done]. rewrite Hi. simpl. by rewrite (rejectBy_due t p r Hdue).
Qed.

Lemma flush_rejects fuel t s :
  noEfficiency s →
  (pendingDue t (promises s) ≤ fuel)%nat →
  promises (flush fuel t s) = rejectBy t <$> promises s ∧ noEfficiency (flush fuel t s).
Proof.
  revert s. induction fuel as [|fuel IH]; intros s Hnone Hfuel; simpl.
  - split; [|done]. symmetry. apply rejectBy_none_due, pendingDue_zero. lia.
  - destruct (next_due 0 t (promises s)) as [[i r]|] eqn:Hnext.
    + destruct (next_due_Some _ _ _ _ _ Hnext) as (j & p & -> & Hj & Hdue). simpl.
      destruct (settle_promise_rejects t j p r s Hnone Hj Hdue) as [Hps Hnone'].
      destruct (IH (settle_promise j r s) Hnone') as [Hflush Hnone''].
      * rewrite Hps.
        assert (Hcount := pendingDue_alter t (λ _, rejectBy t p) (promises s) j p Hj).
        rewrite Hcount in Hfuel; [lia| |apply isDue_rejectBy].
        unfold isDue. by rewrite Hdue.
      * split; [|done]. rewrite Hflush, Hps.
        apply (fmap_alter_same (rejectBy t) _ _ j p Hj), rejectBy_idemp.
    + split; [|done]. symmetry. by apply rejectBy_none_due, (next_due_None 0).
Qed.

Lemma advance_rejects t s :
  noEfficiency s →
  promises (advance t s) = rejectBy t <$> promises s ∧ noEfficiency (advance t s).
Proof.
  intros Hnone. unfold advance.
  by destruct (flush_rejects (length (promises s)) t s Hnone (pendingDue_le _ _)).
Qed.

Lemma notFulfilled_rejectBy t p : notFulfilled p → notFulfilled (rejectBy t p).
Proof.
  unfold notFulfilled, rejectBy. destruct (promise_state p) as [r|o] eqn:Hp.
  - destruct (run_due r <=? t); simpl; [done|by rewrite Hp].
  - by rewrite Hp.
Qed.

(** The promises of the run, from position [n0] of the heap on, are
    pending or rejected. *)
Lemma notFulfilled_advance t s n0 :
  noEfficiency s →
  Forall notFulfilled (drop n0 (promises s)) →
  Forall notFulfilled (drop n0 (promises (advance t s))).
Proof.
  intros Hnone Hnew. destruct (advance_rejects t s Hnone) as [-> _].
  rewrite <- fmap_drop. apply Forall_fmap. eapply Forall_impl; [exact Hnew|].
  intros p. apply notFulfilled_rejectBy.
Qed.

Lemma settled_rejection s n0 ref outcome :
  Forall notFulfilled (drop n0 (promises s)) → (n0 ≤ ref)%nat →
  settledOf s ref = Some outcome → isRejection outcome.
Proof.
  intros Hnew Hge. unfold settledOf.
  destruct (promises s !! ref) as [p|] eqn:Hp; [|done].
  rewrite Forall_lookup in Hnew. specialize (Hnew (ref - n0)%nat p).
  rewrite lookup_drop in Hnew. replace (n0 + (ref - n0))%nat with ref in Hnew by lia.
  specialize (Hnew Hp). unfold notFulfilled in Hnew.
  destruct p as [[r|[value|reason]] pid]; simpl in *; try done.
  intros [= <-]. by eexists.
Qed.

Lemma settled_rejections s n0 refs :
  Forall notFulfilled (drop n0 (promises s)) → Forall (λ ref, (n0 ≤ ref)%nat) refs →
  Forall isRejection (omap (settledOf s) refs).
Proof.
  intros Hnew. induction 1 as [|ref refs Href _ IH]; [by constructor|].
  csimpl. destruct (settledOf s ref) as [outcome|] eqn:Hsettled; [|done].
  constructor; [|done]. by apply (settled_rejection s n0 ref).
Qed.

Lemma collect_rejections outcomes results :
  Forall isRejection outcomes → foldl collect results outcomes = results.
Proof. induction 1 as [|outcome outcomes [reason ->] _ IH]; [done|]. exact IH. Qed.

Lemma first_settled_in s refs outcome :
  first_settled s refs = Some outcome → ∃ ref, ref ∈ refs ∧ settledOf s ref = Some outcome.
Proof.
  induction refs as [|ref refs IH]; simpl; [done|].
  destruct (settledOf s ref) as [outcome'|] eqn:Hhead.
  - intros [= <-]. exists ref. split; [apply list_elem_of_here|done].
  - intros Hrest. destruct (IH Hrest) as (ref' & Hin & Hsettled).
    exists ref'. split; [by apply list_elem_of_further|done].
Qed.

Lemma first_settled_None s refs :
  first_settled s refs = None → Forall (λ ref, settledOf s ref = None) refs.
Proof.
  induction refs as [|ref refs IH]; simpl; [by constructor|].
  destruct (settledOf s ref) eqn:Hhead; [done|]. intros Hrest. by constructor; [|apply IH].
Qed.

Lemma earliest_due_Some s refs :
  refs ≠ [] → Forall (λ ref, is_Some (dueOf s ref)) refs →
  ∃ t ref, earliest_due s refs = Some t ∧ ref ∈ refs ∧ dueOf s ref = Some t.
Proof.
  induction refs as [|ref refs IH]; intros Hne Hall; [done|].
  rewrite earliest_due_cons. apply Forall_cons in Hall as [[d Hd] Hall]. rewrite Hd.
  destruct refs as [|ref' refs'].
  - exists d, ref. split; [done|]. split; [apply list_elem_of_here|done].
  - destruct (IH ltac:(done) Hall) as (t & ref0 & -> & Hin & Hdue0).
    destruct (Z.le_gt_cases d t) as [Hle|Hgt].
    + exists d, ref. rewrite Z.min_l by done.
      split; [done|]. split; [apply list_elem_of_here|done].
    + exists t, ref0. rewrite Z.min_r by lia.
      split; [done|]. split; [by apply list_elem_of_further|done].
Qed.

Lemma pending_or_settled s ref :
  (ref < length (promises s))%nat → settledOf s ref = None → is_Some (dueOf s ref).
Proof.
  intros Hlt. unfold settledOf, dueOf.
  destruct (lookup_lt_is_Some_2 (promises s) ref Hlt) as [[[r|outcome] pid] ->]; [by eexists|done].
Qed.

Lemma advance_rejects_due t s ref d :
  noEfficiency s → dueOf s ref = Some d → d ≤ t → is_Some (settledOf (advance t s) ref).
Proof.
  intros Hnone Hdue Hle. destruct (advance_rejects t s Hnone) as [Hadv _].
  unfold settledOf, dueOf in *. rewrite Hadv, list_lookup_fmap.
  destruct (promises s !! ref) as [[[r|outcome] pid]|]; simplify_eq; simpl.
  unfold rejectBy. simpl. rewrite (proj2 (Z.leb_le _ _) Hle). by eexists.
Qed.

(** Without efficiency entries the race of line 220 throws: the first
    promise of the array to settle is rejected. *)
Lemma Promise_race_throws n0 refs s :
  noEfficiency s →
  Forall notFulfilled (drop n0 (promises s)) →
  Forall (λ ref, (n0 ≤ ref < length (promises s))%nat) refs → refs ≠ [] →
  ∃ s' reason, Promise_race refs s = Throws s' reason.
Proof.
  intros Hnone Hnew Hrefs Hne. unfold Promise_race.
  destruct (first_settled s refs) as [outcome|] eqn:Hfirst.
  - destruct (first_settled_in s refs outcome Hfirst) as (ref & Hin & Hsettled).
    rewrite Forall_forall in Hrefs.
    destruct (settled_rejection s n0 ref outcome Hnew ltac:(by apply Hrefs) Hsettled)
      as [reason ->].
    by exists s, reason.
  - pose proof (first_settled_None s refs Hfirst) as Hpending.
    destruct (earliest_due_Some s refs Hne) as (t & ref & -> & Hin & Hdue).
    { rewrite Forall_forall in Hrefs, Hpending |- *. intros ref Href.
      apply pending_or_settled; [by apply Hrefs|by apply Hpending]. }
    destruct (advance_rejects_due t s ref t Hnone Hdue ltac:(lia)) as [o Ho].
    destruct (first_settled_elem (advance t s) refs ref o Hin Ho) as [outcome Hfirst'].
    rewrite Hfirst'.
    destruct (first_settled_in _ refs outcome Hfirst') as (ref' & Hin' & Hsettled').
    rewrite Forall_forall in Hrefs.
    destruct (settled_rejection (advance t s) n0 ref' outcome) as [reason ->];
      [by apply notFulfilled_advance|by apply Hrefs|done|].
    by exists (advance t s), reason.
Qed.

Section AfterReset.

Variable chat : nat → ChatRequest → ChatBehaviour.

Lemma loopOver_app tasks rest s activeTasks :
  loopOver chat (tasks ++ rest) s activeTasks =
    match loopOver chat tasks s activeTasks with
    | Returns s' activeTasks' => loopOver chat rest s' activeTasks'
    | other => other
    end.
Proof.
  revert s activeTasks. induction tasks as [|task tasks IH]; intros s activeTasks; simpl; [done|].
  destruct (loopTurn chat task s activeTasks) as [s1 active1|s1 reason|]; [apply IH|done..].
Qed.

Lemma loopTurn_config task s activeTasks s' activeTasks' :
  loopTurn chat task s activeTasks = Returns s' activeTasks' →
  config (swarm s') = config (swarm s).
Proof.
  unfold loopTurn.
  destruct (Z.of_nat (length activeTasks) >=? maxConcurrentAgents (config (swarm s))).
  - destruct (Promise_race activeTasks s) as [s1 completed|s1 reason|] eqn:Hrace; [|done|done].
    pose proof (Promise_race_config _ _ _ _ Hrace) as Hconfig1.
    pose proof (executeAgentTask_config chat task s1) as Hconfig2.
    destruct (executeAgentTask chat task s1) as [s2 taskPromise].
    intros [= <- _]. simpl in *. congruence.
  - pose proof (executeAgentTask_config chat task s) as Hconfig.
    destruct (executeAgentTask chat task s) as [s2 taskPromise].
    by intros [= <- _].
Qed.

Lemma loopOver_config tasks s activeTasks s' activeTasks' :
  loopOver chat tasks s activeTasks = Returns s' activeTasks' →
  config (swarm s') = config (swarm s).
Proof.
  revert s activeTasks. induction tasks as [|task rest IH]; intros s activeTasks; simpl.
  - by intros [= <- _].
  - destruct (loopTurn chat task s activeTasks) as [s1 active1|s1 reason|] eqn:Hturn;
      [|done|done].
    intros Hrest. rewrite (IH _ _ Hrest). by apply (loopTurn_config task s activeTasks s1 active1).
Qed.

(** Without efficiency entries no call of [executeAgentTask] returns a
    fulfilled promise: when the prompt builder throws, line 300 throws in
    the [catch] block. *)
Lemma startTask_no_efficiency task s :
  noEfficiency s →
  ∃ p, promises (startTask chat task s) = promises s ++ [p] ∧
       notFulfilled p ∧
       noEfficiency (startTask chat task s).
Proof.
  intros Hnone. unfold startTask, executeAgentTask.
  destruct (executeAgentTask_start _ _ _) as [reason|[sw [typeError|request]]] eqn:Hstart.
  - eexists. split; [simpl; by rewrite alter_app_r_alt, Nat.sub_diag by done|]. done.
  - destruct (start_metrics _ _ _ _ _ Hstart) as [Hmetrics _].
    unfold executeAgentTask_catch. simpl. rewrite Hmetrics, Hnone, lookup_empty. simpl.
    eexists. split; [by rewrite alter_app_r_alt, Nat.sub_diag by done|].
    split; [done|]. unfold noEfficiency. simpl. by rewrite Hmetrics.
  - destruct (start_metrics _ _ _ _ _ Hstart) as [Hmetrics _].
    destruct (race _ _) as [elapsed raced]. simpl.
    eexists. split; [by rewrite alter_app_r_alt, Nat.sub_diag by done|].
    split; [done|]. unfold noEfficiency. simpl. by rewrite Hmetrics.
Qed.

Lemma loopOver_no_efficiency tasks s activeTasks :
  Z.of_nat (length activeTasks + length tasks) ≤ maxConcurrentAgents (config (swarm s)) →
  noEfficiency s →
  ∃ s' new,
    loopOver chat tasks s activeTasks =
      Returns s' (activeTasks ++ seq (length (promises s)) (length tasks)) ∧
    promises s' = promises s ++ new ∧
    length new = length tasks ∧
    Forall notFulfilled new ∧
    noEfficiency s'.
Proof.
  revert s activeTasks.
  induction tasks as [|task rest IH]; intros s activeTasks Hroom Hnone; simpl.
  - exists s, []. by rewrite !app_nil_r.
  - rewrite loopTurn_below by (simpl in Hroom; lia).
    destruct (startTask_no_efficiency task s Hnone) as (p & Hps & Hp & Hnone1).
    destruct (startTask_shape chat task s) as (_ & _ & Hconfig).
    destruct (IH (startTask chat task s) (activeTasks ++ [length (promises s)]))
      as (s' & new & Hloop & Hps' & Hlen & Hnew & Hnone').
    { rewrite Hconfig, length_app. simpl in *. lia. }
    { done. }
    exists s', (p :: new). rewrite Hloop, Hps', Hps, length_app.
    simpl. rewrite <- !app_assoc. simpl. rewrite Nat.add_1_r.
    split; [done|]. split; [done|]. split; [by rewrite Hlen|]. split; [by constructor|done].
Qed.

(** Under the ceiling, without efficiency entries: every promise is
    rejected and the map stays empty. *)
Lemma executeSwarmTasks_no_efficiency_below tasks s :
  noEfficiency s →
  Z.of_nat (length tasks) ≤ maxConcurrentAgents (config (swarm s)) →
  ∃ s', executeSwarmTasks chat tasks s = Returns s' [] ∧ noEfficiency s'.
Proof.
  intros Hnone Hroom.
  pose proof (sort_perm comparePriority tasks) as Hperm.
  set (sorted := sort comparePriority tasks) in *.
  destruct (loopOver_no_efficiency sorted s [])
    as (s1 & new & Hloop & Hps & Hstarted & Hnew & Hnone1).
  { simpl. by rewrite (Permutation_length Hperm). }
  { done. }
  simpl in Hloop.
  assert (Hnew1 : Forall notFulfilled (drop (length (promises s)) (promises s1))).
  { by rewrite Hps, drop_app_length. }
  unfold executeSwarmTasks. fold sorted. rewrite Hloop. unfold Promise_allSettled.
  set (refs := seq (length (promises s)) (length sorted)).
  set (s2 := match latest_due s1 refs with Some t => advance t s1 | None => s1 end).
  assert (Hs2 : noEfficiency s2 ∧ Forall notFulfilled (drop (length (promises s)) (promises s2))).
  { subst s2. destruct (latest_due s1 refs) as [t|]; [|done].
    split; [by apply advance_rejects|by apply notFulfilled_advance]. }
  destruct Hs2 as [Hnone2 Hnew2].
  exists s2. split; [|done].
  f_equal. apply collect_rejections, (settled_rejections s2 (length (promises s))); [done|].
  apply Forall_forall. intros ref Href. apply elem_of_seq in Href. lia.
Qed.

(** Beyond the ceiling, without efficiency entries: the first race of the
    loop throws. *)
Lemma executeSwarmTasks_no_efficiency_beyond tasks s :
  noEfficiency s →
  1 ≤ maxConcurrentAgents (config (swarm s)) →
  maxConcurrentAgents (config (swarm s)) < Z.of_nat (length tasks) →
  ∃ s' reason, executeSwarmTasks chat tasks s = Throws s' reason.
Proof.
  intros Hnone Hone Hmany.
  pose proof (sort_perm comparePriority tasks) as Hperm.
  set (sorted := sort comparePriority tasks) in *.
  set (ceiling := Z.to_nat (maxConcurrentAgents (config (swarm s)))).
  assert (Hlen : length sorted = length tasks) by by rewrite Hperm.
  destruct (drop ceiling sorted) as [|task rest] eqn:Hdrop.
  { apply (f_equal length) in Hdrop. rewrite length_drop in Hdrop. simpl in Hdrop.
    subst ceiling. lia. }
  destruct (loopOver_no_efficiency (take ceiling sorted) s [])
    as (s1 & new & Hloop & Hps & Hstarted & Hnew & Hnone1).
  { simpl. rewrite length_take. subst ceiling. lia. }
  { done. }
  simpl in Hloop.
  assert (Hfirst : length (take ceiling sorted) = ceiling)
    by (rewrite length_take; subst ceiling; lia).
  rewrite Hfirst in Hloop.
  assert (Hconfig : config (swarm s1) = config (swarm s)).
  { by apply (loopOver_config (take ceiling sorted) s [] s1 _ Hloop). }
  assert (Hnew1 : Forall notFulfilled (drop (length (promises s)) (promises s1))).
  { by rewrite Hps, drop_app_length. }
  destruct (Promise_race_throws (length (promises s)) (seq (length (promises s)) ceiling) s1)
    as (s2 & reason & Hrace); [done|done| | |].
  { apply Forall_forall. intros ref Href. apply elem_of_seq in Href.
    rewrite Hps, length_app. lia. }
  { intros Hnil. apply (f_equal length) in Hnil. rewrite length_seq in Hnil. simpl in Hnil.
    subst ceiling. lia. }
  exists s2, reason. unfold executeSwarmTasks. fold sorted.
  rewrite <- (take_drop ceiling sorted), Hdrop, loopOver_app, Hloop. simpl.
  unfold loopTurn. rewrite length_seq, Hconfig.
  replace (Z.of_nat ceiling >=? maxConcurrentAgents (config (swarm s))) with true
    by (symmetry; rewrite Z.geb_leb; apply Z.leb_le; subst ceiling; lia).
  by rewrite Hrace.
Qed.

(** An instance without efficiency entries, which is what [resetSwarm]
    leaves, completes no task any more: whatever the backend answers,
    [executeSwarmTasks] returns an empty map for a list that fits under the
    ceiling and throws for a longer one. *)
Theorem executeSwarmTasks_after_reset tasks s :
  1 ≤ maxConcurrentAgents (config (swarm s)) →
  let s0 := afterReset s in
  (Z.of_nat (length tasks) ≤ maxConcurrentAgents (config (swarm s)) →
   ∃ s', executeSwarmTasks chat tasks s0 = Returns s' []) ∧
  (maxConcurrentAgents (config (swarm s)) < Z.of_nat (length tasks) →
   ∃ s' reason, executeSwarmTasks chat tasks s0 = Throws s' reason).
Proof.
  intros Hone s0. split.
  - intros Hroom.
    destruct (executeSwarmTasks_no_efficiency_below tasks s0) as (s' & Hrun & _); [done|done|].
    by exists s'.
  - intros Hmany. by apply executeSwarmTasks_no_efficiency_beyond.
Qed.

(** After a reset [analyzeRepositorySwarm] has nothing to report: for a
    request that fits under the ceiling it returns the degraded result,
    with confidence "low" and without any individual result, whatever the
    backend answers, and the instance it leaves is as unable as before. *)
Theorem analyzeRepositorySwarm_after_reset repository analysisTypes s :
  Z.of_nat (length (createSwarmTasks (clock s) repository
                      (default ["comprehensive"] analysisTypes)))
    ≤ maxConcurrentAgents (config (swarm s)) →
  ∃ s' run,
    analyzeRepositorySwarm chat repository analysisTypes (afterReset s) = Returns s' run ∧
    individualResults run = [] ∧
    swarmAnalysis run = degradedResult ∧
    noEfficiency s'.
Proof.
  intros Hroom.
  destruct (executeSwarmTasks_no_efficiency_below
              (createSwarmTasks (clock s) repository (default ["comprehensive"] analysisTypes))
              (afterReset s)) as (s1 & Hrun & Hnone1); [done|done|].
  unfold analyzeRepositorySwarm.
  change (clock (afterReset s)) with (clock s). rewrite Hrun.
  rewrite coordinateResults_degraded by done.
  eexists _, _. split; [done|]. simpl. split; [done|]. split; [done|]. exact Hnone1.
Qed.

End AfterReset.

(** ** An advanced task and an ordinary one *)

(** [executeAdvancedTask] settles its promise as [executeAgentTask] does
    for the same race, with the same result or with the same rejection,
    and changes the agent in the same way; it leaves the totals and the
    efficiency entries as they are. *)
Theorem executeAdvancedTask_like_executeAgentTask now startTime task raced sw :
  is_Some (agentEfficiency (swarmMetrics sw) !! agentId task) →
  let ordinary := executeAgentTask_settle now startTime task raced sw in
  let advanced := executeAdvancedTask_settle now startTime task raced sw in
  ordinary.2 = advanced.2 ∧
  agents ordinary.1 = agents advanced.1 ∧
  swarmMetrics advanced.1 = swarmMetrics sw ∧
  config advanced.1 = config sw.
Proof.
  intros [e He]. unfold executeAgentTask_settle, executeAdvancedTask_settle,
    executeAgentTask_catch, executeAdvancedTask_catch.
  destruct raced as [[| |]|[| |]|]; simpl; rewrite ?He; simpl;
    rewrite ?lookup_alter_eq, ?He; simpl; done.
Qed.

Lemma executeAdvancedTask_settle_metrics now startTime task raced sw :
  swarmMetrics (executeAdvancedTask_settle now startTime task raced sw).1 = swarmMetrics sw ∧
  config (executeAdvancedTask_settle now startTime task raced sw).1 = config sw.
Proof. by destruct raced as [[| |]|[| |]|]. Qed.

Lemma executeAdvancedTask_settle_readable now startTime task raced sw :
  readable raced →
  ∃ value, (executeAdvancedTask_settle now startTime task raced sw).2 = FulfilledWith value.
Proof. destruct raced as [[| |]|[| |]|]; intros Hreadable; try done; by eexists. Qed.

(** ** A run of the advanced analyses *)

Lemma pendingFrom_indices i ps :
  Forall isPending ps → (pendingFrom i ps).*1 = seq i (length ps).
Proof.
  intros Hall. revert i. induction Hall as [|p ps [r ->] _ IH]; intros i; [done|].
  simpl. by rewrite IH.
Qed.

Lemma pendingFrom_readable i ps :
  Forall (λ p, ∃ r, p = AdvPending r ∧ readable (adv_raced r)) ps →
  Forall (λ entry, readable (adv_raced entry.2)) (pendingFrom i ps).
Proof.
  intros Hall. revert i. induction Hall as [|p ps (r & -> & Hr) _ IH]; intros i; [constructor|].
  simpl. constructor; [done|apply IH].
Qed.

Lemma settleAdvanced_fold startTime entries sw values :
  Forall (λ entry, readable (adv_raced entry.2)) entries →
  let after := foldl (settleAdvanced startTime) (sw, values) entries in
  length after.2 = length values ∧
  swarmMetrics after.1 = swarmMetrics sw ∧
  config after.1 = config sw ∧
  ∀ i, ((∃ value, values !! i = Some (Some (FulfilledWith value))) ∨
        (i < length values)%nat ∧ i ∈ entries.*1) →
       ∃ value, after.2 !! i = Some (Some (FulfilledWith value)).
Proof.
  intros Hread. revert sw values.
  induction Hread as [|[j r] entries Hr _ IH]; intros sw values; simpl.
  - split; [done|]. split; [done|]. split; [done|]. intros i [Hi|[_ Hi]]; [done|].
    by apply not_elem_of_nil in Hi.
  - assert (Hstep : ∃ sw' value,
               settleAdvanced startTime (sw, values) (j, r) =
                 (sw', <[j := Some (FulfilledWith value)]> values) ∧
               swarmMetrics sw' = swarmMetrics sw ∧
               config sw' = config sw).
    { unfold settleAdvanced. simpl.
      destruct (executeAdvancedTask_settle_metrics (adv_due r) startTime (adv_running r)
                  (adv_raced r) sw) as [Hmetrics Hconfig].
      destruct (executeAdvancedTask_settle_readable (adv_due r) startTime (adv_running r)
                  (adv_raced r) sw Hr) as [value Hvalue].
      destruct (executeAdvancedTask_settle _ _ _ _ sw) as [sw' outcome]. simpl in *.
      subst outcome. by exists sw', value. }
    destruct Hstep as (sw' & value & -> & Hmetrics & Hconfig).
    destruct (IH sw' (<[j := Some (FulfilledWith value)]> values)) as (Hlen & Hm & Hc & Hsome).
    rewrite length_insert in Hlen. split; [done|]. split; [congruence|]. split; [congruence|].
    intros i Hi. apply Hsome. rewrite length_insert.
    destruct (decide (i = j)) as [->|Hne].
    + left. exists value. apply list_lookup_insert_eq.
      destruct Hi as [[v Hi]|[Hlt _]]; [by apply lookup_lt_Some in Hi|done].
    + destruct Hi as [Hi|[Hlt Hi]].
      * left. by rewrite list_lookup_insert_ne.
      * right. split; [done|]. by apply elem_of_cons in Hi as [Hi|Hi].
Qed.

Lemma omap_fulfilled_length (values : list (option Settled)) :
  Forall (λ settled, ∃ value, settled = Some (FulfilledWith value)) values →
  length (omap fulfilledValue values) = length values.
Proof. induction 1 as [|x l [a ->] _ IH]; [done|]. csimpl. by rewrite IH. Qed.

Section IntelligenceRuns.

Variable chat : nat → IntelligenceRequest → ChatBehaviour.
Hypothesis Hreadable : readableBackend chat.

Lemma executeAdvancedTask_known task s :
  is_Some (agents (intel_swarm s) !! agentId (adv_task task)) →
  is_Some (specialPrompt task) →
  ∃ r s',
    executeAdvancedTask chat task s = (s', AdvPending r) ∧
    readable (adv_raced r) ∧
    swarmMetrics (intel_swarm s') = swarmMetrics (intel_swarm s) ∧
    config (intel_swarm s') = config (intel_swarm s) ∧
    (∀ k, is_Some (agents (intel_swarm s') !! k) ↔ is_Some (agents (intel_swarm s) !! k)) ∧
    length (intel_calls s') = S (length (intel_calls s)) ∧
    intel_clock s' = intel_clock s.
Proof.
  intros [agent Hagent] [text Htext].
  unfold executeAdvancedTask, executeAdvancedTask_start, advancedPrompt.
  rewrite Hagent, Htext. simpl.
  pose proof (race_readable chat (taskTimeout (config (intel_swarm s)))
                (length (intel_calls s))
                {| intel_content := text; intel_model := model agent;
                   intel_max_tokens := 3000 |} Hreadable) as Hread.
  destruct (race _ _) as [elapsed raced].
  eexists _, _. split; [done|]. simpl. split; [done|]. split; [done|]. split; [done|].
  split; [|split; [|done]].
  - intros k. rewrite lookup_alter. case_decide; [subst k|done]. by rewrite fmap_is_Some.
  - rewrite length_app. simpl. lia.
Qed.

Lemma startIntelligence_known tasks s ps :
  Forall (λ task, is_Some (agents (intel_swarm s) !! agentId (adv_task task)) ∧
                  is_Some (specialPrompt task)) tasks →
  ∃ s' ps',
    foldl (λ acc task, let '(s, p) := executeAdvancedTask chat task acc.1 in (s, acc.2 ++ [p]))
      (s, ps) tasks = (s', ps ++ ps') ∧
    Forall (λ p, ∃ r, p = AdvPending r ∧ readable (adv_raced r)) ps' ∧
    length ps' = length tasks ∧
    swarmMetrics (intel_swarm s') = swarmMetrics (intel_swarm s) ∧
    config (intel_swarm s') = config (intel_swarm s) ∧
    length (intel_calls s') = (length (intel_calls s) + length tasks)%nat ∧
    intel_clock s' = intel_clock s.
Proof.
  intros Hall. revert s ps Hall. induction tasks as [|task tasks IH]; intros s ps Hall; simpl.
  - exists s, []. rewrite app_nil_r, Nat.add_0_r. by repeat split.
  - apply Forall_cons in Hall as [[Htask Hspecial] Hall].
    destruct (executeAdvancedTask_known task s Htask Hspecial)
      as (r & s1 & -> & Hr & Hmetrics & Hconfig & Hdom & Hcalls & Hclock).
    destruct (IH s1 (ps ++ [AdvPending r])) as (s' & ps' & -> & Hpending & Hlen & Hm & Hc & Hn & Ht).
    { eapply Forall_impl; [exact Hall|]. intros task'. simpl. by rewrite Hdom. }
    exists s', (AdvPending r :: ps'). rewrite <- app_assoc. simpl.
    split; [done|]. split; [constructor; [by eexists|done]|].
    split; [by rewrite Hlen|]. split; [congruence|]. split; [congruence|].
    split; [lia|congruence].
Qed.

Lemma settleIntelligence_pending startTime ps s :
  Forall (λ p, ∃ r, p = AdvPending r ∧ readable (adv_raced r)) ps →
  let after := settleIntelligence startTime ps s in
  length after.2 = length ps ∧
  swarmMetrics (intel_swarm after.1) = swarmMetrics (intel_swarm s) ∧
  config (intel_swarm after.1) = config (intel_swarm s) ∧
  intel_calls after.1 = intel_calls s.
Proof.
  intros Hall. unfold settleIntelligence.
  assert (Hpending : Forall isPending ps).
  { eapply Forall_impl; [exact Hall|]. intros p (r & -> & _). by exists r. }
  pose proof (settleAdvanced_fold startTime (sort byDue (pendingFrom 0 ps)) (intel_swarm s)
                (settledSoFar ps)) as Hfold.
  destruct (foldl _ _ _) as [sw values]. simpl in *.
  destruct Hfold as (Hlen & Hmetrics & Hconfig & Hsome).
  { rewrite sort_perm. by apply pendingFrom_readable. }
  unfold settledSoFar in Hlen, Hsome. rewrite length_map in Hlen, Hsome.
  split; [|done].
  rewrite omap_fulfilled_length; [done|].
  apply Forall_lookup. intros i value Hi.
  destruct (Hsome i) as [v Hv]; [|rewrite Hi in Hv; injection Hv as ->; by eexists].
  right. apply lookup_lt_Some in Hi. split; [lia|].
  rewrite (sort_perm byDue (pendingFrom 0 ps)), (pendingFrom_indices 0 ps Hpending).
  apply elem_of_seq. lia.
Qed.

(** However the four analyses end, with answers, failures or timeouts,
    [performAdvancedIntelligence] reports a confidence of "high": for a
    repository [buildRepositoryContext] can describe, on an instance that
    has the architect and the quality agent, against a backend that
    rejects no call with [null] or [undefined], it returns, as soon as the
    summary call is answered or fails, a report with four analyses and
    that confidence, after five requests, and leaves the totals and the
    efficiency entries as they were. *)
Theorem performAdvancedIntelligence_confidence repository s :
  is_Some (agents (intel_swarm s) !! "architect") →
  is_Some (agents (intel_swarm s) !! "quality") →
  buildRepositoryContext (Some repository) = inr repository →
  (∀ request, chat (length (intel_calls s) + 4) request ≠ NeverSettles) →
  ∃ s' report,
    performAdvancedIntelligence chat repository s = IntelReturns s' report ∧
    length (intelligenceAnalysis report) = 4%nat ∧
    report_confidence report = "high" ∧
    length (intel_calls s') = (length (intel_calls s) + 5)%nat ∧
    swarmMetrics (intel_swarm s') = swarmMetrics (intel_swarm s).
Proof.
  intros Harchitect Hquality Hcontext Hsettles.
  unfold performAdvancedIntelligence, startIntelligence. rewrite Hcontext.
  destruct (startIntelligence_known (advancedTasks (intel_clock s) repository) s [])
    as (s1 & ps & -> & Hpending & Hlen & Hmetrics1 & Hconfig1 & Hcalls1 & Hclock1).
  { unfold advancedTasks.
    repeat (apply Forall_cons_2; [split; simpl; [done|by eexists]|]).
    apply Forall_nil_2. }
  simpl app.
  destruct (settleIntelligence_pending (intel_clock s) ps s1 Hpending)
    as (Hlen2 & Hmetrics2 & Hconfig2 & Hcalls2).
  destruct (settleIntelligence (intel_clock s) ps s1) as [s2 successful]. simpl in *.
  unfold generateIntelligenceSummary.
  rewrite bool_decide_eq_false_2 by (rewrite Hlen2, Hlen; lia).
  rewrite Hcalls2, Hcalls1.
  destruct (chat _ _) as [delay outcome|] eqn:Hreply; [|by apply Hsettles in Hreply].
  assert (Hhigh : (if Z.of_nat (length successful) >=? 3 then "high"
                   else if Z.of_nat (length successful) >=? 2 then "medium" else "low")
                  = "high") by (by rewrite Hlen2, Hlen).
  destruct outcome as [[| |]|]; eexists _, _; (split; [done|]); simpl;
    rewrite ?Hhigh, ?Hlen2, ?Hlen, ?length_app, ?Hcalls1; simpl;
    repeat split; try lia; congruence.
Qed.

(** A repository [buildRepositoryContext] cannot describe: the function
    throws before it starts a task. *)
Lemma performAdvancedIntelligence_throws repository s typeError :
  buildRepositoryContext (Some repository) = inl typeError →
  performAdvancedIntelligence chat repository s = IntelThrows typeError.
Proof. intros Hcontext. unfold performAdvancedIntelligence. by rewrite Hcontext. Qed.

End IntelligenceRuns.

(** ** Runs under the ceiling *)


Section UnderCeiling.

Variable chat : nat → ChatRequest → ChatBehaviour.
Hypothesis Hreadable : readableBackend chat.

(** A task whose agent does not exist costs the run nothing but its own
    result: under the ceiling, against a backend that rejects no call with
    [null] or [undefined], the executor returns one result for each task
    of an agent that exists, in the order of the sorted list, and leaves
    the others out without an error. A task whose prompt cannot be built
    has its result too: a failure with the message of the [TypeError]. *)
Theorem executeSwarmTasks_unknown_agents tasks s :
  Z.of_nat (length tasks) ≤ maxConcurrentAgents (config (swarm s)) →
  (∀ k, is_Some (agents (swarm s) !! k) →
        is_Some (agentEfficiency (swarmMetrics (swarm s)) !! k)) →
  NoDup (id <$> tasks) →
  Forall isDone (promises s) →
  ∃ s' results,
    executeSwarmTasks chat tasks s = Returns s' results ∧
    Forall2 (λ task entry, resultFor task entry ∧ failsWithoutPrompt task entry)
      (List.filter (knownAgent (swarm s)) (sort comparePriority tasks)) results.
Proof.
  intros Hroom Hentries Hnodup Hidle.
  assert (Hentries' : Forall (hasEntryIfKnown (swarm s)) tasks).
  { apply Forall_forall. intros task _. exact (Hentries (agentId task)). }
  destruct (executeSwarmTasks_below_ceiling chat Hreadable tasks s Hroom Hentries' Hnodup Hidle)
    as (s' & runs & Hrun & Hruns & Hstart & _).
  exists s', (entryOf <$> runs). split; [done|].
  rewrite <- Hruns. clear -Hstart.
  induction Hstart as [|r runs [_ Hr] _ IH]; [by constructor|].
  rewrite !fmap_cons. constructor; [|exact IH].
  split; [apply resultFor_resultOf|exact Hr].
Qed.


End UnderCeiling.

(** ** A ceiling of zero *)

Section ZeroCeiling.

Variable chat : nat → ChatRequest → ChatBehaviour.

(** The constructor keeps a ceiling of zero (or less) the caller passes:
    the [...config] at the end of the object literal overrides the default
    the [||] before it has chosen. On such an instance [executeSwarmTasks]
    never returns from a task list that is not empty. *)
Theorem executeSwarmTasks_zero_ceiling userConfig ceiling tasks s :
  user_maxConcurrentAgents userConfig = Some ceiling →
  ceiling ≤ 0 →
  config (swarm s) = mkConfig userConfig →
  tasks ≠ [] →
  maxConcurrentAgents (config (swarm s)) = ceiling ∧
  executeSwarmTasks chat tasks s = Hangs.
Proof.
  intros Huser Hzero Hconfig Hne.
  assert (Hceiling : maxConcurrentAgents (config (swarm s)) = ceiling).
  { rewrite Hconfig. unfold mkConfig. simpl. by rewrite Huser. }
  split; [done|]. apply executeSwarmTasks_hangs; [lia|done].
Qed.

End ZeroCeiling.

(** ** The status of the agents *)

Lemma agentAfter_idle executionTime raced a : status (agentAfter executionTime raced a) = idle.
Proof. by destruct raced. Qed.

Lemma settle_promise_tracks i p r s :
  promises s !! i = Some p → promise_state p = Pending r →
  tracksPending s → tracksPending (settle_promise i r s).
Proof.
  intros Hi Hstate Htracks k a. unfold settle_promise.
  pose proof (settle_agents (run_due r) (run_startTime r) (run_task r) (run_raced r)
                (swarm s) k) as Ha.
  destruct (executeAgentTask_settle _ _ _ _ _) as [sw outcome]. simpl in *.
  rewrite Ha. case_decide as Hk.
  - destruct (agents (swarm s) !! k) as [a0|]; [|done]. simpl. intros [= <-].
    by rewrite agentAfter_idle.
  - intros Hagent Hactive. destruct (Htracks k a Hagent Hactive) as (q & r' & Hq & Hstate' & Hk').
    exists q, r'. split; [|done].
    apply list_elem_of_lookup in Hq as [j Hj]. apply list_elem_of_lookup. exists j.
    rewrite list_lookup_alter. case_decide; [|done]. subst j.
    rewrite Hi in Hj. injection Hj as ->. congruence.
Qed.

Lemma flush_tracks fuel t s : tracksPending s → tracksPending (flush fuel t s).
Proof.
  revert s. induction fuel as [|fuel IH]; intros s Htracks; simpl; [done|].
  destruct (next_due 0 t (promises s)) as [[i r]|] eqn:Hnext; [|done].
  destruct (next_due_Some _ _ _ _ _ Hnext) as (j & p & -> & Hj & Hdue).
  destruct (due_by_Some _ _ _ Hdue) as [Hstate _].
  by apply IH, (settle_promise_tracks j p).
Qed.

Lemma advance_tracks t s : tracksPending s → tracksPending (advance t s).
Proof. intros Htracks. by apply (flush_tracks (length (promises s)) t s). Qed.

Lemma Promise_race_tracks refs s s' :
  tracksPending s → finalSim (Promise_race refs s) = Some s' → tracksPending s'.
Proof.
  intros Htracks. unfold Promise_race.
  destruct (first_settled s refs) as [[value|reason]|].
  - by intros [= <-].
  - by intros [= <-].
  - destruct (earliest_due s refs) as [t|]; [|done].
    destruct (first_settled (advance t s) refs) as [[value|reason]|]; [| |done];
      intros [= <-]; by apply advance_tracks.
Qed.

Lemma coordinateResults_tracks chat results repository s s' :
  tracksPending s →
  finalSim (coordinateResults chat results repository s) = Some s' →
  tracksPending s'.
Proof.
  intros Htracks. unfold coordinateResults.
  case_bool_decide; [by intros [= <-]|].
  destruct (chat _ _) as [delay outcome|]; [|done].
  destruct outcome as [[| |]|]; intros [= <-];
    by apply (advance_tracks _ (logCall _ s)).
Qed.

Lemma activeAgents_idle sw :
  (∀ k a, agents sw !! k = Some a → status a = idle) →
  activeAgents (getSwarmMetrics sw) = 0.
Proof.
  intros Hidle. unfold getSwarmMetrics. simpl.
  assert (Hnone : List.filter isActive (map_to_list (agents sw)).*2 = []); [|by rewrite Hnone].
  assert (Hall : Forall (λ a, isActive a = false) (map_to_list (agents sw)).*2).
  { apply Forall_forall. intros a Ha. apply list_elem_of_fmap in Ha as ([k a'] & -> & Hin).
    apply elem_of_map_to_list in Hin. unfold isActive. simpl.
    by rewrite (Hidle k a' Hin). }
  induction Hall as [|a l Ha _ IH]; [done|]. simpl. by rewrite Ha.
Qed.

Lemma freshSim_tracks userConfig now : tracksPending (freshSim userConfig now).
Proof.
  intros k a Ha Hactive. exfalso.
  change (agents (swarm (freshSim userConfig now))) with (agents (newSwarm userConfig)) in Ha.
  destruct (newSwarm_registry userConfig k) as [Hagent _]. rewrite Ha in Hagent.
  destruct Hagent as (definition & Hin & _).
  destruct (definitions_registered userConfig k definition Hin) as [Hnew _].
  rewrite Hnew in Ha. injection Ha as <-. done.
Qed.

Section Status.

Variable chat : nat → ChatRequest → ChatBehaviour.

Lemma startTask_tracks task s : tracksPending s → tracksPending (startTask chat task s).
Proof.
  intros Htracks k a. unfold startTask, executeAgentTask, setPromiseId.
  destruct (executeAgentTask_start (clock s) task (swarm s))
    as [reason|[sw [typeError|request]]] eqn:Hstart.
  - simpl. intros Hagent Hactive.
    destruct (Htracks k a Hagent Hactive) as (p & r & Hp & Hstate & Hk).
    exists p, r. split; [|done]. rewrite alter_app_r_alt by done.
    apply elem_of_app. by left.
  - pose proof (start_agents _ _ _ _ _ k Hstart) as Hagents.
    pose proof (catch_agents (clock s) (clock s) task typeError sw) as Hcatch.
    destruct (executeAgentTask_catch _ _ _ _ _) as [sw' outcome]. simpl in *.
    rewrite Hcatch, lookup_alter. rewrite alter_app_r_alt by done.
    case_decide as Hk.
    + destruct (agents sw !! agentId task) as [a0|]; [|done]. simpl. by intros [= <-].
    + rewrite Hagents. intros Hagent Hactive.
      destruct (Htracks k a Hagent Hactive) as (p & r & Hp & Hstate & Hk').
      exists p, r. split; [|done]. apply elem_of_app. by left.
  - pose proof (start_agents _ _ _ _ _ k Hstart) as Hagents.
    destruct (race _ _) as [elapsed raced]. simpl. rewrite Hagents.
    rewrite alter_app_r_alt, Nat.sub_diag by done. simpl.
    case_decide as Hk.
    + intros _ _. eexists _, _. split; [apply elem_of_app; right; apply list_elem_of_here|].
      simpl. split; [reflexivity|done].
    + intros Hagent Hactive.
      destruct (Htracks k a Hagent Hactive) as (p & r & Hp & Hstate & Hk').
      exists p, r. split; [|done]. apply elem_of_app. by left.
Qed.

Lemma loopTurn_tracks task s activeTasks s' :
  tracksPending s →
  finalSim (loopTurn chat task s activeTasks) = Some s' →
  tracksPending s'.
Proof.
  intros Htracks. unfold loopTurn. fold (startTask chat task).
  destruct (Z.of_nat (length activeTasks) >=? maxConcurrentAgents (config (swarm s))).
  - pose proof (Promise_race_tracks activeTasks s) as Hrace.
    destruct (Promise_race activeTasks s) as [s1 completedTask|s1 reason|]; [| |done].
    + specialize (Hrace s1 Htracks eq_refl).
      pose proof (startTask_tracks task s1 Hrace) as Hstart. unfold startTask in Hstart.
      destruct (executeAgentTask chat task s1) as [s2 taskPromise].
      by intros [= <-].
    + intros [= <-]. by apply Hrace.
  - pose proof (startTask_tracks task s Htracks) as Hstart. unfold startTask in Hstart.
    destruct (executeAgentTask chat task s) as [s2 taskPromise].
    by intros [= <-].
Qed.

Lemma loopOver_tracks tasks s activeTasks s' :
  tracksPending s →
  finalSim (loopOver chat tasks s activeTasks) = Some s' →
  tracksPending s'.
Proof.
  revert s activeTasks. induction tasks as [|task rest IH]; intros s activeTasks Htracks; simpl.
  - by intros [= <-].
  - pose proof (loopTurn_tracks task s activeTasks) as Hturn.
    destruct (loopTurn chat task s activeTasks) as [s1 active1|s1 reason|]; [| |done].
    + apply IH. by apply Hturn.
    + intros [= <-]. by apply Hturn.
Qed.

Lemma executeSwarmTasks_tracks tasks s s' :
  tracksPending s →
  finalSim (executeSwarmTasks chat tasks s) = Some s' →
  tracksPending s'.
Proof.
  intros Htracks. unfold executeSwarmTasks.
  pose proof (loopOver_tracks (sort comparePriority tasks) s []) as Hloop.
  destruct (loopOver chat (sort comparePriority tasks) s []) as [s1 active|s1 reason|];
    [| |done].
  - specialize (Hloop s1 Htracks eq_refl). unfold Promise_allSettled.
    destruct (latest_due s1 active) as [t|]; simpl; intros [= <-]; [|done].
    by apply advance_tracks.
  - intros [= <-]. by apply Hloop.
Qed.

(** The status of an agent is [active] only while a task of its own is in
    flight, and a run of [analyzeRepositorySwarm] keeps it so: when it
    returns and leaves nothing in flight, the metrics it reports count no
    active agent. *)
Theorem analyzeRepositorySwarm_status repository analysisTypes s s' run :
  tracksPending s →
  analyzeRepositorySwarm chat repository analysisTypes s = Returns s' run →
  tracksPending s' ∧
  (Forall isDone (promises s') → activeAgents (run_swarmMetrics run) = 0).
Proof.
  intros Htracks. unfold analyzeRepositorySwarm.
  pose proof (executeSwarmTasks_tracks
                (createSwarmTasks (clock s) repository (default ["comprehensive"] analysisTypes))
                s) as Hexec.
  destruct (executeSwarmTasks chat _ s) as [s1 results|s1 reason|]; [|done|done].
  specialize (Hexec s1 Htracks eq_refl).
  pose proof (coordinateResults_tracks chat results repository s1) as Hcoord.
  destruct (coordinateResults chat results repository s1) as [s2 coordinated|s2 reason|];
    [|done|done].
  specialize (Hcoord s2 Hexec eq_refl).
  intros [= <- <-]. simpl. split; [exact Hcoord|].
  intros Hdone. apply activeAgents_idle. simpl. intros k a Ha.
  destruct (status a) eqn:Hstatus; [done|].
  destruct (Hcoord k a Ha Hstatus) as (p & r & Hp & Hstate & _).
  rewrite Forall_forall in Hdone. destruct (Hdone p Hp) as [outcome Hout]. congruence.
Qed.

End Status.

(** ** The requests of a run *)

Lemma settle_promise_known i r s k :
  is_Some (agents (swarm (settle_promise i r s)) !! k) ↔ is_Some (agents (swarm s) !! k).
Proof.
  unfold settle_promise.
  pose proof (settle_agents (run_due r) (run_startTime r) (run_task r) (run_raced r)
                (swarm s) k) as Ha.
  destruct (executeAgentTask_settle _ _ _ _ _) as [sw outcome]. simpl in *.
  rewrite Ha. case_decide; [by rewrite fmap_is_Some|done].
Qed.

Lemma flush_known fuel t s k :
  is_Some (agents (swarm (flush fuel t s)) !! k) ↔ is_Some (agents (swarm s) !! k).
Proof.
  revert s. induction fuel as [|fuel IH]; intros s; simpl; [done|].
  destruct (next_due 0 t (promises s)) as [[i r]|]; [|done].
  by rewrite IH, settle_promise_known.
Qed.

Lemma advance_known t s task :
  knownAgent (swarm (advance t s)) task = knownAgent (swarm s) task.
Proof. unfold knownAgent. apply bool_decide_ext, flush_known. Qed.

Lemma Promise_race_calls refs s s' completed :
  Promise_race refs s = Returns s' completed →
  calls s' = calls s ∧ ∀ task, knownAgent (swarm s') task = knownAgent (swarm s) task.
Proof.
  unfold Promise_race.
  destruct (first_settled s refs) as [[value|reason]|]; [by intros [= <- _]|done|].
  destruct (earliest_due s refs) as [t|]; [|done].
  destruct (first_settled (advance t s) refs) as [[value|reason]|]; [|done|done].
  intros [= <- _]. split; [apply advance_calls|]. intros task. apply advance_known.
Qed.

Lemma filter_length_perm {A} (f : A → bool) l k :
  l ≡ₚ k → length (List.filter f l) = length (List.filter f k).
Proof.
  induction 1 as [|x l k _ IH|x y l|l k m _ IH1 _ IH2]; simpl.
  - done.
  - destruct (f x); simpl; by rewrite IH.
  - by destruct (f x), (f y).
  - by rewrite IH1.
Qed.

Section Requests.

Variable chat : nat → ChatRequest → ChatBehaviour.

Lemma startTask_calls task s :
  (∃ sent, calls (startTask chat task s) = calls s ++ sent ∧
           requestedTask <$> sent = Some <$> List.filter (sends (swarm s)) [task]) ∧
  ∀ task', knownAgent (swarm (startTask chat task s)) task' = knownAgent (swarm s) task'.
Proof.
  unfold startTask, executeAgentTask, sends. simpl.
  destruct (agents (swarm s) !! agentId task) as [a|] eqn:Ha.
  - assert (Hknown : knownAgent (swarm s) task = true)
      by (unfold knownAgent; rewrite bool_decide_eq_true_2; [done|by eexists]).
    rewrite Hknown. simpl.
    destruct (promptable task) eqn:Hprompt.
    + rewrite (start_registered _ _ _ a Ha Hprompt).
      simpl. destruct (race _ _) as [elapsed raced]. simpl.
      split; [by exists [agentRequest a task]|]. intros task'. apply bool_decide_ext.
      simpl. rewrite lookup_alter. case_decide as Hk; [|done]. rewrite <- Hk.
      by rewrite fmap_is_Some.
    + destruct (start_no_prompt (clock s) _ _ a Ha Hprompt) as (typeError & _ & ->).
      pose proof (catch_agents (clock s) (clock s) task typeError
                    (set_agents (alter (activate (clock s)) (agentId task)) (swarm s)))
        as Hcatch.
      destruct (executeAgentTask_catch _ _ _ _ _) as [sw' outcome].
      cbn [fst snd] in Hcatch. cbn [fst snd swarm calls setPromiseId].
      split; [exists []; by rewrite app_nil_r|]. intros task'. apply bool_decide_ext.
      rewrite Hcatch. cbn [agents set_agents]. rewrite !lookup_alter.
      destruct (decide (agentId task = agentId task')) as [Hk|Hk]; [|done].
      rewrite decide_True by done. rewrite !fmap_is_Some. by rewrite Hk.
  - assert (Hknown : knownAgent (swarm s) task = false)
      by (unfold knownAgent; rewrite bool_decide_eq_false_2; [done|rewrite Ha; by intros [? ?]]).
    rewrite Hknown. unfold executeAgentTask_start. rewrite Ha. simpl.
    split; [exists []; by rewrite app_nil_r|done].
Qed.

Lemma loopTurn_calls task s activeTasks s' activeTasks' :
  loopTurn chat task s activeTasks = Returns s' activeTasks' →
  (∃ sent, calls s' = calls s ++ sent ∧
           requestedTask <$> sent = Some <$> List.filter (sends (swarm s)) [task]) ∧
  ∀ task', knownAgent (swarm s') task' = knownAgent (swarm s) task'.
Proof.
  unfold loopTurn. fold (startTask chat task).
  destruct (Z.of_nat (length activeTasks) >=? maxConcurrentAgents (config (swarm s))).
  - destruct (Promise_race activeTasks s) as [s1 completed|s1 reason|] eqn:Hrace; [|done|done].
    destruct (Promise_race_calls _ _ _ _ Hrace) as [Hcalls Hknown].
    destruct (startTask_calls task s1) as [(sent & Hcalls' & Hsent) Hknown'].
    unfold startTask in *.
    destruct (executeAgentTask chat task s1) as [s2 taskPromise].
    intros [= <- _]. split.
    + exists sent. split; [by rewrite Hcalls', Hcalls|].
      rewrite Hsent. unfold sends. simpl. by rewrite Hknown.
    + intros task'. by rewrite Hknown', Hknown.
  - destruct (startTask_calls task s) as [Hcalls' Hknown']. unfold startTask in *.
    destruct (executeAgentTask chat task s) as [s2 taskPromise].
    by intros [= <- _].
Qed.

Lemma loopOver_calls tasks s activeTasks s' activeTasks' :
  loopOver chat tasks s activeTasks = Returns s' activeTasks' →
  ∃ sent, calls s' = calls s ++ sent ∧
          requestedTask <$> sent = Some <$> List.filter (sends (swarm s)) tasks.
Proof.
  revert s activeTasks. induction tasks as [|task rest IH]; intros s activeTasks.
  - simpl. intros [= <- _]. exists []. by rewrite app_nil_r.
  - change (loopOver chat (task :: rest) s activeTasks)
      with (match loopTurn chat task s activeTasks with
            | Returns s1 active1 => loopOver chat rest s1 active1
            | other => other
            end).
    destruct (loopTurn chat task s activeTasks) as [s1 active1|s1 reason|] eqn:Hturn;
      [|done|done].
    destruct (loopTurn_calls _ _ _ _ _ Hturn) as [(sent1 & Hcalls1 & Hsent1) Hknown].
    intros Hrest. destruct (IH _ _ Hrest) as (sent & Hcalls & Hsent).
    exists (sent1 ++ sent). split; [by rewrite Hcalls, Hcalls1, app_assoc|].
    rewrite fmap_app, Hsent1, Hsent, <- fmap_app. f_equal.
    change (task :: rest) with ([task] ++ rest). rewrite List.filter_app. f_equal.
    apply filter_ext. intros task'. unfold sends. by rewrite Hknown.
Qed.

(** The requests of a run: those of the tasks whose agent exists and whose
    prompt can be built, in the order of the sorted list. *)
Lemma executeSwarmTasks_calls tasks s s' results :
  executeSwarmTasks chat tasks s = Returns s' results →
  ∃ sent, calls s' = calls s ++ sent ∧
          requestedTask <$> sent =
            Some <$> List.filter (sends (swarm s)) (sort comparePriority tasks).
Proof.
  unfold executeSwarmTasks.
  destruct (loopOver chat (sort comparePriority tasks) s []) as [s1 active|s1 reason|] eqn:Hloop;
    [|done|done].
  destruct (loopOver_calls _ _ _ _ _ Hloop) as (sent & Hcalls & Hsent).
  unfold Promise_allSettled. intros [= <- _]. exists sent. split; [|done].
  destruct (latest_due s1 active) as [t|]; [|done]. by rewrite advance_calls.
Qed.

(** The executor starts the tasks of high priority first, then those of
    medium and then those of low priority, each group in the order of
    submission: the requests a run has sent when it returns are those of
    the tasks whose agent exists and whose prompt can be built, one for
    each, in that order. *)
Theorem executeSwarmTasks_priority_order tasks s s' results :
  executeSwarmTasks chat tasks s = Returns s' results →
  ∃ sent,
    calls s' = calls s ++ sent ∧
    requestedTask <$> sent =
      Some <$> List.filter (sends (swarm s))
                 (withPriority high tasks ++ withPriority medium tasks ++
                  withPriority low tasks).
Proof.
  intros Hrun. destruct (executeSwarmTasks_calls tasks s s' results Hrun)
    as (sent & Hcalls & Hsent).
  exists sent. split; [exact Hcalls|]. by rewrite <- sort_by_priority.
Qed.

(** No call is repeated: when [executeSwarmTasks] returns it has sent one
    request for each task whose agent exists and whose prompt can be
    built, and no other, however the calls ended; [config.retryAttempts]
    is read nowhere. *)
Theorem executeSwarmTasks_sends_once tasks s s' results :
  executeSwarmTasks chat tasks s = Returns s' results →
  length (calls s') =
    (length (calls s) + length (List.filter (sends (swarm s)) tasks))%nat.
Proof.
  intros Hrun. destruct (executeSwarmTasks_calls tasks s s' results Hrun)
    as (sent & Hcalls & Hsent).
  rewrite Hcalls, length_app. f_equal.
  apply (f_equal length) in Hsent. rewrite !length_fmap in Hsent. rewrite Hsent.
  apply filter_length_perm, sort_perm.
Qed.

End Requests.

(** ** The theorems at work *)

Ltac never_rejects :=
  let n := fresh "n" in
  let Hreply := fresh "Hreply" in
  intros n ? ? ? Hreply; exfalso;
  cbv [answeringBackend hangingBackend unevenBackend mostlyAnsweringBackend
       summaryOnlyBackend answer] in Hreply;
  repeat (destruct n as [|n]; [discriminate Hreply|]); discriminate Hreply.

Lemma answeringBackend_readable : readableBackend answeringBackend.
Proof. never_rejects. Qed.


Lemma unevenBackend_readable : readableBackend unevenBackend.
Proof. never_rejects. Qed.

Lemma summaryOnlyBackend_readable : readableBackend summaryOnlyBackend.
Proof. never_rejects. Qed.

Lemma rejectingBackend_readable : readableBackend rejectingBackend.
Proof. intros n request delay error [= _ <-]. by eexists. Qed.

(** A call rejected with [null]: the [catch] block throws at line 307, the
    promise of the task is rejected, and the executor returns a map
    without the task; the agent is idle again and its [tasksAssigned] has
    grown. *)
Lemma null_rejection_loses_result :
  ∃ s' e,
    executeSwarmTasks nullBackend [architectureTask] (freshSim defaultConfig 0)
      = Returns s' [] ∧
    settledOf s' 0%nat =
      Some (RejectedWith (Str "Cannot read properties of null (reading 'message')")) ∧
    status <$> agents (swarm s') !! "architect" = Some idle ∧
    agentEfficiency (swarmMetrics (swarm s')) !! "architect" = Some e ∧
    tasksAssigned e = 1.
Proof.
  eexists _, _. split; [vm_compute; reflexivity|].
  split; [vm_compute; reflexivity|]. split; [vm_compute; reflexivity|].
  split; [vm_compute; reflexivity|]. reflexivity.
Qed.

(** Beyond the ceiling the rejected promise wins the race of line 220 and
    [executeSwarmTasks] throws. *)
Lemma null_rejection_throws :
  ∃ s',
    executeSwarmTasks nullBackend (createSwarmTasks 0 demoRepository ["comprehensive"])
      (freshSim twoAtATime 0)
      = Throws s' (Str "Cannot read properties of null (reading 'message')").
Proof. eexists. vm_compute. reflexivity. Qed.

(** A task whose prompt cannot be built: no request is sent, and the
    result, a failure with the message of the [TypeError], is there when
    the call returns. *)
Lemma no_prompt_no_request :
  let started := (executeAgentTask answeringBackend promptlessTask (freshSim defaultConfig 0)).1 in
  calls started = [] ∧
  ∃ r, settledOf started 0%nat = Some (FulfilledWith r) ∧
       success r = false ∧
       error r = Str "Cannot convert undefined or null to object" ∧
       executionTime r = 0.
Proof.
  split; [vm_compute; reflexivity|].
  eexists. split; [vm_compute; reflexivity|]. repeat split.
Qed.

(** The timer of a [taskTimeout] of 2^31 ms fires after 1 ms, and so does
    the one of a [taskTimeout] of 0. *)
Lemma timer_out_of_range :
  race 2147483648 NeverSettles = (1, TimerFired) ∧
  race 0 NeverSettles = (1, TimerFired) ∧
  race 120000 (Settles 120000 (answer "done")) =
    (120000, ChatResolved (RespOk (Str "done") Undefined)).
Proof. repeat split. Qed.

Lemma registry_fixed_witness :
  reachable defaultConfig afterOneAnswer ∧
  registryIntact afterOneAnswer ∧
  config afterOneAnswer = mkConfig defaultConfig.
Proof.
  assert (Hreach : reachable defaultConfig afterOneAnswer).
  { apply (reachable_step defaultConfig (newSwarm defaultConfig)).
    - apply reachable_new.
    - apply step_settle. }
  split; [exact Hreach|].
  apply (registry_fixed defaultConfig afterOneAnswer Hreach).
Defined.

Lemma totals_add_up_witness :
  let sw := updateSwarmMetrics fiveOfSix (newSwarm defaultConfig) in
  reachable defaultConfig sw ∧
  totalTasks (swarmMetrics sw) = 6 ∧
  totalTasks (swarmMetrics sw) = completedTasks (swarmMetrics sw) + failedTasks (swarmMetrics sw).
Proof.
  intros sw.
  assert (Hreach : reachable defaultConfig sw).
  { apply (reachable_step defaultConfig (newSwarm defaultConfig)).
    - apply reachable_new.
    - apply step_totals. }
  split; [exact Hreach|]. split; [vm_compute; reflexivity|].
  apply (totals_add_up defaultConfig sw Hreach).
Defined.

Lemma createSwarmTasks_wellformed_witness :
  let tasks := createSwarmTasks 0 demoRepository ["security"; "testing"] in
  reachable defaultConfig (newSwarm defaultConfig) ∧
  length tasks = 2%nat ∧
  NoDup (id <$> tasks) ∧
  Forall (registered (newSwarm defaultConfig)) tasks ∧
  sort comparePriority tasks = tasks.
Proof.
  intros tasks. split; [apply reachable_new|]. split; [vm_compute; reflexivity|].
  apply (createSwarmTasks_wellformed defaultConfig (newSwarm defaultConfig) 0 demoRepository
           ["security"; "testing"] (reachable_new defaultConfig)).
Defined.


Lemma executeSwarmTasks_results_bounded_witness :
  ∃ s' results,
    executeSwarmTasks unevenBackend (createSwarmTasks 0 demoRepository ["comprehensive"])
      (freshSim twoAtATime 0) = Returns s' results ∧
    Z.of_nat (length results) ≤ 2.
Proof.
  assert (Hrun : ∃ s' results,
             executeSwarmTasks unevenBackend
               (createSwarmTasks 0 demoRepository ["comprehensive"])
               (freshSim twoAtATime 0) = Returns s' results).
  { eexists _, _. vm_compute. reflexivity. }
  destruct Hrun as (s' & results & Hrun).
  exists s', results. split; [exact Hrun|].
  apply (executeSwarmTasks_results_bounded unevenBackend
           (createSwarmTasks 0 demoRepository ["comprehensive"]) (freshSim twoAtATime 0)
           s' results); [vm_compute; discriminate|exact Hrun].
Defined.

Lemma executeSwarmTasks_keeps_first_and_last_witness :
  ∃ s' results,
    executeSwarmTasks unevenBackend (createSwarmTasks 0 demoRepository ["comprehensive"])
      (freshSim twoAtATime 0) = Returns s' results ∧
    ∀ k, k ∈ results.*1 →
         ∃ i task,
           sort comparePriority (createSwarmTasks 0 demoRepository ["comprehensive"]) !! i
             = Some task ∧
           id task = k ∧
           (Z.of_nat i < 2 - 1 ∨ i = (6 - 1)%nat).
Proof.
  assert (Hrun : ∃ s' results,
             executeSwarmTasks unevenBackend
               (createSwarmTasks 0 demoRepository ["comprehensive"])
               (freshSim twoAtATime 0) = Returns s' results).
  { eexists _, _. vm_compute. reflexivity. }
  destruct Hrun as (s' & results & Hrun).
  exists s', results. split; [exact Hrun|].
  apply (executeSwarmTasks_keeps_first_and_last unevenBackend
           (createSwarmTasks 0 demoRepository ["comprehensive"]) (freshSim twoAtATime 0)
           s' results); [vm_compute; discriminate|vm_compute; reflexivity|exact Hrun].
Defined.

Lemma executeSwarmTasks_beyond_ceiling_witness :
  ∃ s' results,
    executeSwarmTasks unevenBackend (createSwarmTasks 0 demoRepository ["comprehensive"])
      (freshSim twoAtATime 0) = Returns s' results ∧
    results.*1 = ["arch-0"; "doc-0"].
Proof.
  destruct (executeSwarmTasks_beyond_ceiling unevenBackend unevenBackend_readable
              (createSwarmTasks 0 demoRepository ["comprehensive"]) (freshSim twoAtATime 0))
    as (s' & results & Hrun & Hresults).
  - vm_compute. discriminate.
  - vm_compute. reflexivity.
  - repeat constructor; eexists; vm_compute; reflexivity.
  - apply (bool_decide_unpack _). vm_compute. exact I.
  - constructor.
  - exists s', results. split; [exact Hrun|].
    let kept := eval vm_compute in
      (take (Z.to_nat (maxConcurrentAgents (config (swarm (freshSim twoAtATime 0)))) - 1)
         (sort comparePriority (createSwarmTasks 0 demoRepository ["comprehensive"])) ++
       drop (length (createSwarmTasks 0 demoRepository ["comprehensive"]) - 1)
         (sort comparePriority (createSwarmTasks 0 demoRepository ["comprehensive"]))) in
    change (Forall2 resultFor kept results) in Hresults.
    apply Forall2_cons_inv_l in Hresults as (e1 & rest1 & (H1 & _) & Hresults & ->).
    apply Forall2_cons_inv_l in Hresults as (e2 & rest2 & (H2 & _) & Hresults & ->).
    apply Forall2_nil_inv_l in Hresults as ->.
    simpl. by rewrite H1, H2.
Defined.

Lemma executeSwarmTasks_unknown_agents_witness :
  ∃ s' results,
    executeSwarmTasks answeringBackend [strayTask; promptlessTask; architectureTask]
      (freshSim defaultConfig 0) = Returns s' results ∧
    Forall2 (λ task entry, resultFor task entry ∧ failsWithoutPrompt task entry)
      [architectureTask; promptlessTask] results.
Proof.
  apply (executeSwarmTasks_unknown_agents answeringBackend answeringBackend_readable
           [strayTask; promptlessTask; architectureTask] (freshSim defaultConfig 0)).
  - vm_compute. discriminate.
  - intros k Hk. by apply (newSwarm_registry defaultConfig k).
  - apply (bool_decide_unpack _). vm_compute. exact I.
  - constructor.
Defined.


Lemma resetSwarm_restores_witness :
  reachable defaultConfig afterOneAnswer ∧
  (tasksCompleted <$> agents afterOneAnswer !! "architect") = Some 1 ∧
  (∀ k, forgetLastActive <$> agents (resetSwarm afterOneAnswer) !! k =
        agents (newSwarm defaultConfig) !! k) ∧
  (∀ k, agentEfficiency (swarmMetrics (resetSwarm afterOneAnswer)) !! k = None).
Proof.
  assert (Hreach : reachable defaultConfig afterOneAnswer).
  { apply (reachable_step defaultConfig (newSwarm defaultConfig)).
    - apply reachable_new.
    - apply step_settle. }
  split; [exact Hreach|]. split; [vm_compute; reflexivity|].
  destruct (resetSwarm_restores defaultConfig afterOneAnswer Hreach)
    as (_ & Hagents & _ & _ & _ & _ & Hnone & _).
  split; [exact Hagents|exact Hnone].
Defined.

Lemma executeSwarmTasks_after_reset_witness :
  (∃ s', executeSwarmTasks answeringBackend [architectureTask]
           (afterReset (freshSim twoAtATime 0)) = Returns s' []) ∧
  (∃ s' reason,
     executeSwarmTasks answeringBackend (createSwarmTasks 0 demoRepository ["comprehensive"])
       (afterReset (freshSim twoAtATime 0)) = Throws s' reason).
Proof.
  split.
  - apply (executeSwarmTasks_after_reset answeringBackend [architectureTask]
             (freshSim twoAtATime 0)); vm_compute; discriminate.
  - apply (executeSwarmTasks_after_reset answeringBackend
             (createSwarmTasks 0 demoRepository ["comprehensive"]) (freshSim twoAtATime 0)).
    + vm_compute. discriminate.
    + vm_compute. reflexivity.
Defined.

Lemma analyzeRepositorySwarm_after_reset_witness :
  ∃ s' run,
    analyzeRepositorySwarm answeringBackend demoRepository None
      (afterReset (freshSim defaultConfig 0)) = Returns s' run ∧
    individualResults run = [] ∧
    swarmAnalysis run = degradedResult ∧
    noEfficiency s'.
Proof.
  apply (analyzeRepositorySwarm_after_reset answeringBackend demoRepository None
           (freshSim defaultConfig 0)).
  vm_compute. discriminate.
Defined.

Lemma executeAdvancedTask_like_executeAgentTask_witness :
  let sw := newSwarm defaultConfig in
  let raced := ChatResolved (RespFailed (Str "rate limited")) in
  (executeAgentTask_settle 250 50 architectureTask raced sw).2 =
    (executeAdvancedTask_settle 250 50 architectureTask raced sw).2 ∧
  agents (executeAgentTask_settle 250 50 architectureTask raced sw).1 =
    agents (executeAdvancedTask_settle 250 50 architectureTask raced sw).1 ∧
  swarmMetrics (executeAdvancedTask_settle 250 50 architectureTask raced sw).1 = swarmMetrics sw.
Proof.
  intros sw raced.
  destruct (executeAdvancedTask_like_executeAgentTask 250 50 architectureTask raced sw)
    as (Hresult & Hagents & Hmetrics & _).
  - eexists. vm_compute. reflexivity.
  - split; [exact Hresult|split; [exact Hagents|exact Hmetrics]].
Defined.

Lemma performAdvancedIntelligence_confidence_witness :
  ∃ s' report,
    performAdvancedIntelligence summaryOnlyBackend demoRepository (freshIntel defaultConfig 0)
      = IntelReturns s' report ∧
    successfulAnalyses (report_metrics report) = 0 ∧
    length (intelligenceAnalysis report) = 4%nat ∧
    report_confidence report = "high".
Proof.
  destruct (performAdvancedIntelligence_confidence summaryOnlyBackend
              summaryOnlyBackend_readable demoRepository (freshIntel defaultConfig 0))
    as (s' & report & Hrun & Hlen & Hhigh & _).
  - eexists. vm_compute. reflexivity.
  - eexists. vm_compute. reflexivity.
  - reflexivity.
  - intros request. discriminate.
  - exists s', report. split; [exact Hrun|]. split; [|by split].
    assert (Hzero : ∃ s0 report0,
               performAdvancedIntelligence summaryOnlyBackend demoRepository
                 (freshIntel defaultConfig 0) = IntelReturns s0 report0 ∧
               successfulAnalyses (report_metrics report0) = 0).
    { eexists _, _. split; vm_compute; reflexivity. }
    destruct Hzero as (s0 & report0 & Hrun0 & Hzero).
    rewrite Hrun in Hrun0. by injection Hrun0 as _ <-.
Defined.

Lemma executeSwarmTasks_zero_ceiling_witness :
  maxConcurrentAgents (config (swarm (freshSim noneAtATime 0))) = 0 ∧
  executeSwarmTasks answeringBackend [architectureTask] (freshSim noneAtATime 0) = Hangs.
Proof.
  apply (executeSwarmTasks_zero_ceiling answeringBackend noneAtATime 0 [architectureTask]
           (freshSim noneAtATime 0)).
  - reflexivity.
  - lia.
  - reflexivity.
  - discriminate.
Defined.

Lemma analyzeRepositorySwarm_status_witness :
  ∃ s' run,
    analyzeRepositorySwarm answeringBackend demoRepository None (freshSim defaultConfig 0)
      = Returns s' run ∧
    tracksPending s' ∧
    activeAgents (run_swarmMetrics run) = 0.
Proof.
  assert (Hrun : ∃ s' run,
             analyzeRepositorySwarm answeringBackend demoRepository None
               (freshSim defaultConfig 0) = Returns s' run ∧
             Forall isDone (promises s')).
  { eexists _, _. split; [vm_compute; reflexivity|].
    repeat constructor; eexists; reflexivity. }
  destruct Hrun as (s' & run & Hrun & Hdone).
  exists s', run. split; [exact Hrun|].
  destruct (analyzeRepositorySwarm_status answeringBackend demoRepository None
              (freshSim defaultConfig 0) s' run (freshSim_tracks defaultConfig 0) Hrun)
    as [Htracks Hactive].
  split; [exact Htracks|exact (Hactive Hdone)].
Defined.

Lemma executeSwarmTasks_sends_once_witness :
  ∃ s' results,
    executeSwarmTasks rejectingBackend [strayTask; promptlessTask; architectureTask]
      (freshSim defaultConfig 0) = Returns s' results ∧
    length (calls s') = 1%nat.
Proof.
  assert (Hrun : ∃ s' results,
             executeSwarmTasks rejectingBackend [strayTask; promptlessTask; architectureTask]
               (freshSim defaultConfig 0) = Returns s' results).
  { eexists _, _. vm_compute. reflexivity. }
  destruct Hrun as (s' & results & Hrun).
  exists s', results. split; [exact Hrun|].
  apply (executeSwarmTasks_sends_once rejectingBackend
           [strayTask; promptlessTask; architectureTask]
           (freshSim defaultConfig 0) s' results Hrun).
Defined.

Lemma executeSwarmTasks_priority_order_witness :
  ∃ s' results,
    executeSwarmTasks answeringBackend
      (reverse (createSwarmTasks 0 demoRepository ["comprehensive"]))
      (freshSim defaultConfig 0) = Returns s' results ∧
    (λ request, id <$> requestedTask request) <$> calls s' =
      Some <$> ["sec-0"; "arch-0"; "qual-0"; "perf-0"; "doc-0"; "test-0"].
Proof.
  assert (Hrun : ∃ s' results,
             executeSwarmTasks answeringBackend
               (reverse (createSwarmTasks 0 demoRepository ["comprehensive"]))
               (freshSim defaultConfig 0) = Returns s' results).
  { eexists _, _. vm_compute. reflexivity. }
  destruct Hrun as (s' & results & Hrun).
  exists s', results. split; [exact Hrun|].
  destruct (executeSwarmTasks_priority_order answeringBackend
              (reverse (createSwarmTasks 0 demoRepository ["comprehensive"]))
              (freshSim defaultConfig 0) s' results Hrun) as (sent & Hcalls & Hsent).
  rewrite Hcalls. simpl.
  apply (f_equal (fmap (fmap (M:=option) id))) in Hsent.
  rewrite <- list_fmap_compose in Hsent.
  etrans; [exact Hsent|]. vm_compute. reflexivity.
Defined.
